(** * spot_client.py: playlist collection, tagging dispatch and audio export

    A shallow embedding of the control flow of [spot_client.py] and the
    properties of its playlist collector, track extractor, tag embedder
    and download orchestrator.

    Python values are embedded as a small dynamically typed universe
    ([value]); Python strings are sequences of code points ([pystr]), so
    that slicing and length count characters, as [str] does.  Exceptions
    are results of an error monad; the functions that talk to the outside
    (catalog calls, the file system, the download tool, the tagging
    library) are fields of an environment acting on an abstract [World],
    and every such call is recorded in a trace.  The listing and file
    export commands and [main] are modelled on top of the same
    environment; the CSV writer acts on the world without an event, and
    the calls of the account commands are kept in a journal of their
    own. *)

From Stdlib Require Import String Ascii.
From Stdlib Require Import List ZArith NArith Lia Bool PeanoNat.
Import ListNotations.

Set Implicit Arguments.
Set Warnings "-register-all".

(** ** Strings *)

Definition pystr := list N.

(** A literal of the source, as code points. *)
Definition lit (s : string) : pystr :=
  map N_of_ascii (list_ascii_of_string s).

Fixpoint pystr_eqb (a b : pystr) : bool :=
  match a, b with
  | [], [] => true
  | x :: a', y :: b' => N.eqb x y && pystr_eqb a' b'
  | _, _ => false
  end.

(** [s.startswith(p)], returning what follows the prefix. *)
Fixpoint strip_prefix (p s : pystr) : option pystr :=
  match p, s with
  | [], _ => Some s
  | x :: p', y :: s' => if N.eqb x y then strip_prefix p' s' else None
  | _ :: _, [] => None
  end.

Fixpoint take_while (f : N -> bool) (s : pystr) : pystr :=
  match s with
  | [] => []
  | c :: s' => if f c then c :: take_while f s' else []
  end.

Definition in_range (lo hi c : N) : bool := N.leb lo c && N.leb c hi.

(** The character class [[A-Za-z0-9]]. *)
Definition is_alnum (c : N) : bool :=
  in_range 65 90 c || in_range 97 122 c || in_range 48 57 c.

(** Decimal digits of a natural number, most significant first. *)
Fixpoint digits_fuel (fuel : nat) (n : N) : pystr :=
  match fuel with
  | O => []
  | S f =>
    if N.ltb n 10 then [48 + n]%N
    else digits_fuel f (n / 10)%N ++ [48 + n mod 10]%N
  end.

(** [str(n)] for [n >= 0]; a number has no more decimal digits than bits. *)
Definition str_of_N (n : N) : pystr := digits_fuel (S (N.size_nat n)) n.

(** [str(z)] for an integer. *)
Definition str_of_Z (z : Z) : pystr :=
  match z with
  | Zneg p => lit "-" ++ str_of_N (Npos p)
  | _ => str_of_N (Z.to_N z)
  end.

(** [f"{n:03d}"]: at least three digits, padded with zeros on the left. *)
Definition format_03d (n : N) : pystr :=
  let d := str_of_N n in
  repeat 48%N (3 - length d) ++ d.

(** [s.rfind(c)] for a single character: the last index, or -1. *)
Fixpoint rfind_from (i : Z) (c : N) (s : pystr) (last : Z) : Z :=
  match s with
  | [] => last
  | x :: s' => rfind_from (i + 1) c s' (if N.eqb x c then i else last)
  end.

Definition rfind (c : N) (s : pystr) : Z := rfind_from 0 c s (-1).

(** [os.path.splitext] of [posixpath]: the extension starts at the last
    dot that comes after the last slash, unless the file name before it
    is made of dots only. *)
Definition splitext (p : pystr) : pystr * pystr :=
  let sepIndex := rfind 47 p in
  let dotIndex := rfind 46 p in
  if Z.ltb sepIndex dotIndex then
    let filename :=
      firstn (Z.to_nat (dotIndex - (sepIndex + 1)))
             (skipn (Z.to_nat (sepIndex + 1)) p) in
    if existsb (fun c => negb (N.eqb c 46)) filename
    then (firstn (Z.to_nat dotIndex) p, skipn (Z.to_nat dotIndex) p)
    else (p, [])
  else (p, []).

(** [s.lower()] on the letters A-Z.  The full Unicode mapping sends no
    other code point to a string of ASCII characters, but for U+212A (to
    [k]) and U+0130 (to [i] and a combining dot); neither letter occurs
    in an extension the program compares with, so the comparisons of the
    lowered extension come out the same. *)
Definition lower_char (c : N) : N :=
  if in_range 65 90 c then (c + 32)%N else c.

Definition py_lower (s : pystr) : pystr := map lower_char s.

(** [posixpath.join(a, b)] *)
Definition path_join (a b : pystr) : pystr :=
  match strip_prefix (lit "/") b with
  | Some _ => b
  | None =>
    match rev a with
    | [] => a ++ b
    | last :: _ => if N.eqb last 47 then a ++ b else a ++ lit "/" ++ b
    end
  end.

(** [s.replace(old, new)] for a non-empty [old]: occurrences are found
    left to right and do not overlap; [skip] counts the characters of a
    replaced occurrence that remain to be dropped. *)
Fixpoint replace_from (skip : nat) (old new s : pystr) : pystr :=
  match s with
  | [] => []
  | c :: s' =>
    match skip with
    | S k => replace_from k old new s'
    | O =>
      match strip_prefix old s with
      | Some _ => new ++ replace_from (length old - 1) old new s'
      | None => c :: replace_from 0 old new s'
      end
    end
  end.

Definition py_replace (old new s : pystr) : pystr := replace_from 0 old new s.

(** The characters [str.strip()] removes. *)
Definition is_space (c : N) : bool :=
  in_range 9 13 c || in_range 28 32 c || N.eqb c 133 || N.eqb c 160
  || N.eqb c 5760 || in_range 8192 8202 c || N.eqb c 8232 || N.eqb c 8233
  || N.eqb c 8239 || N.eqb c 8287 || N.eqb c 12288.

Fixpoint lstrip (s : pystr) : pystr :=
  match s with
  | [] => []
  | c :: s' => if is_space c then lstrip s' else s
  end.

Definition py_strip (s : pystr) : pystr := rev (lstrip (rev (lstrip s))).

(** The character class of the file name filter: less-than, greater-than,
    colon, double quote (code point 34), slash, backslash, bar, question
    mark and star. *)
Definition illegal_chars : pystr := lit "<>:" ++ [34%N] ++ lit "/\|?*".

Definition is_illegal (c : N) : bool := existsb (N.eqb c) illegal_chars.

(** [re.sub] of that class by the empty string. *)
Definition remove_illegal (s : pystr) : pystr :=
  filter (fun c => negb (is_illegal c)) s.

(** ** Values and exceptions *)

Inductive value : Type :=
| VNone
| VBool (b : bool)
| VInt (z : Z)
| VStr (s : pystr)
| VList (l : list value)
| VDict (d : list (pystr * value)).

Inductive exn_class : Type :=
| AttributeError
| TypeError
| KeyError
| IndexError
| ID3NoHeaderError
| FileNotFoundError
| OtherError.

Record exn : Type := Exn { exn_cls : exn_class; exn_msg : pystr }.

Definition exn_class_eqb (a b : exn_class) : bool :=
  match a, b with
  | AttributeError, AttributeError
  | TypeError, TypeError
  | KeyError, KeyError
  | IndexError, IndexError
  | ID3NoHeaderError, ID3NoHeaderError
  | FileNotFoundError, FileNotFoundError
  | OtherError, OtherError => true
  | _, _ => false
  end.

Inductive result (A : Type) : Type :=
| Ok (a : A)
| Raise (e : exn).

Arguments Ok {A} a.
Arguments Raise {A} e.

Definition rbind {A B} (r : result A) (k : A -> result B) : result B :=
  match r with
  | Ok a => k a
  | Raise e => Raise e
  end.

Declare Scope result_scope.
Delimit Scope result_scope with result.
Notation "x <- r ;; k" := (rbind r (fun x => k))
  (at level 100, r at next level, right associativity) : result_scope.

(** [type(v).__name__] *)
Definition type_name (v : value) : pystr :=
  match v with
  | VNone => lit "NoneType"
  | VBool _ => lit "bool"
  | VInt _ => lit "int"
  | VStr _ => lit "str"
  | VList _ => lit "list"
  | VDict _ => lit "dict"
  end.

(** [bool(v)] *)
Definition truthy (v : value) : bool :=
  match v with
  | VNone => false
  | VBool b => b
  | VInt z => negb (Z.eqb z 0)
  | VStr s => match s with [] => false | _ => true end
  | VList l => match l with [] => false | _ => true end
  | VDict d => match d with [] => false | _ => true end
  end.

(** [a or b] *)
Definition py_or (a b : value) : value := if truthy a then a else b.

Fixpoint lookup (k : pystr) (d : list (pystr * value)) : option value :=
  match d with
  | [] => None
  | (k', v) :: d' => if pystr_eqb k k' then Some v else lookup k d'
  end.

(** [v.get(k, default)]: only dictionaries have the method. *)
Definition py_get (v : value) (k : pystr) (default : value) : result value :=
  match v with
  | VDict d =>
    Ok (match lookup k d with Some x => x | None => default end)
  | _ =>
    Raise (Exn AttributeError
             (lit "'" ++ type_name v ++ lit "' object has no attribute 'get'"))
  end.

(** The items a [for] loop over [v] visits. *)
Definition py_iter (v : value) : result (list value) :=
  match v with
  | VList l => Ok l
  | VDict d => Ok (map (fun kv => VStr (fst kv)) d)
  | VStr s => Ok (map (fun c => VStr [c]) s)
  | _ =>
    Raise (Exn TypeError
             (lit "'" ++ type_name v ++ lit "' object is not iterable"))
  end.

(** [len(v)] *)
Definition py_len (v : value) : result Z :=
  match v with
  | VList l => Ok (Z.of_nat (length l))
  | VDict d => Ok (Z.of_nat (length d))
  | VStr s => Ok (Z.of_nat (length s))
  | _ =>
    Raise (Exn TypeError
             (lit "object of type '" ++ type_name v ++ lit "' has no len()"))
  end.

(** [v[0]]; the keys of a dictionary of this universe are strings, so the
    integer key is never found. *)
Definition py_first (v : value) : result value :=
  match v with
  | VList (x :: _) => Ok x
  | VList [] => Raise (Exn IndexError (lit "list index out of range"))
  | VStr (c :: _) => Ok (VStr [c])
  | VStr [] => Raise (Exn IndexError (lit "string index out of range"))
  | VDict _ => Raise (Exn KeyError (lit "0"))
  | _ =>
    Raise (Exn TypeError
             (lit "'" ++ type_name v ++ lit "' object is not subscriptable"))
  end.

Definition is_dict (v : value) : bool :=
  match v with VDict _ => true | _ => false end.

(** [sep.join(vs)]: every element has to be a string. *)
Fixpoint join_from (i : N) (sep : pystr) (vs : list value) : result pystr :=
  match vs with
  | [] => Ok []
  | v :: rest =>
    match v with
    | VStr s =>
      (tl <- join_from (i + 1) sep rest ;;
       Ok (match rest with [] => s | _ => s ++ sep ++ tl end))%result
    | _ =>
      Raise (Exn TypeError
               (lit "sequence item " ++ str_of_N i
                  ++ lit ": expected str instance, "
                  ++ type_name v ++ lit " found"))
    end
  end.

Definition py_join (sep : pystr) (vs : list value) : result pystr :=
  join_from 0 sep vs.

(** ** Track Extractor *)

(** [re.search(r"track:([A-Za-z0-9]+)", s)], group 1: the leftmost
    position where [track:] is followed by an alphanumeric run, and the
    whole of that run. *)
Fixpoint search_track_id (s : pystr) : option pystr :=
  match s with
  | [] => None
  | _ :: s' =>
    match strip_prefix (lit "track:") s with
    | Some rest =>
      match take_while is_alnum rest with
      | [] => search_track_id s'
      | run => Some run
      end
    | None => search_track_id s'
    end
  end.

(** The generator handed to [join]: for each artist entry with a truthy
    [profile], the [name] of that profile. *)
Fixpoint artist_names (artists_items : list value) : result (list value) :=
  match artists_items with
  | [] => Ok []
  | a :: rest =>
    (p <- py_get a (lit "profile") VNone ;;
     if truthy p then
       pr <- py_get a (lit "profile") (VDict []) ;;
       n <- py_get pr (lit "name") VNone ;;
       ns <- artist_names rest ;;
       Ok (n :: ns)
     else artist_names rest)%result
  end.

Definition _extract_track_from_item (item : value) : result value :=
  (itemV2 <- py_get item (lit "itemV2") (VDict []) ;;
   data <- py_get itemV2 (lit "data") (VDict []) ;;
   if negb (truthy data) then Ok (VDict [])
   else
     name <- py_get data (lit "name") VNone ;;
     uri <- py_get data (lit "uri") VNone ;;
     albumOfTrack <- py_get data (lit "albumOfTrack") VNone ;;
     let album := py_or albumOfTrack (VDict []) in
     album_cover <-
       (if is_dict album then
          n1 <- py_get album (lit "name") VNone ;;
          n2 <- py_get album (lit "__typename") VNone ;;
          let album_name := py_or n1 n2 in
          coverArt <- py_get album (lit "coverArt") (VDict []) ;;
          cover_art <- py_get coverArt (lit "sources") (VList []) ;;
          cover_url <-
            (if truthy cover_art then
               first <- py_first cover_art ;;
               py_get first (lit "url") VNone
             else Ok VNone) ;;
          Ok (album_name, cover_url)
        else Ok (VNone, VNone)) ;;
     let '(album_name, cover_url) := album_cover in
     artists_obj <- py_get data (lit "artists") (VDict []) ;;
     artists_items <- py_get artists_obj (lit "items") (VList []) ;;
     artists_iter <- py_iter artists_items ;;
     names <- artist_names artists_iter ;;
     artists <- py_join (lit ", ") names ;;
     duration_raw <- py_get data (lit "duration") VNone ;;
     let duration := py_or duration_raw (VDict []) in
     duration_ms <-
       (if is_dict duration then py_get duration (lit "totalMilliseconds") VNone
        else Ok VNone) ;;
     let track_id :=
       match uri with
       | VStr u =>
         match search_track_id u with
         | Some g => VStr g
         | None => VNone
         end
       | _ => VNone
       end in
     Ok (VDict [ (lit "name", name);
                 (lit "artists", VStr artists);
                 (lit "album", album_name);
                 (lit "uri", uri);
                 (lit "id", track_id);
                 (lit "duration_ms", duration_ms);
                 (lit "cover_url", cover_url) ]))%result.

(** ** Effects

    A computation runs on a state made of the local variables of the
    running function, the outside world and the trace of the calls made
    to it.  A raised exception leaves the state as it was when it was
    raised: what a [try] body has appended to a list stays appended. *)

Inductive outcome (A : Type) : Type :=
| Return (a : A)
| Throw (e : exn)
| Diverge.

Arguments Return {A} a.
Arguments Throw {A} e.
Arguments Diverge {A}.

Inductive tag_format : Type :=
| FmtMP3 | FmtID3 | FmtMP4 | FmtOggOpus | FmtOggVorbis.

Inductive event : Type :=
| EvPaginate
| EvPaginateNext
| EvGetPlaylistInfo (limit offset : Z)
| EvWhich (prog : pystr)
| EvPublicPlaylist (playlist : pystr)
| EvMakedirs (path : pystr)
| EvWriteJson (path : pystr) (content : value)
| EvPrint (to_stderr : bool) (line : pystr)
| EvRequestsGet (url : value)
| EvSubprocessRun (cmd : list pystr)
| EvGlob (pattern : pystr)
| EvTagOpen (fmt : tag_format) (path : pystr)
| EvTagSave (path : pystr).

Section Effects.

Variable World : Type.

Record state (L : Type) : Type :=
  State { locals : L; world : World; trace : list event }.

Definition M (L A : Type) : Type := state L -> outcome A * state L.

Definition ret {L A} (a : A) : M L A := fun s => (Return a, s).

Definition bind {L A B} (m : M L A) (k : A -> M L B) : M L B :=
  fun s =>
    match m s with
    | (Return a, s') => k a s'
    | (Throw e, s') => (Throw e, s')
    | (Diverge, s') => (Diverge, s')
    end.

Definition raise {L A} (e : exn) : M L A := fun s => (Throw e, s).

Definition diverge {L A} : M L A := fun s => (Diverge, s).

(** A pure computation that may raise. *)
Definition lift {L A} (r : result A) : M L A :=
  match r with
  | Ok a => ret a
  | Raise e => raise e
  end.

(** [try: m  except Exception as e: handler e] *)
Definition try_except {L A} (m : M L A) (handler : exn -> M L A) : M L A :=
  fun s =>
    match m s with
    | (Throw e, s') => handler e s'
    | other => other
    end.

(** [try: m  except cls: handler] *)
Definition try_except_class {L A} (cls : exn_class) (m : M L A)
    (handler : M L A) : M L A :=
  try_except m
    (fun e => if exn_class_eqb (exn_cls e) cls then handler else raise e).

Definition get_locals {L} : M L L := fun s => (Return (locals s), s).

Definition set_locals {L} (l : L) : M L unit :=
  fun s => (Return tt, State l (world s) (trace s)).

Definition emit {L} (ev : event) : M L unit :=
  fun s => (Return tt, State (locals s) (world s) (trace s ++ [ev])).

(** A call to the outside that may raise. *)
Definition ext {L A} (ev : event) (f : World -> result A * World) : M L A :=
  fun s =>
    let (r, w) := f (world s) in
    let s' := State (locals s) w (trace s ++ [ev]) in
    match r with
    | Ok a => (Return a, s')
    | Raise e => (Throw e, s')
    end.

(** A call to the outside that cannot raise. *)
Definition ext_total {L A} (ev : event) (f : World -> A * World) : M L A :=
  fun s =>
    let (a, w) := f (world s) in
    (Return a, State (locals s) w (trace s ++ [ev])).

(** Calling a function: it runs on locals of its own. *)
Definition call {L L' A} (init : L') (m : M L' A) : M L A :=
  fun s =>
    let (r, s') := m (State init (world s) (trace s)) in
    (r, State (locals s) (world s') (trace s')).

Fixpoint for_each {L A} (xs : list A) (body : A -> M L unit) : M L unit :=
  match xs with
  | [] => ret tt
  | x :: rest => bind (body x) (fun _ => for_each rest body)
  end.

End Effects.

Arguments ret {World L A} a.
Arguments raise {World L A} e.
Arguments diverge {World L A}.
Arguments lift {World L A} r.
Arguments get_locals {World L}.
Arguments set_locals {World L} l.
Arguments emit {World L} ev.
Arguments State {World L} locals world trace.

Declare Scope eff_scope.
Delimit Scope eff_scope with eff.
Notation "x <- m ;; k" := (bind m (fun x => k))
  (at level 100, m at next level, right associativity) : eff_scope.
Notation "m ;; k" := (bind m (fun _ => k))
  (at level 100, right associativity) : eff_scope.

(** ** Playlist Collector *)

Section Collector.

Variable World : Type.

(** The catalog object: creating the paginated stream, asking the
    stream for its next chunk ([None] when it is exhausted), and the
    offset/limit call. *)
Record PublicPlaylist : Type := {
  paginate_playlist : World -> result unit * World;
  paginate_next : World -> result (option value) * World;
  get_playlist_info : Z -> Z -> World -> result value * World
}.

(** [r.get("data", {}).get("playlistV2", {}).get("content", {}).get("items", [])] *)
Definition playlist_items (r : value) : result value :=
  (data <- py_get r (lit "data") (VDict []) ;;
   playlistV2 <- py_get data (lit "playlistV2") (VDict []) ;;
   content <- py_get playlistV2 (lit "content") (VDict []) ;;
   py_get content (lit "items") (VList []))%result.

Definition append_track (t : value) : M World (list value) unit :=
  (tracks <- get_locals ;; set_locals (tracks ++ [t]))%eff.

(** [for entry in items: t = _extract_track_from_item(entry); if t: tracks.append(t)] *)
Definition extend_tracks (items : value) : M World (list value) unit :=
  (entries <- lift (py_iter items) ;;
   for_each entries
     (fun entry =>
        t <- lift (_extract_track_from_item entry) ;;
        if truthy t then append_track t else ret tt))%eff.

(** [for chunk in pl.paginate_playlist(): ...], once the stream exists. *)
Fixpoint paginate_loop (fuel : nat) (pl : PublicPlaylist)
    : M World (list value) unit :=
  match fuel with
  | O => diverge
  | S fuel' =>
    (step <- ext EvPaginateNext (paginate_next pl) ;;
     match step with
     | Some chunk =>
       items <- lift (playlist_items chunk) ;;
       extend_tracks items ;;
       paginate_loop fuel' pl
     | None => ret tt
     end)%eff
  end.

Definition limit : Z := 100.

Inductive loop_control : Type := Break | Next.

(** One round of the [while True] loop of the fallback: its [try]
    statement, telling whether the loop goes on. *)
Definition fallback_round (pl : PublicPlaylist) (offset : Z)
    : M World (list value) loop_control :=
  try_except
    (info <- ext (EvGetPlaylistInfo limit offset)
               (get_playlist_info pl limit offset) ;;
     items <- lift (playlist_items info) ;;
     if negb (truthy items) then ret Break
     else
       extend_tracks items ;;
       n <- lift (py_len items) ;;
       if Z.ltb n limit then ret Break else ret Next)%eff
    (fun _ => ret Break).

(** The [while True] loop, entered with [offset]. *)
Fixpoint fallback_loop (fuel : nat) (pl : PublicPlaylist) (offset : Z)
    : M World (list value) unit :=
  match fuel with
  | O => diverge
  | S fuel' =>
    (c <- fallback_round pl offset ;;
     match c with
     | Break => ret tt
     | Next => fallback_loop fuel' pl (offset + limit)
     end)%eff
  end.

(** The [try] statement of the primary path: [Some tracks] when it
    returns from the function. *)
Definition primary_path (fuel : nat) (pl : PublicPlaylist)
    : M World (list value) (option (list value)) :=
  try_except
    (ext EvPaginate (paginate_playlist pl) ;;
     paginate_loop fuel pl ;;
     tracks <- get_locals ;;
     match tracks with
     | _ :: _ => ret (Some tracks)
     | [] => ret None
     end)%eff
    (fun _ => ret None).

Definition _collect_playlist_tracks (fuel : nat) (pl : PublicPlaylist)
    : M World (list value) (list value) :=
  (set_locals [] ;;
   early <- primary_path fuel pl ;;
   match early with
   | Some tracks => ret tracks
   | None =>
     fallback_loop fuel pl 0 ;;
     get_locals
   end)%eff.

End Collector.

(** ** The environment of the export command *)

Definition bytes := list N.

(** The in-memory edits the program asks of the tagging library. *)
Inductive tag_edit : Type :=
| AddTags                                          (* audio.add_tags() *)
| SetAll (frame : pystr) (encoding : Z) (text : value)
| DelAll (frame : pystr)
| AddAPIC (encoding : Z) (mime : pystr) (type : Z) (desc : pystr) (data : bytes)
| SetItem (key : pystr) (item : value)             (* audio[key] = [item] *)
| SetCover (data : bytes).                         (* audio["covr"] = [MP4Cover(data, FORMAT_JPEG)] *)

Record Args : Type := {
  playlist : pystr;
  output : pystr;
  audio_format : pystr
}.

Section ExportCommand.

Variable World : Type.
(** What the tagging library's constructors return. *)
Variable Obj : Type.

Record Env : Type := {
  py_repr : value -> pystr;
  shutil_which : pystr -> World -> option pystr * World;
  new_PublicPlaylist : pystr -> World -> result (PublicPlaylist World) * World;
  os_makedirs : pystr -> World -> result unit * World;
  write_json : pystr -> value -> World -> result unit * World;
  requests_get : value -> Z -> World -> result (Z * bytes) * World;
  subprocess_run : list pystr -> Z -> World -> result Z * World;
  glob_glob : pystr -> World -> result (list pystr) * World;
  tag_open : tag_format -> pystr -> World -> result Obj * World;
  tags_is_none : Obj -> bool;
  tag_apply : tag_edit -> Obj -> result Obj;
  tag_save : Obj -> option Z -> World -> result unit * World
}.

Variable E : Env.

(** [str(v)], as an f-string formats a value; the text of a list or of a
    dictionary is the interpreter's. *)
Definition py_str (v : value) : pystr :=
  match v with
  | VNone => lit "None"
  | VBool true => lit "True"
  | VBool false => lit "False"
  | VInt z => str_of_Z z
  | VStr s => s
  | _ => py_repr E v
  end.

Definition print {L} (line : pystr) : M World L unit := emit (EvPrint false line).
Definition print_err {L} (line : pystr) : M World L unit := emit (EvPrint true line).

(** *** Cover Fetcher *)

Definition _download_cover {L} (url : value) : M World L (option bytes) :=
  if negb (truthy url) then ret None
  else
    try_except
      (resp <- ext (EvRequestsGet url) (requests_get E url 10) ;;
       if Z.eqb (fst resp) 200 then ret (Some (snd resp)) else ret None)%eff
      (fun _ => ret None).

(** *** Tag Embedder *)

Definition has_bytes (cover_bytes : option bytes) : bool :=
  match cover_bytes with
  | Some (_ :: _) => true
  | _ => false
  end.

Definition cover_data (cover_bytes : option bytes) : bytes :=
  match cover_bytes with
  | Some b => b
  | None => []
  end.

Definition embed_mp3 (file_path : pystr) (title artist album : value)
    (cover_bytes : option bytes) : M World unit unit :=
  (try_except_class ID3NoHeaderError
     (audio <- ext (EvTagOpen FmtMP3 file_path) (tag_open E FmtMP3 file_path) ;;
      audio <- (if tags_is_none E audio then lift (tag_apply E AddTags audio)
                else ret audio) ;;
      ext (EvTagSave file_path) (tag_save E audio None))
     (audio <- ext (EvTagOpen FmtMP3 file_path) (tag_open E FmtMP3 file_path) ;;
      audio <- lift (tag_apply E AddTags audio) ;;
      ext (EvTagSave file_path) (tag_save E audio None)) ;;
   id3 <- ext (EvTagOpen FmtID3 file_path) (tag_open E FmtID3 file_path) ;;
   id3 <- lift (tag_apply E (SetAll (lit "TIT2") 3 title) id3) ;;
   id3 <- lift (tag_apply E (SetAll (lit "TPE1") 3 artist) id3) ;;
   id3 <- lift (tag_apply E (SetAll (lit "TALB") 3 album) id3) ;;
   id3 <- (if has_bytes cover_bytes then
             id3 <- lift (tag_apply E (DelAll (lit "APIC")) id3) ;;
             lift (tag_apply E
                     (AddAPIC 3 (lit "image/jpeg") 3 (lit "Cover")
                              (cover_data cover_bytes)) id3)
           else ret id3) ;;
   ext (EvTagSave file_path) (tag_save E id3 (Some 3%Z)))%eff.

Definition embed_mp4 (file_path : pystr) (title artist album : value)
    (cover_bytes : option bytes) : M World unit unit :=
  (audio <- ext (EvTagOpen FmtMP4 file_path) (tag_open E FmtMP4 file_path) ;;
   audio <- lift (tag_apply E (SetItem (169%N :: lit "nam") title) audio) ;;
   audio <- lift (tag_apply E (SetItem (169%N :: lit "ART") artist) audio) ;;
   audio <- lift (tag_apply E (SetItem (169%N :: lit "alb") album) audio) ;;
   audio <- (if has_bytes cover_bytes then
               lift (tag_apply E (SetCover (cover_data cover_bytes)) audio)
             else ret audio) ;;
   ext (EvTagSave file_path) (tag_save E audio None))%eff.

(** The two Ogg branches differ in the constructor only. *)
Definition embed_ogg (fmt : tag_format) (file_path : pystr)
    (title artist album : value) : M World unit unit :=
  (audio <- ext (EvTagOpen fmt file_path) (tag_open E fmt file_path) ;;
   audio <- lift (tag_apply E (SetItem (lit "title") title) audio) ;;
   audio <- lift (tag_apply E (SetItem (lit "artist") artist) audio) ;;
   audio <- lift (tag_apply E (SetItem (lit "album") album) audio) ;;
   ext (EvTagSave file_path) (tag_save E audio None))%eff.

Definition ext_in (ext : pystr) (family : list pystr) : bool :=
  existsb (pystr_eqb ext) family.

Definition _embed_tags (file_path : pystr) (track : value)
    (cover_bytes : option bytes) : M World unit unit :=
  let ext := py_lower (snd (splitext file_path)) in
  (name <- lift (py_get track (lit "name") VNone) ;;
   let title := py_or name (VStr []) in
   artists <- lift (py_get track (lit "artists") VNone) ;;
   let artist := py_or artists (VStr []) in
   album_raw <- lift (py_get track (lit "album") VNone) ;;
   let album := py_or album_raw (VStr []) in
   if pystr_eqb ext (lit ".mp3") then
     embed_mp3 file_path title artist album cover_bytes
   else if ext_in ext [lit ".m4a"; lit ".mp4"; lit ".aac"] then
     embed_mp4 file_path title artist album cover_bytes
   else if ext_in ext [lit ".opus"] then
     embed_ogg FmtOggOpus file_path title artist album
   else if ext_in ext [lit ".ogg"] then
     embed_ogg FmtOggVorbis file_path title artist album
   else ret tt)%eff.

(** *** Acquisition Orchestrator *)

(** A failed track: [(name, artists, reason)]. *)
Definition failure : Type := (value * value * pystr)%type.

Definition failure_record (f : failure) : value :=
  let '(n, a, r) := f in
  VDict [ (lit "name", n); (lit "artists", a); (lit "reason", VStr r) ].

Definition warning_sign : pystr := lit "  " ++ [9888%N] ++ lit " ".

Definition query_of (name artists : value) : pystr :=
  py_strip (py_str name ++ lit " " ++ py_str artists).

Definition safe_name_of (idx : N) (name : value) : pystr :=
  firstn 100 (remove_illegal (format_03d idx ++ lit "_" ++ py_str name)).

Definition out_file_of (out_dir : pystr) (idx : N) (name : value) : pystr :=
  path_join out_dir (safe_name_of idx name ++ lit ".%(ext)s").

Definition cmd_of (args : Args) (out_file query : pystr) : list pystr :=
  [ lit "yt-dlp";
    lit "-f"; lit "bestaudio/best";
    lit "--extract-audio";
    lit "--audio-format"; audio_format args;
    lit "--audio-quality"; lit "192";
    lit "-o"; out_file;
    lit "ytsearch:" ++ query ].

Definition pattern_of (out_file : pystr) : pystr :=
  py_replace (lit "%(ext)s") (lit "*") out_file.

Definition record_failure (f : failure) : M World (list failure) unit :=
  (failed <- get_locals ;; set_locals (failed ++ [f]))%eff.

(** The body of the download loop for one track. *)
Definition download_track (args : Args) (out_dir : pystr) (total : nat)
    (idx : N) (track : value) : M World (list failure) unit :=
  (name <- lift (py_get track (lit "name") VNone) ;;
   artists <- lift (py_get track (lit "artists") VNone) ;;
   let query := query_of name artists in
   cover_url <- lift (py_get track (lit "cover_url") VNone) ;;
   cover_bytes <- _download_cover cover_url ;;
   let out_file := out_file_of out_dir idx name in
   print (lit "[" ++ str_of_N idx ++ lit "/" ++ str_of_N (N.of_nat total)
            ++ lit "] Downloading: " ++ query) ;;
   try_except
     (let cmd := cmd_of args out_file query in
      returncode <- ext (EvSubprocessRun cmd) (subprocess_run E cmd 60) ;;
      if negb (Z.eqb returncode 0) then
        print_err (warning_sign ++ lit "Failed: " ++ query) ;;
        record_failure (name, artists, lit "yt-dlp error")
      else
        let pattern := pattern_of out_file in
        candidates <- ext (EvGlob pattern) (glob_glob E pattern) ;;
        match candidates with
        | [] => record_failure (name, artists, lit "file not found after download")
        | target_file :: _ =>
          try_except
            (call tt (_embed_tags target_file track cover_bytes))
            (fun e =>
               print_err (warning_sign ++ lit "Tagging failed for "
                            ++ target_file ++ lit ": " ++ exn_msg e))
        end)
     (fun e =>
        print_err (warning_sign ++ lit "Error: " ++ exn_msg e) ;;
        record_failure (name, artists, exn_msg e)))%eff.

(** [enumerate(tracks, start)] *)
Fixpoint enumerate (start : N) (tracks : list value) : list (N * value) :=
  match tracks with
  | [] => []
  | t :: rest => (start, t) :: enumerate (start + 1) rest
  end.

(** The command once the tracks are collected: output directory,
    metadata, the download loop, summary and failure report. *)
Definition export_tracks (args : Args) (tracks : list value)
    : M World (list failure) Z :=
  (let out_dir := output args in
   ext (EvMakedirs out_dir) (os_makedirs E out_dir) ;;
   let meta_file := path_join out_dir (lit "metadata.json") in
   ext (EvWriteJson meta_file (VList tracks))
       (write_json E meta_file (VList tracks)) ;;
   print (lit "Metadata saved to " ++ meta_file) ;;
   set_locals [] ;;
   for_each (enumerate 1 tracks)
     (fun it => download_track args out_dir (length tracks) (fst it) (snd it)) ;;
   failed <- get_locals ;;
   print ([10%N] ++ lit "Download complete. "
            ++ str_of_Z (Z.of_nat (length tracks) - Z.of_nat (length failed))
            ++ lit "/" ++ str_of_N (N.of_nat (length tracks))
            ++ lit " succeeded.") ;;
   match failed with
   | _ :: _ =>
     let fail_file := path_join out_dir (lit "failed.json") in
     ext (EvWriteJson fail_file (VList (map failure_record failed)))
         (write_json E fail_file (VList (map failure_record failed))) ;;
     print (lit "Failed tracks: " ++ fail_file)
   | [] => ret tt
   end ;;
   ret 0%Z)%eff.

Definition cmd_export_playlist_with_audio (fuel : nat) (args : Args)
    : M World (list failure) Z :=
  (found <- ext_total (EvWhich (lit "yt-dlp")) (shutil_which E (lit "yt-dlp")) ;;
   match found with
   | None =>
     print_err (lit "yt-dlp not found. Install it: pip install yt-dlp") ;;
     ret 2%Z
   | Some _ =>
     pl <- ext (EvPublicPlaylist (playlist args))
               (new_PublicPlaylist E (playlist args)) ;;
     tracks <- call [] (_collect_playlist_tracks fuel pl) ;;
     match tracks with
     | [] =>
       print_err (lit "No tracks found or playlist inaccessible.") ;;
       ret 2%Z
     | _ :: _ => export_tracks args tracks
     end
   end)%eff.

End ExportCommand.

(** ** Scenarios

    What the outside delivers in a run is described by relations on the
    environment; the tracks a sequence of raw entries gives rise to are
    described by [extracted]. *)

(** The records appended for [entries], in order, up to the first entry
    on which the extractor raises. *)
Fixpoint extracted (entries : list value) : list value :=
  match entries with
  | [] => []
  | entry :: rest =>
    match _extract_track_from_item entry with
    | Ok t => if truthy t then t :: extracted rest else extracted rest
    | Raise _ => []
    end
  end.

(** The exception of that first entry, if there is one. *)
Fixpoint extract_error (entries : list value) : option exn :=
  match entries with
  | [] => None
  | entry :: rest =>
    match _extract_track_from_item entry with
    | Ok _ => extract_error rest
    | Raise e => Some e
    end
  end.

(** An entry carries a track payload: the extractor returns a record. *)
Definition carries_payload (entry : value) : Prop :=
  exists t, _extract_track_from_item entry = Ok t /\ truthy t = true.

Section Scenarios.

Variable World : Type.
Variable pl : PublicPlaylist World.

(** The entries a response lists. *)
Definition response_entries (r : value) : result (list value) :=
  (items <- playlist_items r ;; py_iter items)%result.

(** From world [w] the stream yields [chunks], one after the other,
    and the world is [w'] then. *)
Fixpoint stream_yields (w : World) (chunks : list value) (w' : World) : Prop :=
  match chunks with
  | [] => w' = w
  | chunk :: rest =>
    exists w1, paginate_next pl w = (Ok (Some chunk), w1)
               /\ stream_yields w1 rest w'
  end.

(** The primary path completes: the stream is created, yields [chunks]
    and is exhausted. *)
Definition primary_completes (w : World) (chunks : list value) (w' : World) : Prop :=
  exists w1 w2,
    paginate_playlist pl w = (Ok tt, w1)
    /\ stream_yields w1 chunks w2
    /\ paginate_next pl w2 = (Ok None, w').

(** The primary path raises [e]: either the call that creates the
    stream does, or the stream does after it has yielded [chunks]. *)
Definition primary_raises (w : World) (chunks : list value) (e : exn)
    (w' : World) : Prop :=
  (chunks = [] /\ paginate_playlist pl w = (Raise e, w'))
  \/ (exists w1 w2,
        paginate_playlist pl w = (Ok tt, w1)
        /\ stream_yields w1 chunks w2
        /\ paginate_next pl w2 = (Raise e, w')).

(** The calls the primary path makes in either case. *)
Definition primary_events (w : World) (chunks : list value) : list event :=
  match paginate_playlist pl w with
  | (Ok _, _) => EvPaginate :: repeat EvPaginateNext (S (length chunks))
  | (Raise _, _) => [EvPaginate]
  end.

(** From world [w] the offset/limit call answers the requests at
    [offset], [offset + 100], ... with responses listing [batches]. *)
Fixpoint fallback_serves (w : World) (offset : Z) (batches : list (list value))
    (w' : World) : Prop :=
  match batches with
  | [] => w' = w
  | b :: rest =>
    exists info w1,
      get_playlist_info pl limit offset w = (Ok info, w1)
      /\ playlist_items info = Ok (VList b)
      /\ fallback_serves w1 (offset + limit) rest w'
  end.

(** The requests of the fallback for [n] batches from [offset] on. *)
Fixpoint fallback_events (offset : Z) (n : nat) : list event :=
  match n with
  | O => []
  | S n' => EvGetPlaylistInfo limit offset :: fallback_events (offset + limit) n'
  end.

End Scenarios.

Definition is_fallback_request (ev : event) : bool :=
  match ev with
  | EvGetPlaylistInfo _ _ => true
  | _ => false
  end.

(** What a round of the fallback does with the answer to its request:
    whether the loop goes on, and the records the round appends. *)
Definition round_result (r : result value) : loop_control * list value :=
  match r with
  | Raise _ => (Break, [])
  | Ok info =>
    match playlist_items info with
    | Raise _ => (Break, [])
    | Ok items =>
      if negb (truthy items) then (Break, [])
      else
        match py_iter items with
        | Raise _ => (Break, [])
        | Ok entries =>
          match extract_error entries, py_len items with
          | None, Ok n => (if Z.ltb n limit then Break else Next, extracted entries)
          | _, _ => (Break, extracted entries)
          end
        end
    end
  end.

(** ** Invariants of computations *)

(** [m] keeps the property [I] of the state, however it ends. *)
Definition preserves {World L A} (I : state World L -> Prop) (m : M World L A) : Prop :=
  forall s, I s -> I (snd (m s)).

(** [m] only adds to the trace, and only events that satisfy [Q]. *)
Definition emits {World L A} (Q : event -> Prop) (m : M World L A) : Prop :=
  forall s, exists evs, trace (snd (m s)) = trace s ++ evs /\ Forall Q evs.

(** [m] does not run for ever. *)
Definition total {World L A} (m : M World L A) : Prop :=
  forall s, fst (m s) <> Diverge.

(** The item carries no track payload: it is an object whose [itemV2]
    is missing, or is an object whose [data] is missing or empty. *)
Definition no_track_payload (item : value) : Prop :=
  exists d, item = VDict d /\
    match lookup (lit "itemV2") d with
    | None => True
    | Some (VDict d2) =>
      match lookup (lit "data") d2 with
      | None => True
      | Some data => truthy data = false
      end
    | Some _ => False
    end.

(** Every field of the record is [None] or the empty string. *)
Definition all_fields_empty (t : value) : bool :=
  match t with
  | VDict d =>
    forallb (fun kv => match snd kv with
                       | VNone => true
                       | VStr [] => true
                       | _ => false
                       end) d
  | _ => false
  end.

(** The record of a track whose payload is not empty. *)
Definition is_track_record (t : value) : Prop :=
  exists name artists album uri id duration_ms cover_url,
    t = VDict [ (lit "name", name);
                (lit "artists", VStr artists);
                (lit "album", album);
                (lit "uri", uri);
                (lit "id", id);
                (lit "duration_ms", duration_ms);
                (lit "cover_url", cover_url) ].

(** A catalog whose stream yields one chunk with one entry, of a track
    that is not available: its payload holds a type tag only. *)
Definition unavailable_entry : value :=
  VDict [ (lit "itemV2",
           VDict [ (lit "data",
                    VDict [ (lit "__typename", VStr (lit "NotFound")) ]) ]) ].

Definition response_of (entries : list value) : value :=
  VDict [ (lit "data",
           VDict [ (lit "playlistV2",
                    VDict [ (lit "content",
                             VDict [ (lit "items", VList entries) ]) ]) ]) ].

Definition some_error : exn := Exn OtherError (lit "connection reset").

(** The world counts the chunks asked for. *)
Definition one_chunk_playlist (entries : list value) : PublicPlaylist nat :=
  {| paginate_playlist := fun w => (Ok tt, w);
     paginate_next := fun w =>
       (if Nat.eqb w 0 then Ok (Some (response_of entries)) else Ok None, S w);
     get_playlist_info := fun _ _ w => (Raise some_error, w) |}.

(** What the collector appends: a non-empty result of the extractor. *)
Definition emitted_ok (t : value) : Prop :=
  truthy t = true /\ exists entry, _extract_track_from_item entry = Ok t.

Definition tracks_ok {World} (s : state World (list value)) : Prop :=
  Forall emitted_ok (locals s).

(** ** File names and tag families *)

(** The largest length of a list, [sys.maxsize], hence the largest index
    [enumerate] counts to. *)
Definition PY_SSIZE_T_MAX : N := 9223372036854775807.

Definition is_digit (c : N) : Prop := (48 <= c <= 57)%N.

Definition supported_extensions : list pystr :=
  [ lit ".mp3"; lit ".m4a"; lit ".mp4"; lit ".aac"; lit ".opus"; lit ".ogg" ].

(** The families of formats the embedder knows. *)
Inductive tag_family : Type :=
| FamilyID3 | FamilyMP4 | FamilyOggOpus | FamilyOggVorbis | Unsupported.

(** Equality of two strings up to the case of their letters. *)
Fixpoint caseless_eqb (a b : pystr) : bool :=
  match a, b with
  | [], [] => true
  | x :: a', y :: b' => N.eqb (lower_char x) (lower_char y) && caseless_eqb a' b'
  | _, _ => false
  end.

(** The family of an extension, whatever the case of its letters. *)
Definition family_of_extension (ext : pystr) : tag_family :=
  if caseless_eqb ext (lit ".mp3") then FamilyID3
  else if caseless_eqb ext (lit ".m4a") || caseless_eqb ext (lit ".mp4")
          || caseless_eqb ext (lit ".aac") then FamilyMP4
  else if caseless_eqb ext (lit ".opus") then FamilyOggOpus
  else if caseless_eqb ext (lit ".ogg") then FamilyOggVorbis
  else Unsupported.

Section Dispatch.

Variable World : Type.
Variable Obj : Type.
Variable E : Env World Obj.

(** The handler of a family. *)
Definition embed_family (family : tag_family) (file_path : pystr)
    (title artist album : value) (cover_bytes : option bytes)
    : M World unit unit :=
  match family with
  | FamilyID3 => embed_mp3 E file_path title artist album cover_bytes
  | FamilyMP4 => embed_mp4 E file_path title artist album cover_bytes
  | FamilyOggOpus => embed_ogg E FmtOggOpus file_path title artist album
  | FamilyOggVorbis => embed_ogg E FmtOggVorbis file_path title artist album
  | Unsupported => ret tt
  end.

(** The embedder as a dispatch on the family of the extension. *)
Definition embed_by_family (file_path : pystr) (track : value)
    (cover_bytes : option bytes) : M World unit unit :=
  (name <- lift (py_get track (lit "name") VNone) ;;
   artists <- lift (py_get track (lit "artists") VNone) ;;
   album <- lift (py_get track (lit "album") VNone) ;;
   embed_family (family_of_extension (snd (splitext file_path))) file_path
     (py_or name (VStr [])) (py_or artists (VStr [])) (py_or album (VStr []))
     cover_bytes)%eff.

End Dispatch.

(** ** Observing the export command *)

(** A download is attempted: the cover of a track is fetched or the tool
    is run. *)
Definition is_download (ev : event) : bool :=
  match ev with
  | EvSubprocessRun _ | EvRequestsGet _ => true
  | _ => false
  end.

Definition is_json_write (ev : event) : bool :=
  match ev with
  | EvWriteJson _ _ => true
  | _ => false
  end.

(** What the download loop may do. *)
Definition loop_event (ev : event) : Prop := is_json_write ev = false.

(** What happens before the export starts. *)
Definition prelude_event (ev : event) : Prop :=
  is_json_write ev = false /\ is_download ev = false.

Definition meta_file_of (args : Args) : pystr :=
  path_join (output args) (lit "metadata.json").

Definition fail_file_of (args : Args) : pystr :=
  path_join (output args) (lit "failed.json").

(** The call always returns, with a result that satisfies [P]. *)
Definition always_returns {World A} (f : World -> result A * World)
    (P : A -> Prop) : Prop :=
  forall w, exists a w', f w = (Ok a, w') /\ P a.

(** [track.get(k)] for a track record. *)
Definition field_of (track : value) (k : string) : value :=
  match py_get track (lit k) VNone with
  | Ok v => v
  | Raise _ => VNone
  end.

Section TrackCommands.

Variable World : Type.
Variable Obj : Type.
Variable E : Env World Obj.

(** The command line and the pattern of the [idx]-th track. *)
Definition track_cmd (args : Args) (idx : N) (track : value) : list pystr :=
  cmd_of args
    (out_file_of E (output args) idx (field_of track "name"))
    (query_of E (field_of track "name") (field_of track "artists")).

Definition track_pattern (args : Args) (idx : N) (track : value) : pystr :=
  pattern_of (out_file_of E (output args) idx (field_of track "name")).

End TrackCommands.

(** The reasons listed in the failure reports written to [path]. *)
Definition reported_reasons (path : pystr) (tr : list event) : list value :=
  flat_map
    (fun ev =>
       match ev with
       | EvWriteJson p (VList records) =>
         if pystr_eqb p path then
           map (fun r => match py_get r (lit "reason") VNone with
                         | Ok v => v
                         | Raise _ => VNone
                         end) records
         else []
       | _ => []
       end) tr.

(** What a run of the export shows: the trace it adds, with the metadata
    before any download, and the failure report of a run that returns. *)
Definition export_shown (args : Args) (tracks : list value)
    (r : outcome Z) (failed : list failure) (evs : list event) : Prop :=
  (forall pre ev post,
      evs = pre ++ ev :: post -> is_download ev = true ->
      In (EvWriteJson (meta_file_of args) (VList tracks)) pre)
  /\ (forall z, r = Return z ->
        ((exists content, In (EvWriteJson (fail_file_of args) content) evs)
         <-> failed <> [])
        /\ (forall content,
              In (EvWriteJson (fail_file_of args) content) evs ->
              content = VList (map failure_record failed))).

(** ** Concrete catalogs and environments *)

(** A raw entry with a name and one artist. *)
Definition entry_of (name artist : string) : value :=
  VDict
    [ (lit "itemV2",
       VDict
         [ (lit "data",
            VDict
              [ (lit "name", VStr (lit name));
                (lit "uri", VStr (lit "spotify:track:" ++ lit name));
                (lit "artists",
                 VDict
                   [ (lit "items",
                      VList
                        [ VDict
                            [ (lit "profile",
                               VDict [ (lit "name", VStr (lit artist)) ]) ] ]) ]) ]) ]) ].

(** The [n]-th entry of a long playlist. *)
Definition numbered_entry (n : nat) : value :=
  VDict
    [ (lit "itemV2",
       VDict
         [ (lit "data",
            VDict [ (lit "name", VStr (lit "track " ++ str_of_N (N.of_nat n))) ]) ]) ].

Definition has_payload (entry : value) : bool :=
  match _extract_track_from_item entry with
  | Ok t => truthy t
  | Raise _ => false
  end.

(** A playlist of 340 entries whose stream cannot be created: the
    offset/limit call lists the entries from [offset] on, 100 at most. *)
Definition long_playlist : PublicPlaylist unit :=
  {| paginate_playlist := fun w => (Raise some_error, w);
     paginate_next := fun w => (Raise some_error, w);
     get_playlist_info := fun limit offset w =>
       (Ok (response_of
              (map numbered_entry
                 (seq (Z.to_nat offset)
                      (Nat.min (Z.to_nat limit) (340 - Z.to_nat offset))))), w) |}.

Definition batch_at (offset : nat) (n : nat) : list value :=
  map numbered_entry (seq offset n).

(** A stream that yields one chunk of two entries and then raises; the
    offset/limit call lists these two entries and a third one. *)
Definition flaky_playlist : PublicPlaylist nat :=
  {| paginate_playlist := fun w => (Ok tt, w);
     paginate_next := fun w =>
       (if Nat.eqb w 0
        then Ok (Some (response_of [entry_of "a" "A"; entry_of "b" "B"]))
        else Raise some_error, S w);
     get_playlist_info := fun _ _ w =>
       (Ok (response_of [entry_of "a" "A"; entry_of "b" "B"; entry_of "c" "C"]), w) |}.

(** The same stream, with an offset/limit call that raises. *)
Definition failing_playlist : PublicPlaylist nat :=
  {| paginate_playlist := fun w => (Ok tt, w);
     paginate_next := fun w =>
       (if Nat.eqb w 0
        then Ok (Some (response_of [entry_of "a" "A"; entry_of "b" "B"]))
        else Raise some_error, S w);
     get_playlist_info := fun _ _ w => (Raise some_error, w) |}.

(** A playlist of five tracks, listed by the offset/limit call. *)
Definition five_entries : list value :=
  [ entry_of "a" "A"; entry_of "b" "B"; entry_of "c" "C";
    entry_of "d" "D"; entry_of "e" "E" ].

Definition five_playlist : PublicPlaylist unit :=
  {| paginate_playlist := fun w => (Raise some_error, w);
     paginate_next := fun w => (Raise some_error, w);
     get_playlist_info := fun _ _ w => (Ok (response_of five_entries), w) |}.

Definition five_tracks : list value := extracted five_entries.

Definition five_args : Args :=
  {| playlist := lit "37i9dQZF1DXcBWIGoYBM5M";
     output := lit "out";
     audio_format := lit "mp3" |}.

(** An environment in which the tool exits with code 1 when it is asked
    for the track [c] and with code 0 otherwise, and leaves an [mp3] file
    where the pattern looks for it. *)
Definition five_env : Env unit unit :=
  {| py_repr := fun _ => lit "?";
     shutil_which := fun _ w => (Some (lit "/usr/bin/yt-dlp"), w);
     new_PublicPlaylist := fun _ w => (Ok five_playlist, w);
     os_makedirs := fun _ w => (Ok tt, w);
     write_json := fun _ _ w => (Ok tt, w);
     requests_get := fun _ _ w => (Ok (404%Z, []), w);
     subprocess_run := fun cmd _ w =>
       (Ok (if pystr_eqb (nth 10 cmd []) (lit "ytsearch:c C") then 1%Z else 0%Z), w);
     glob_glob := fun pattern w =>
       (Ok [py_replace (lit "*") (lit "mp3") pattern], w);
     tag_open := fun _ _ w => (Ok tt, w);
     tags_is_none := fun _ => false;
     tag_apply := fun _ o => Ok o;
     tag_save := fun _ _ w => (Ok tt, w) |}.

Definition five_run : outcome Z * state unit (list failure) :=
  cmd_export_playlist_with_audio five_env 1 five_args (State [] tt []).

(** ** Track identifiers *)

(** [[A-Za-z0-9]{10,}] at the start of [s]: the whole alphanumeric run,
    when it has ten characters or more. *)
Definition id_run (s : pystr) : option pystr :=
  let run := take_while is_alnum s in
  if Nat.leb 10 (length run) then Some run else None.

(** The pattern of [parse_track_id] at the start of [s], group 1: the
    optional prefix is tried in its two forms, then left out. *)
Definition match_id_at (s : pystr) : option pystr :=
  match
    match strip_prefix (lit "spotify:track:") s with
    | Some rest => id_run rest
    | None => None
    end
  with
  | Some g => Some g
  | None =>
    match
      match strip_prefix (lit "open.spotify.com/track/") s with
      | Some rest => id_run rest
      | None => None
      end
    with
    | Some g => Some g
    | None => id_run s
    end
  end.

(** [re.search] of that pattern: the leftmost position where it matches. *)
Fixpoint search_id (s : pystr) : option pystr :=
  match s with
  | [] => None
  | _ :: s' =>
    match match_id_at s with
    | Some g => Some g
    | None => search_id s'
    end
  end.

Definition parse_track_id (s : pystr) : pystr :=
  match search_id s with
  | Some g => g
  | None => s
  end.

(** [rest] is empty or begins with a character that is not alphanumeric. *)
Definition not_alnum_start (rest : pystr) : Prop :=
  match rest with
  | [] => True
  | c :: _ => is_alnum c = false
  end.

Definition all_alnum (s : pystr) : Prop := Forall (fun c => is_alnum c = true) s.

(** The suffixes of a string, the string itself first. *)
Fixpoint tails (s : pystr) : list pystr :=
  s :: match s with
       | [] => []
       | _ :: s' => tails s'
       end.

(** At no position of [s] does a run of ten alphanumeric characters begin. *)
Definition no_id_run (s : pystr) : bool :=
  forallb (fun suffix => Nat.ltb (length (take_while is_alnum suffix)) 10) (tails s).

(** ** Fields of a track record *)

(** The item is an object whose [itemV2.data] is the object [d]. *)
Definition has_payload_dict (item : value) (d : list (pystr * value)) : Prop :=
  exists di d2,
    item = VDict di
    /\ lookup (lit "itemV2") di = Some (VDict d2)
    /\ lookup (lit "data") d2 = Some (VDict d).

(** The display name of an artist entry: the name of its profile, when
    it has a profile. *)
Definition display_name (a : value) : option pystr :=
  match a with
  | VDict da =>
    match lookup (lit "profile") da with
    | Some (VDict ((_ :: _) as dp)) =>
      match lookup (lit "name") dp with
      | Some (VStr n) => Some n
      | _ => None
      end
    | _ => None
    end
  | _ => None
  end.

(** An artist entry as the catalog sends it: an object whose profile is
    missing or empty, or is an object with a string as its name. *)
Definition artist_ok (a : value) : bool :=
  match a with
  | VDict da =>
    match lookup (lit "profile") da with
    | None => true
    | Some p =>
      negb (truthy p)
      || match p with
         | VDict dp =>
           match lookup (lit "name") dp with
           | Some (VStr _) => true
           | _ => false
           end
         | _ => false
         end
    end
  | _ => false
  end.

(** The strings of [l] with [sep] between them. *)
Fixpoint intercalate (sep : pystr) (l : list pystr) : pystr :=
  match l with
  | [] => []
  | [s] => s
  | s :: rest => s ++ sep ++ intercalate sep rest
  end.

Definition shown_names (artists_items : list value) : list pystr :=
  flat_map (fun a => match display_name a with
                     | Some n => [n]
                     | None => []
                     end) artists_items.

(** The payload of a track with an album without display name, two cover
    sources and three artist entries, the second without profile. *)
Definition full_payload : list (pystr * value) :=
  [ (lit "name", VStr (lit "Song"));
    (lit "uri", VStr (lit "spotify:track:" ++ lit "4uLU6hMCjM" ++ lit "?si=1"));
    (lit "albumOfTrack",
     VDict
       [ (lit "__typename", VStr (lit "Album"));
         (lit "coverArt",
          VDict
            [ (lit "sources",
               VList [ VDict [ (lit "url", VStr (lit "https://i.scdn.co/1")) ];
                       VDict [ (lit "url", VStr (lit "https://i.scdn.co/2")) ] ]) ]) ]);
    (lit "artists",
     VDict
       [ (lit "items",
          VList
            [ VDict [ (lit "profile", VDict [ (lit "name", VStr (lit "A")) ]) ];
              VDict [ (lit "uri", VStr (lit "spotify:artist:x")) ];
              VDict [ (lit "profile", VDict [ (lit "name", VStr (lit "B")) ]) ] ]) ]);
    (lit "duration", VDict [ (lit "totalMilliseconds", VInt 215000) ]) ].

Definition full_entry : value :=
  VDict [ (lit "itemV2", VDict [ (lit "data", VDict full_payload) ]) ].

Definition full_record : value :=
  VDict [ (lit "name", VStr (lit "Song"));
          (lit "artists", VStr (lit "A, B"));
          (lit "album", VStr (lit "Album"));
          (lit "uri", VStr (lit "spotify:track:4uLU6hMCjM?si=1"));
          (lit "id", VStr (lit "4uLU6hMCjM"));
          (lit "duration_ms", VInt 215000);
          (lit "cover_url", VStr (lit "https://i.scdn.co/1")) ].

(** A catalog that answers every request with the same hundred entries,
    whatever the offset. *)
Definition endless_playlist : PublicPlaylist unit :=
  {| paginate_playlist := fun w => (Raise some_error, w);
     paginate_next := fun w => (Raise some_error, w);
     get_playlist_info := fun _ _ w => (Ok (response_of (batch_at 0 100)), w) |}.

(** Every request is answered with a full batch of entries the extractor
    accepts. *)
Definition always_full {World} (pl : PublicPlaylist World) : Prop :=
  forall offset w, exists info w' b,
    get_playlist_info pl limit offset w = (Ok info, w')
    /\ playlist_items info = Ok (VList b)
    /\ length b = 100
    /\ extract_error b = None.

(** An environment whose tagging library finds no ID3 header when it
    opens an [mp3] file. *)
Definition headerless_env : Env unit unit :=
  {| py_repr := fun _ => lit "?";
     shutil_which := fun _ w => (Some (lit "/usr/bin/yt-dlp"), w);
     new_PublicPlaylist := fun _ w => (Ok five_playlist, w);
     os_makedirs := fun _ w => (Ok tt, w);
     write_json := fun _ _ w => (Ok tt, w);
     requests_get := fun _ _ w => (Ok (200%Z, [255%N; 216%N]), w);
     subprocess_run := fun _ _ w => (Ok 0%Z, w);
     glob_glob := fun pattern w =>
       (Ok [py_replace (lit "*") (lit "mp3") pattern], w);
     tag_open := fun fmt _ w =>
       (match fmt with
        | FmtMP3 => Raise (Exn ID3NoHeaderError (lit "file does not start with an ID3 tag"))
        | _ => Ok tt
        end, w);
     tags_is_none := fun _ => true;
     tag_apply := fun _ o => Ok o;
     tag_save := fun _ _ w => (Ok tt, w) |}.

(** The call always raises [e]. *)
Definition always_raises {World A} (f : World -> result A * World) (e : exn) : Prop :=
  forall w, exists w', f w = (Raise e, w').

(** An environment in which the tool is killed after its time limit. *)
Definition timeout_env : Env unit unit :=
  {| py_repr := fun _ => lit "?";
     shutil_which := fun _ w => (Some (lit "/usr/bin/yt-dlp"), w);
     new_PublicPlaylist := fun _ w => (Ok five_playlist, w);
     os_makedirs := fun _ w => (Ok tt, w);
     write_json := fun _ _ w => (Ok tt, w);
     requests_get := fun _ _ w => (Raise some_error, w);
     subprocess_run := fun _ _ w =>
       (Raise (Exn OtherError (lit "Command timed out after 60 seconds")), w);
     glob_glob := fun _ w => (Ok [], w);
     tag_open := fun _ _ w => (Raise some_error, w);
     tags_is_none := fun _ => false;
     tag_apply := fun _ o => Ok o;
     tag_save := fun _ _ w => (Ok tt, w) |}.

(** An environment in which the tool exits with 0 and leaves no file. *)
Definition no_file_env : Env unit unit :=
  {| py_repr := fun _ => lit "?";
     shutil_which := fun _ w => (Some (lit "/usr/bin/yt-dlp"), w);
     new_PublicPlaylist := fun _ w => (Ok five_playlist, w);
     os_makedirs := fun _ w => (Ok tt, w);
     write_json := fun _ _ w => (Ok tt, w);
     requests_get := fun _ _ w => (Raise some_error, w);
     subprocess_run := fun _ _ w => (Ok 0%Z, w);
     glob_glob := fun _ w => (Ok [], w);
     tag_open := fun _ _ w => (Raise some_error, w);
     tags_is_none := fun _ => false;
     tag_apply := fun _ o => Ok o;
     tag_save := fun _ _ w => (Ok tt, w) |}.

(** An environment in which every download works and the tagging library
    refuses every file. *)
Definition untaggable_env : Env unit unit :=
  {| py_repr := fun _ => lit "?";
     shutil_which := fun _ w => (Some (lit "/usr/bin/yt-dlp"), w);
     new_PublicPlaylist := fun _ w => (Ok five_playlist, w);
     os_makedirs := fun _ w => (Ok tt, w);
     write_json := fun _ _ w => (Ok tt, w);
     requests_get := fun _ _ w => (Raise some_error, w);
     subprocess_run := fun _ _ w => (Ok 0%Z, w);
     glob_glob := fun pattern w =>
       (Ok [py_replace (lit "*") (lit "mp3") pattern], w);
     tag_open := fun _ _ w => (Raise some_error, w);
     tags_is_none := fun _ => false;
     tag_apply := fun _ o => Ok o;
     tag_save := fun _ _ w => (Ok tt, w) |}.

(** ** Exit status *)

(** [l1] is [l2] with some elements left out. *)
Inductive subsequence {A : Type} : list A -> list A -> Prop :=
| subsequence_nil : subsequence [] []
| subsequence_skip (x : A) (l1 l2 : list A) :
    subsequence l1 l2 -> subsequence l1 (x :: l2)
| subsequence_take (x : A) (l1 l2 : list A) :
    subsequence l1 l2 -> subsequence (x :: l1) (x :: l2).

(** The name and the artists a failure is recorded under, and those of a
    track. *)
Definition failure_key (f : failure) : value * value := fst f.

Definition track_key (t : value) : value * value :=
  (field_of t "name", field_of t "artists").

(** A call to the catalog. *)
Definition catalog_call (ev : event) : Prop :=
  match ev with
  | EvPaginate | EvPaginateNext | EvGetPlaylistInfo _ _ => True
  | _ => False
  end.

(** What the export command does before it creates anything: it looks
    for the tool, opens the playlist, reads the catalog and prints. *)
Definition setup_event (ev : event) : Prop :=
  match ev with
  | EvWhich _ | EvPublicPlaylist _ | EvPrint _ _ => True
  | _ => catalog_call ev
  end.

(** [m] returns only results that satisfy [P]. *)
Definition returns_only {World L A} (P : A -> Prop) (m : M World L A) : Prop :=
  forall s a s', m s = (Return a, s') -> P a.

(** [main], once the arguments are parsed: [func] is the command the
    parser selected, applied to the arguments. *)
Definition main {World L} (func : M World L Z) : M World L Z :=
  try_except func
    (fun e => (emit (EvPrint true (lit "Error: " ++ exn_msg e)) ;; ret 1%Z)%eff).

(** An environment without the download tool. *)
Definition no_tool_env : Env unit unit :=
  {| py_repr := fun _ => lit "?";
     shutil_which := fun _ w => (None, w);
     new_PublicPlaylist := fun _ w => (Ok five_playlist, w);
     os_makedirs := fun _ w => (Ok tt, w);
     write_json := fun _ _ w => (Ok tt, w);
     requests_get := fun _ _ w => (Raise some_error, w);
     subprocess_run := fun _ _ w => (Ok 0%Z, w);
     glob_glob := fun _ w => (Ok [], w);
     tag_open := fun _ _ w => (Raise some_error, w);
     tags_is_none := fun _ => false;
     tag_apply := fun _ o => Ok o;
     tag_save := fun _ _ w => (Ok tt, w) |}.

(** An environment in which the playlist cannot be opened. *)
Definition no_playlist_env : Env unit unit :=
  {| py_repr := fun _ => lit "?";
     shutil_which := fun _ w => (Some (lit "/usr/bin/yt-dlp"), w);
     new_PublicPlaylist := fun _ w => (Raise some_error, w);
     os_makedirs := fun _ w => (Ok tt, w);
     write_json := fun _ _ w => (Ok tt, w);
     requests_get := fun _ _ w => (Raise some_error, w);
     subprocess_run := fun _ _ w => (Ok 0%Z, w);
     glob_glob := fun _ w => (Ok [], w);
     tag_open := fun _ _ w => (Raise some_error, w);
     tags_is_none := fun _ => false;
     tag_apply := fun _ o => Ok o;
     tag_save := fun _ _ w => (Ok tt, w) |}.

(** The number a string of decimal digits stands for. *)
Definition decimal_value (s : pystr) : N :=
  fold_left (fun acc c => acc * 10 + (c - 48))%N s 0%N.

(** ** The export of a playlist to a file *)

Section ExportFile.

Variable World : Type.
Variable Obj : Type.
Variable E : Env World Obj.

(** [csv.DictWriter]: opening the file at a path and writing the header
    of the given columns, and writing one row.  The two calls act on the
    world; the trace has no event for them. *)
Variable csv_open : pystr -> list pystr -> World -> result unit * World.
Variable csv_writerow : list (pystr * value) -> World -> result unit * World.

(** An external call that leaves no event. *)
Definition ext_quiet {L A} (f : World -> result A * World) : M World L A :=
  fun s =>
    let (r, w) := f (world s) in
    let s' := State (locals s) w (trace s) in
    match r with
    | Ok a => (Return a, s')
    | Raise e => (Throw e, s')
    end.

Definition fieldnames : list pystr :=
  [ lit "name"; lit "artists"; lit "album"; lit "uri"; lit "id";
    lit "duration_ms" ].

(** [{k: row.get(k) for k in fieldnames}] *)
Fixpoint csv_fields (row : value) (keys : list pystr)
    : result (list (pystr * value)) :=
  match keys with
  | [] => Ok []
  | k :: ks =>
    (v <- py_get row k VNone ;;
     rest <- csv_fields row ks ;;
     Ok ((k, v) :: rest))%result
  end.

(** The [csv] branch: header, then one row for each track. *)
Definition export_csv {L} (out : pystr) (tracks : list value) : M World L unit :=
  (ext_quiet (csv_open out fieldnames) ;;
   for_each tracks
     (fun row =>
        fields <- lift (csv_fields row fieldnames) ;;
        ext_quiet (csv_writerow fields)))%eff.

Definition cmd_export_playlist (fuel : nat) (playlist format output : pystr)
    : M World unit Z :=
  (pl <- ext (EvPublicPlaylist playlist) (new_PublicPlaylist E playlist) ;;
   tracks <- call [] (_collect_playlist_tracks fuel pl) ;;
   match tracks with
   | [] =>
     print_err (lit "No tracks found or playlist inaccessible.") ;;
     ret 2%Z
   | _ :: _ =>
     let out := output in
     let fmt := py_lower format in
     let done :=
       (print (lit "Exported " ++ str_of_N (N.of_nat (length tracks))
                 ++ lit " tracks to " ++ out) ;;
        ret 0%Z)%eff in
     if pystr_eqb fmt (lit "json") then
       ext (EvWriteJson out (VList tracks)) (write_json E out (VList tracks)) ;;
       done
     else if pystr_eqb fmt (lit "csv") then
       export_csv out tracks ;;
       done
     else
       print_err (lit "Unsupported format. Use json or csv.") ;;
       ret 2%Z
   end)%eff.

(** What the command does before it looks at the format. *)
Definition open_and_collect (fuel : nat) (playlist : pystr)
    : M World unit (list value) :=
  (pl <- ext (EvPublicPlaylist playlist) (new_PublicPlaylist E playlist) ;;
   call [] (_collect_playlist_tracks fuel pl))%eff.



End ExportFile.

(** ** The listing of a playlist *)

(** [f"{n:02d}"] *)
Definition format_02d (n : N) : pystr :=
  let d := str_of_N n in
  repeat 48%N (2 - length d) ++ d.

(** [entry.get("itemV2", {}).get("data", {})] *)
Definition track_payload (entry : value) : result value :=
  (itemV2 <- py_get entry (lit "itemV2") (VDict []) ;;
   py_get itemV2 (lit "data") (VDict []))%result.

(** The artists of a listing line: the names of the profiles, joined. *)
Definition artists_text (track : value) : result pystr :=
  (artists_obj <- py_get track (lit "artists") (VDict []) ;;
   artists_items <- py_get artists_obj (lit "items") (VList []) ;;
   artists_iter <- py_iter artists_items ;;
   names <- artist_names artists_iter ;;
   py_join (lit ", ") names)%result.

(** [info.get("data", {}).get("playlistV2", {}).get("name") or "Playlist"] *)
Definition playlist_header (info : value) : result value :=
  (data <- py_get info (lit "data") (VDict []) ;;
   playlistV2 <- py_get data (lit "playlistV2") (VDict []) ;;
   name <- py_get playlistV2 (lit "name") VNone ;;
   Ok (py_or name (VStr (lit "Playlist"))))%result.

Section Listing.

Variable World : Type.
Variable Obj : Type.
Variable E : Env World Obj.

(** [f"{idx:02d} | {name} — {artists} | {uri}"]; the dash is U+2014. *)
Definition listing_line (idx : N) (name : value) (artists : pystr)
    (uri : value) : pystr :=
  format_02d idx ++ lit " | " ++ py_str E name ++ lit " " ++ [8212%N]
    ++ lit " " ++ artists ++ lit " | " ++ py_str E uri.

(** The body of the loop of [cmd_public_playlist]. *)
Definition print_entry {L} (idx : N) (entry : value) : M World L unit :=
  (track <- lift (track_payload entry) ;;
   if negb (truthy track) then ret tt
   else
     name <- lift (py_get track (lit "name") VNone) ;;
     artists <- lift (artists_text track) ;;
     uri <- lift (py_get track (lit "uri") VNone) ;;
     print (listing_line idx name artists uri))%eff.

Definition cmd_public_playlist (playlist : pystr) (limit offset : Z)
    : M World unit Z :=
  (pl <- ext (EvPublicPlaylist playlist) (new_PublicPlaylist E playlist) ;;
   info <- ext (EvGetPlaylistInfo limit offset)
               (get_playlist_info pl limit offset) ;;
   header <- lift (playlist_header info) ;;
   print (py_str E header) ;;
   tracks <- lift (playlist_items info) ;;
   entries <- lift (py_iter tracks) ;;
   for_each (enumerate 0 entries)
     (fun it => print_entry (fst it) (snd it)) ;;
   ret 0%Z)%eff.

(** The lines the records of the extractor give rise to: one for each
    entry with a record that is not empty, numbered by the position of
    the entry. *)
Definition record_line (idx : N) (t : value) : pystr :=
  listing_line idx (field_of t "name")
    (match field_of t "artists" with VStr a => a | _ => [] end)
    (field_of t "uri").

Fixpoint listing (idx : N) (entries : list value) : list pystr :=
  match entries with
  | [] => []
  | entry :: rest =>
    match _extract_track_from_item entry with
    | Ok t => if truthy t then [record_line idx t] else []
    | Raise _ => []
    end ++ listing (idx + 1) rest
  end.

End Listing.

(** ** The account commands

    The calls these commands make are kept in a journal, which is the
    local component of the state; printing goes to the trace. *)

Inductive account_call : Type :=
| CallExists (path : pystr)
| CallReadJson (path : pystr)
| CallConfig
| CallLogin (dump : value)
| CallPrivatePlaylist (playlist : option pystr)
| CallSong (bound : bool)
| CallQuerySongs (query : pystr) (limit : Z)
| CallAddSong (song_id : pystr)
| CallCreatePlaylist (name : pystr).

Definition is_add_song (c : account_call) : bool :=
  match c with CallAddSong _ => true | _ => false end.

Definition is_query_songs (c : account_call) : bool :=
  match c with CallQuerySongs _ _ => true | _ => false end.

(** [bool(s)] for an optional argument of the command line. *)
Definition given (s : option pystr) : bool :=
  match s with
  | Some (_ :: _) => true
  | _ => false
  end.

(** [data.get("data", {}).get("searchV2", {}).get("tracksV2", {}).get("items", [])] *)
Definition search_items (data : value) : result value :=
  (d <- py_get data (lit "data") (VDict []) ;;
   s <- py_get d (lit "searchV2") (VDict []) ;;
   t <- py_get s (lit "tracksV2") (VDict []) ;;
   py_get t (lit "items") (VList []))%result.

(** [items[0].get("item", {}).get("data", {}).get("uri")] *)
Definition top_uri (items : value) : result value :=
  (first <- py_first items ;;
   item <- py_get first (lit "item") (VDict []) ;;
   data <- py_get item (lit "data") (VDict []) ;;
   py_get data (lit "uri") VNone)%result.

(** [m] only adds to the journal, and only calls that satisfy [Q]. *)
Definition journals {World A} (Q : account_call -> Prop)
    (m : M World (list account_call) A) : Prop :=
  forall s, exists j, locals (snd (m s)) = locals s ++ j /\ Forall Q j.

Section Account.

Variable World : Type.
Variables Cfg Login Priv SongT : Type.

(** The file system and the account library: [os.path.exists], reading
    a JSON file, [Config(logger=NoopLogger())], [Login.from_cookies],
    [PrivatePlaylist(login, playlist=...)], [Song(playlist=...)],
    [query_songs(query, limit=...)], [add_song_to_playlist] and
    [create_playlist], which returns the address of the new playlist. *)
Record Account : Type := {
  path_exists : pystr -> World -> bool * World;
  read_json : pystr -> World -> result value * World;
  new_Config : World -> result Cfg * World;
  login_from_cookies : value -> Cfg -> World -> result Login * World;
  new_PrivatePlaylist : Login -> option pystr -> World -> result Priv * World;
  new_Song : option Priv -> World -> result SongT * World;
  query_songs : SongT -> pystr -> Z -> World -> result value * World;
  add_song_to_playlist : SongT -> pystr -> World -> result unit * World;
  create_playlist : Priv -> pystr -> World -> result pystr * World
}.

Variable A : Account.

(** A call, entered in the journal before it is made. *)
Definition acall {R} (c : account_call) (f : World -> result R * World)
    : M World (list account_call) R :=
  (j <- get_locals ;; set_locals (j ++ [c]) ;; ext_quiet f)%eff.

Definition build_cfg : M World (list account_call) Cfg :=
  acall CallConfig (new_Config A).

(** [str(e)] of the [FileNotFoundError] is the message it was built with. *)
Definition load_login_from_cookies (path : pystr)
    : M World (list account_call) Login :=
  (found <- acall (CallExists path)
                  (fun w => let (b, w') := path_exists A path w in (Ok b, w')) ;;
   if negb found then
     raise (Exn FileNotFoundError (lit "Cookies file not found: " ++ path))
   else
     dump <- acall (CallReadJson path) (read_json A path) ;;
     cfg <- build_cfg ;;
     acall (CallLogin dump) (login_from_cookies A dump cfg))%eff.

Definition cmd_create_playlist (cookies name : pystr)
    : M World (list account_call) Z :=
  (login <- load_login_from_cookies cookies ;;
   priv <- acall (CallPrivatePlaylist None) (new_PrivatePlaylist A login None) ;;
   uri <- acall (CallCreatePlaylist name) (create_playlist A priv name) ;;
   print uri ;;
   ret 0%Z)%eff.

(** The [if]/[elif]/[else] of [cmd_add_to_playlist]: the status the
    command returns at once, or the identifier of the song to add.
    [re.search] raises a [TypeError] for an address that is no string;
    its text is the interpreter's. *)
Definition choose_song (song_id query : option pystr)
    : M World (list account_call) (Z + pystr) :=
  (if given song_id then
     ret (inr (parse_track_id (match song_id with Some s => s | None => [] end)))
   else if given query then
     let q := match query with Some s => s | None => [] end in
     search <- acall (CallSong false) (new_Song A None) ;;
     data <- acall (CallQuerySongs q 1) (query_songs A search q 1) ;;
     items <- lift (search_items data) ;;
     if negb (truthy items) then
       print_err (lit "No results found for query.") ;;
       ret (inl 2%Z)
     else
       uri <- lift (top_uri items) ;;
       if negb (truthy uri) then
         print_err (lit "Top result missing URI.") ;;
         ret (inl 2%Z)
       else
         match uri with
         | VStr u => ret (inr (parse_track_id u))
         | _ =>
           raise (Exn TypeError
                    (lit "expected string or bytes-like object, got '"
                       ++ type_name uri ++ lit "'"))
         end
   else
     print_err (lit "Provide either --song-id or --query") ;;
     ret (inl 2%Z))%eff.

Definition cmd_add_to_playlist (cookies playlist : pystr)
    (song_id query : option pystr) : M World (list account_call) Z :=
  (login <- load_login_from_cookies cookies ;;
   priv <- acall (CallPrivatePlaylist (Some playlist))
                 (new_PrivatePlaylist A login (Some playlist)) ;;
   song_helper <- acall (CallSong true) (new_Song A (Some priv)) ;;
   chosen <- choose_song song_id query ;;
   match chosen with
   | inl status => ret status
   | inr id =>
     acall (CallAddSong id) (add_song_to_playlist A song_helper id) ;;
     print (lit "Added.") ;;
     ret 0%Z
   end)%eff.

(** What [cmd_add_to_playlist] does before it adds the song: the helper
    bound to the playlist and the outcome of the choice. *)
Definition add_prelude (cookies playlist : pystr)
    (song_id query : option pystr)
    : M World (list account_call) (SongT * (Z + pystr)) :=
  (login <- load_login_from_cookies cookies ;;
   priv <- acall (CallPrivatePlaylist (Some playlist))
                 (new_PrivatePlaylist A login (Some playlist)) ;;
   song_helper <- acall (CallSong true) (new_Song A (Some priv)) ;;
   chosen <- choose_song song_id query ;;
   ret (song_helper, chosen))%eff.

End Account.

(** An account whose cookies file is missing: the world counts the calls. *)
Definition no_cookies_account : Account nat unit unit unit unit :=
  {| path_exists := fun _ w => (false, S w);
     read_json := fun _ w => (Ok VNone, S w);
     new_Config := fun w => (Ok tt, S w);
     login_from_cookies := fun _ _ w => (Ok tt, S w);
     new_PrivatePlaylist := fun _ _ w => (Ok tt, S w);
     new_Song := fun _ w => (Ok tt, S w);
     query_songs := fun _ _ _ w => (Ok (VDict []), S w);
     add_song_to_playlist := fun _ _ w => (Ok tt, S w);
     create_playlist := fun _ _ w => (Ok (lit "spotify:playlist:new"), S w) |}.

(** An account that works, with a search that finds nothing. *)
Definition plain_account : Account nat unit unit unit unit :=
  {| path_exists := fun _ w => (true, S w);
     read_json := fun _ w => (Ok (VDict []), S w);
     new_Config := fun w => (Ok tt, S w);
     login_from_cookies := fun _ _ w => (Ok tt, S w);
     new_PrivatePlaylist := fun _ _ w => (Ok tt, S w);
     new_Song := fun _ w => (Ok tt, S w);
     query_songs := fun _ _ _ w => (Ok (VDict []), S w);
     add_song_to_playlist := fun _ _ w => (Ok tt, S w);
     create_playlist := fun _ _ w => (Ok (lit "spotify:playlist:new"), S w) |}.

(** ** The collection of a run

    What a run of the export command collects when it starts in the
    world [w] with the trace [tr]: the tool is found, the playlist is
    opened, and the collector, run on the playlist this run has opened
    and in the world this run has reached, returns [tracks] and ends in
    the state [c']. *)
Definition run_collects {World Obj} (E : Env World Obj) (fuel : nat)
    (args : Args) (w : World) (tr : list event) (tracks : list value)
    (c' : state World (list value)) : Prop :=
  exists path w1 pl w2,
    shutil_which E (lit "yt-dlp") w = (Some path, w1)
    /\ new_PublicPlaylist E (playlist args) w1 = (Ok pl, w2)
    /\ _collect_playlist_tracks fuel pl
         (State [] w2
            (tr ++ [EvWhich (lit "yt-dlp"); EvPublicPlaylist (playlist args)]))
       = (Return tracks, c').

(** * Properties *)

Lemma pystr_eqb_spec (a b : pystr) : reflect (a = b) (pystr_eqb a b).
Proof.
  revert b; induction a as [|x a IH]; intros [|y b]; simpl;
    try (constructor; congruence).
  destruct (N.eqb_spec x y) as [->|Hxy]; simpl.
  - destruct (IH b) as [->|Hab]; constructor; congruence.
  - constructor; congruence.
Qed.

Lemma pystr_eqb_refl (a : pystr) : pystr_eqb a a = true.
Proof. destruct (pystr_eqb_spec a a); congruence. Qed.

(** ** Sequences of entries *)

Lemma extracted_app (es rest : list value) :
  extract_error es = None ->
  extracted (es ++ rest) = extracted es ++ extracted rest.
Proof.
  induction es as [|entry es IH]; simpl; intros H; [reflexivity|].
  destruct (_extract_track_from_item entry) as [t|e]; [|discriminate].
  destruct (truthy t); simpl; rewrite IH; auto.
Qed.

Lemma extract_error_app (es rest : list value) :
  extract_error es = None ->
  extract_error (es ++ rest) = extract_error rest.
Proof.
  induction es as [|entry es IH]; simpl; intros H; [reflexivity|].
  destruct (_extract_track_from_item entry) as [t|e]; [auto|discriminate].
Qed.

Lemma extract_error_app_none (es rest : list value) :
  extract_error (es ++ rest) = None ->
  extract_error es = None /\ extract_error rest = None.
Proof.
  induction es as [|entry es IH]; simpl; intros H; [auto|].
  destruct (_extract_track_from_item entry) as [t|e]; [auto|discriminate].
Qed.

Lemma carries_payload_extracted (es : list value) :
  Forall carries_payload es ->
  extract_error es = None
  /\ Forall2 (fun entry t => _extract_track_from_item entry = Ok t) es (extracted es).
Proof.
  induction 1 as [|entry es (t & Ht & Htruthy) _ [IH1 IH2]]; simpl.
  - split; [reflexivity|constructor].
  - rewrite Ht, Htruthy. split; [assumption|].
    constructor; assumption.
Qed.

(** ** Stepping through a computation *)

Section Stepping.

Variable World : Type.
Variable L : Type.

Lemma run_bind {A B} (m : M World L A) (k : A -> M World L B) s a s' :
  m s = (Return a, s') -> bind m k s = k a s'.
Proof. unfold bind; intros ->; reflexivity. Qed.

Lemma run_bind_throw {A B} (m : M World L A) (k : A -> M World L B) s e s' :
  m s = (Throw e, s') -> bind m k s = (Throw e, s').
Proof. unfold bind; intros ->; reflexivity. Qed.

Lemma run_bind_diverge {A B} (m : M World L A) (k : A -> M World L B) s s' :
  m s = (Diverge, s') -> bind m k s = (Diverge, s').
Proof. unfold bind; intros ->; reflexivity. Qed.

Lemma run_try_return {A} (m : M World L A) h s a s' :
  m s = (Return a, s') -> try_except m h s = (Return a, s').
Proof. unfold try_except; intros ->; reflexivity. Qed.

Lemma run_try_throw {A} (m : M World L A) h s e s' :
  m s = (Throw e, s') -> try_except m h s = h e s'.
Proof. unfold try_except; intros ->; reflexivity. Qed.

Lemma run_try_diverge {A} (m : M World L A) h s s' :
  m s = (Diverge, s') -> try_except m h s = (Diverge, s').
Proof. unfold try_except; intros ->; reflexivity. Qed.

Lemma run_ext_ok {A} ev (f : World -> result A * World) (s : state World L) a w :
  f (world s) = (Ok a, w) ->
  ext ev f s = (Return a, State (locals s) w (trace s ++ [ev])).
Proof. unfold ext; intros ->; reflexivity. Qed.

Lemma run_ext_raise {A} ev (f : World -> result A * World) (s : state World L) e w :
  f (world s) = (Raise e, w) ->
  ext ev f s = (Throw e, State (locals s) w (trace s ++ [ev])).
Proof. unfold ext; intros ->; reflexivity. Qed.

Lemma run_ext_total {A} ev (f : World -> A * World) (s : state World L) a w :
  f (world s) = (a, w) ->
  ext_total ev f s = (Return a, State (locals s) w (trace s ++ [ev])).
Proof. unfold ext_total; intros ->; reflexivity. Qed.

End Stepping.

(** ** Rules for the invariants *)

Section Invariants.

Variable World : Type.
Variable L : Type.
Variable I : state World L -> Prop.

Lemma preserves_ret {A} (a : A) : preserves I (ret a).
Proof. intros s H; exact H. Qed.

Lemma preserves_raise {A} (e : exn) : preserves I (@raise World L A e).
Proof. intros s H; exact H. Qed.

Lemma preserves_diverge {A} : preserves I (@diverge World L A).
Proof. intros s H; exact H. Qed.

Lemma preserves_lift {A} (r : result A) : preserves I (@lift World L A r).
Proof. destruct r; intros s H; exact H. Qed.

Lemma preserves_get_locals : preserves I (@get_locals World L).
Proof. intros s H; exact H. Qed.

Lemma preserves_bind {A B} (m : M World L A) (k : A -> M World L B) :
  preserves I m -> (forall a, preserves I (k a)) -> preserves I (bind m k).
Proof.
  intros Hm Hk s Hs. unfold bind. specialize (Hm s Hs).
  destruct (m s) as [[a|e|] s1]; cbn [snd] in *; auto.
  apply Hk; assumption.
Qed.

Lemma preserves_try_except {A} (m : M World L A) (h : exn -> M World L A) :
  preserves I m -> (forall e, preserves I (h e)) -> preserves I (try_except m h).
Proof.
  intros Hm Hh s Hs. unfold try_except. specialize (Hm s Hs).
  destruct (m s) as [[a|e|] s1]; cbn [snd] in *; auto.
  apply Hh; assumption.
Qed.

Lemma preserves_for_each {A} (xs : list A) (body : A -> M World L unit) :
  (forall x, preserves I (body x)) -> preserves I (for_each xs body).
Proof.
  intros Hb. induction xs as [|x xs IH]; cbn [for_each].
  - apply preserves_ret.
  - apply preserves_bind; auto.
Qed.

End Invariants.

Section Emits.

Variable World : Type.
Variable L : Type.
Variable Q : event -> Prop.

Lemma emits_ret {A} (a : A) : emits Q (@ret World L A a).
Proof. intros s; exists []; rewrite app_nil_r; auto. Qed.

Lemma emits_raise {A} (e : exn) : emits Q (@raise World L A e).
Proof. intros s; exists []; rewrite app_nil_r; auto. Qed.

Lemma emits_diverge {A} : emits Q (@diverge World L A).
Proof. intros s; exists []; rewrite app_nil_r; auto. Qed.

Lemma emits_lift {A} (r : result A) : emits Q (@lift World L A r).
Proof. destruct r; intros s; exists []; rewrite app_nil_r; auto. Qed.

Lemma emits_get_locals : emits Q (@get_locals World L).
Proof. intros s; exists []; rewrite app_nil_r; auto. Qed.

Lemma emits_set_locals (l : L) : emits Q (@set_locals World L l).
Proof. intros s; exists []; rewrite app_nil_r; auto. Qed.

Lemma emits_emit (ev : event) : Q ev -> emits Q (@emit World L ev).
Proof. intros H s; exists [ev]; auto. Qed.

Lemma emits_ext {A} (ev : event) (f : World -> result A * World) :
  Q ev -> emits Q (@ext World L A ev f).
Proof.
  intros H s; exists [ev]. unfold ext.
  destruct (f (world s)) as [[a|e] w]; auto.
Qed.

Lemma emits_ext_total {A} (ev : event) (f : World -> A * World) :
  Q ev -> emits Q (@ext_total World L A ev f).
Proof.
  intros H s; exists [ev]. unfold ext_total.
  destruct (f (world s)) as [a w]; auto.
Qed.

Lemma emits_bind {A B} (m : M World L A) (k : A -> M World L B) :
  emits Q m -> (forall a, emits Q (k a)) -> emits Q (bind m k).
Proof.
  intros Hm Hk s. unfold bind. destruct (Hm s) as (evs & Ht & Hq).
  destruct (m s) as [[a|e|] s1]; cbn [snd] in *; eauto.
  destruct (Hk a s1) as (evs' & Ht' & Hq').
  exists (evs ++ evs'). rewrite Ht', Ht, app_assoc. split; [reflexivity|].
  apply Forall_app; auto.
Qed.

Lemma emits_try_except {A} (m : M World L A) (h : exn -> M World L A) :
  emits Q m -> (forall e, emits Q (h e)) -> emits Q (try_except m h).
Proof.
  intros Hm Hh s. unfold try_except. destruct (Hm s) as (evs & Ht & Hq).
  destruct (m s) as [[a|e|] s1]; cbn [snd] in *; eauto.
  destruct (Hh e s1) as (evs' & Ht' & Hq').
  exists (evs ++ evs'). rewrite Ht', Ht, app_assoc. split; [reflexivity|].
  apply Forall_app; auto.
Qed.

Lemma emits_for_each {A} (xs : list A) (body : A -> M World L unit) :
  (forall x, emits Q (body x)) -> emits Q (for_each xs body).
Proof.
  intros Hb. induction xs as [|x xs IH]; cbn [for_each].
  - apply emits_ret.
  - apply emits_bind; auto.
Qed.

Lemma emits_call {L' A} (init : L') (m : M World L' A) :
  emits Q m -> emits Q (@call World L L' A init m).
Proof.
  intros Hm s. unfold call.
  destruct (Hm (State init (world s) (trace s))) as (evs & Ht & Hq).
  destruct (m _) as [r s1]. cbn in *. eauto.
Qed.

End Emits.

Section Total.

Variable World : Type.
Variable L : Type.

Lemma total_ret {A} (a : A) : total (@ret World L A a).
Proof. intros s; discriminate. Qed.

Lemma total_raise {A} (e : exn) : total (@raise World L A e).
Proof. intros s; discriminate. Qed.

Lemma total_lift {A} (r : result A) : total (@lift World L A r).
Proof. destruct r; intros s; discriminate. Qed.

Lemma total_get_locals : total (@get_locals World L).
Proof. intros s; discriminate. Qed.

Lemma total_set_locals (l : L) : total (@set_locals World L l).
Proof. intros s; discriminate. Qed.

Lemma total_emit (ev : event) : total (@emit World L ev).
Proof. intros s; discriminate. Qed.

Lemma total_ext {A} (ev : event) (f : World -> result A * World) :
  total (@ext World L A ev f).
Proof.
  intros s. unfold ext. destruct (f (world s)) as [[a|e] w]; discriminate.
Qed.

Lemma total_ext_total {A} (ev : event) (f : World -> A * World) :
  total (@ext_total World L A ev f).
Proof.
  intros s. unfold ext_total. destruct (f (world s)) as [a w]; discriminate.
Qed.

Lemma total_bind {A B} (m : M World L A) (k : A -> M World L B) :
  total m -> (forall a, total (k a)) -> total (bind m k).
Proof.
  intros Hm Hk s. unfold bind. specialize (Hm s).
  destruct (m s) as [[a|e|] s1]; cbn [fst] in *; try discriminate; auto.
  apply Hk.
Qed.

Lemma total_try_except {A} (m : M World L A) (h : exn -> M World L A) :
  total m -> (forall e, total (h e)) -> total (try_except m h).
Proof.
  intros Hm Hh s. unfold try_except. specialize (Hm s).
  destruct (m s) as [[a|e|] s1]; cbn [fst] in *; try discriminate; auto.
  apply Hh.
Qed.

Lemma total_for_each {A} (xs : list A) (body : A -> M World L unit) :
  (forall x, total (body x)) -> total (for_each xs body).
Proof.
  intros Hb. induction xs as [|x xs IH]; cbn [for_each].
  - apply total_ret.
  - apply total_bind; auto.
Qed.

Lemma total_call {L' A} (init : L') (m : M World L' A) :
  total m -> total (@call World L L' A init m).
Proof.
  intros Hm s. unfold call. specialize (Hm (State init (world s) (trace s))).
  destruct (m _) as [r s1]. exact Hm.
Qed.

End Total.

Create HintDb eff.
#[export] Hint Resolve preserves_ret preserves_raise preserves_diverge preserves_lift
  preserves_get_locals preserves_bind preserves_try_except preserves_for_each
  emits_ret emits_raise emits_diverge emits_lift emits_get_locals emits_set_locals
  emits_emit emits_ext emits_ext_total emits_bind emits_try_except emits_for_each
  emits_call
  total_ret total_raise total_lift total_get_locals total_set_locals total_emit
  total_ext total_ext_total total_bind total_try_except total_for_each total_call
  : eff.

(** ** Running the collector *)

Section CollectorRuns.

Variable World : Type.
Variable pl : PublicPlaylist World.

Definition outcome_of_error (err : option exn) : outcome unit :=
  match err with
  | None => Return tt
  | Some e => Throw e
  end.

Lemma for_each_entries (entries : list value) (T : list value) (w : World)
    (tr : list event) :
  for_each entries
    (fun entry =>
       (t <- lift (_extract_track_from_item entry) ;;
        if truthy t then append_track t else ret tt)%eff)
    (State T w tr)
  = (outcome_of_error (extract_error entries),
     State (T ++ extracted entries) w tr).
Proof.
  revert T; induction entries as [|entry rest IH]; intros T; simpl.
  - rewrite app_nil_r. reflexivity.
  - unfold bind at 1. unfold bind at 1.
    destruct (_extract_track_from_item entry) as [t|e]; simpl.
    + destruct (truthy t); simpl.
      * rewrite IH. simpl. rewrite <- app_assoc. reflexivity.
      * rewrite IH. reflexivity.
    + rewrite app_nil_r. reflexivity.
Qed.

Lemma extend_tracks_list (b : list value) (T : list value) (w : World)
    (tr : list event) :
  extend_tracks (VList b) (State T w tr)
  = (outcome_of_error (extract_error b), State (T ++ extracted b) w tr).
Proof.
  unfold extend_tracks. simpl. unfold bind at 1. simpl.
  apply for_each_entries.
Qed.

Lemma repeat_snoc {A} (x : A) (n : nat) : repeat x n ++ [x] = x :: repeat x n.
Proof. induction n; simpl; congruence. Qed.

(** The loop over the stream, for a stream that yields well-formed
    chunks and then is exhausted or raises. *)
Lemma paginate_loop_run (chunks : list value) :
  forall (ess : list (list value)) (fuel : nat) (T : list value)
         (w w2 w3 : World) (tr : list event) (fin : result (option value)),
    stream_yields pl w chunks w2 ->
    paginate_next pl w2 = (fin, w3) ->
    (forall chunk, fin <> Ok (Some chunk)) ->
    Forall2 (fun chunk es => response_entries chunk = Ok es) chunks ess ->
    extract_error (concat ess) = None ->
    length chunks < fuel ->
    paginate_loop fuel pl (State T w tr)
    = (match fin with Raise e => Throw e | Ok _ => Return tt end,
       State (T ++ extracted (concat ess)) w3
             (tr ++ repeat EvPaginateNext (S (length chunks)))).
Proof.
  induction chunks as [|chunk rest IH];
    intros ess fuel T w w2 w3 tr fin Hy Hfin Hend Hent Herr Hfuel;
    (destruct fuel as [|fuel]; [simpl in Hfuel; lia|]).
  - simpl in Hy; subst w2. inversion Hent; subst ess. simpl.
    rewrite app_nil_r.
    destruct fin as [[chunk|]|e].
    + exfalso; apply (Hend chunk); reflexivity.
    + erewrite run_bind by (apply run_ext_ok; exact Hfin). reflexivity.
    + erewrite run_bind_throw by (apply run_ext_raise; exact Hfin). reflexivity.
  - destruct Hy as (w1 & Hnext & Hy).
    inversion Hent as [|c es cs ess' Hes Hrest]; subst.
    simpl in Herr. apply extract_error_app_none in Herr as [Herr1 Herr2].
    unfold response_entries in Hes.
    destruct (playlist_items chunk) as [items|] eqn:Hitems; [|discriminate].
    simpl in Hes.
    simpl paginate_loop.
    erewrite run_bind by (apply run_ext_ok; exact Hnext).
    cbv beta iota. rewrite Hitems. simpl lift.
    erewrite run_bind by reflexivity.
    assert (Hext : extend_tracks items (State T w1 (tr ++ [EvPaginateNext]))
                   = (Return tt, State (T ++ extracted es) w1 (tr ++ [EvPaginateNext]))).
    { unfold extend_tracks. rewrite Hes. simpl lift.
      erewrite run_bind by reflexivity.
      rewrite for_each_entries, Herr1. reflexivity. }
    erewrite run_bind by exact Hext.
    erewrite IH; eauto; [|simpl in Hfuel; lia].
    simpl concat. rewrite extracted_app by assumption.
    rewrite <- !app_assoc. simpl. reflexivity.
Qed.

(** A round of the fallback on a full batch asks for the next one. *)
Lemma fallback_round_full (offset : Z) (b : list value)
    (info : value) (T : list value) (w w1 : World) (tr : list event) :
  get_playlist_info pl limit offset w = (Ok info, w1) ->
  playlist_items info = Ok (VList b) ->
  length b = 100 ->
  extract_error b = None ->
  fallback_round pl offset (State T w tr)
  = (Return Next, State (T ++ extracted b) w1 (tr ++ [EvGetPlaylistInfo limit offset])).
Proof.
  intros Hget Hitems Hlen Herr. unfold fallback_round.
  apply run_try_return.
  erewrite run_bind by (apply run_ext_ok; exact Hget).
  cbn [locals world trace]. rewrite Hitems. cbn [lift]. erewrite run_bind by reflexivity.
  destruct b as [|entry b']; [discriminate|].
  cbn [truthy negb].
  erewrite run_bind by (rewrite extend_tracks_list, Herr; reflexivity).
  cbn [py_len lift]. erewrite run_bind by reflexivity.
  rewrite Hlen. reflexivity.
Qed.

(** A round on a short batch is the last one. *)
Lemma fallback_round_short (offset : Z) (b : list value)
    (info : value) (T : list value) (w w1 : World) (tr : list event) :
  get_playlist_info pl limit offset w = (Ok info, w1) ->
  playlist_items info = Ok (VList b) ->
  length b < 100 ->
  fallback_round pl offset (State T w tr)
  = (Return Break,
     State (T ++ extracted b) w1 (tr ++ [EvGetPlaylistInfo limit offset])).
Proof.
  intros Hget Hitems Hlen. unfold fallback_round, try_except.
  erewrite run_bind by (apply run_ext_ok; exact Hget).
  cbn [locals world trace]. rewrite Hitems. cbn [lift].
  erewrite run_bind by reflexivity.
  destruct b as [|entry b'].
  - simpl. rewrite app_nil_r. reflexivity.
  - cbn [truthy negb]. unfold bind at 1. rewrite extend_tracks_list.
    destruct (extract_error (entry :: b')) as [e|]; cbn [outcome_of_error].
    + reflexivity.
    + cbn [py_len lift]. erewrite run_bind by reflexivity.
      replace (Z.of_nat (length (entry :: b')) <? limit)%Z with true;
        [reflexivity|].
      symmetry. apply Z.ltb_lt. unfold limit. lia.
Qed.

(** A round whose request raises is the last one, and keeps what was
    collected. *)
Lemma fallback_round_raise (offset : Z) (e : exn)
    (T : list value) (w w1 : World) (tr : list event) :
  get_playlist_info pl limit offset w = (Raise e, w1) ->
  fallback_round pl offset (State T w tr)
  = (Return Break, State T w1 (tr ++ [EvGetPlaylistInfo limit offset])).
Proof.
  intros Hget. unfold fallback_round.
  erewrite run_try_throw; [reflexivity|].
  erewrite run_bind_throw; [reflexivity|].
  apply run_ext_raise; exact Hget.
Qed.

Lemma fallback_loop_S (fuel : nat) (offset : Z) c s s' :
  fallback_round pl offset s = (Return c, s') ->
  fallback_loop (S fuel) pl offset s
  = match c with
    | Break => (Return tt, s')
    | Next => fallback_loop fuel pl (offset + limit) s'
    end.
Proof.
  intros H. cbn [fallback_loop]. rewrite (run_bind _ _ _ H).
  destruct c; reflexivity.
Qed.

(** The rounds on a sequence of full batches. *)
Lemma fallback_loop_batches (batches : list (list value)) :
  forall (fuel : nat) (offset : Z) (T : list value) (w w' : World)
         (tr : list event),
    fallback_serves pl w offset batches w' ->
    Forall (fun b => length b = 100) batches ->
    extract_error (concat batches) = None ->
    fallback_loop (length batches + fuel) pl offset (State T w tr)
    = fallback_loop fuel pl (offset + limit * Z.of_nat (length batches))
        (State (T ++ extracted (concat batches)) w'
               (tr ++ fallback_events offset (length batches))).
Proof.
  induction batches as [|b rest IH];
    intros fuel offset T w w' tr Hserve Hfull Herr.
  - simpl in Hserve; subst w'.
    cbn [length Nat.add concat extracted fallback_events].
    rewrite !app_nil_r.
    replace (offset + limit * Z.of_nat 0)%Z with offset by (simpl; lia).
    reflexivity.
  - destruct Hserve as (info & w1 & Hget & Hitems & Hserve).
    inversion Hfull as [|? ? Hlen Hfull']; subst.
    simpl in Herr. apply extract_error_app_none in Herr as [Herr1 Herr2].
    cbn [length Nat.add].
    erewrite fallback_loop_S by (eapply fallback_round_full; eassumption).
    cbv iota. erewrite IH by eassumption.
    cbn [concat]. rewrite extracted_app by assumption.
    rewrite <- !app_assoc. cbn [fallback_events app].
    replace (offset + limit + limit * Z.of_nat (length rest))%Z
      with (offset + limit * Z.of_nat (S (length rest)))%Z by lia.
    reflexivity.
Qed.

(** The primary path on a stream that yields well-formed chunks and is
    then exhausted. *)
Lemma primary_path_completes (fuel : nat) (chunks : list value)
    (ess : list (list value)) (T : list value) (w w' : World) (tr : list event) :
  primary_completes pl w chunks w' ->
  Forall2 (fun chunk es => response_entries chunk = Ok es) chunks ess ->
  extract_error (concat ess) = None ->
  length chunks < fuel ->
  primary_path fuel pl (State T w tr)
  = (Return (match T ++ extracted (concat ess) with
             | [] => None
             | tracks => Some tracks
             end),
     State (T ++ extracted (concat ess)) w'
           (tr ++ EvPaginate :: repeat EvPaginateNext (S (length chunks)))).
Proof.
  intros (w1 & w2 & Hcall & Hy & Hstop) Hent Herr Hfuel.
  unfold primary_path. apply run_try_return.
  erewrite run_bind by (apply run_ext_ok; exact Hcall).
  cbn [locals world trace].
  erewrite run_bind.
  2:{ eapply paginate_loop_run with (fin := Ok None); eauto. discriminate. }
  unfold get_locals. unfold bind. cbn [locals].
  rewrite <- app_assoc. cbn [app].
  destruct (T ++ extracted (concat ess)); reflexivity.
Qed.

(** The primary path when it raises: what was collected stays, and the
    function goes on to the fallback. *)
Lemma primary_path_raises (fuel : nat) (chunks : list value)
    (ess : list (list value)) (e : exn) (T : list value) (w w' : World)
    (tr : list event) :
  primary_raises pl w chunks e w' ->
  Forall2 (fun chunk es => response_entries chunk = Ok es) chunks ess ->
  extract_error (concat ess) = None ->
  length chunks < fuel ->
  primary_path fuel pl (State T w tr)
  = (Return None,
     State (T ++ extracted (concat ess)) w' (tr ++ primary_events pl w chunks)).
Proof.
  intros Hraise Hent Herr Hfuel. unfold primary_path, primary_events.
  destruct Hraise as [[-> Hcall]|(w1 & w2 & Hcall & Hy & Hstop)].
  - inversion Hent; subst ess. rewrite Hcall.
    erewrite run_try_throw; [|erewrite run_bind_throw; [reflexivity|];
                              apply run_ext_raise; exact Hcall].
    cbn. rewrite app_nil_r. reflexivity.
  - rewrite Hcall.
    erewrite run_try_throw.
    2:{ erewrite run_bind by (apply run_ext_ok; exact Hcall).
        cbn [locals world trace].
        erewrite run_bind_throw; [reflexivity|].
        eapply paginate_loop_run with (fin := Raise e); eauto. discriminate. }
    cbn. rewrite <- app_assoc. reflexivity.
Qed.

Lemma extend_tracks_eq (items : value) (T : list value) (w : World)
    (tr : list event) :
  extend_tracks items (State T w tr)
  = match py_iter items with
    | Raise e => (Throw e, State T w tr)
    | Ok entries =>
      (outcome_of_error (extract_error entries),
       State (T ++ extracted entries) w tr)
    end.
Proof.
  unfold extend_tracks. destruct (py_iter items) as [entries|e]; cbn [lift].
  - erewrite run_bind by reflexivity. apply for_each_entries.
  - reflexivity.
Qed.

Lemma fallback_round_eq (offset : Z) (T : list value) (w : World)
    (tr : list event) :
  fallback_round pl offset (State T w tr)
  = (Return (fst (round_result (fst (get_playlist_info pl limit offset w)))),
     State (T ++ snd (round_result (fst (get_playlist_info pl limit offset w))))
           (snd (get_playlist_info pl limit offset w))
           (tr ++ [EvGetPlaylistInfo limit offset])).
Proof.
  unfold fallback_round, try_except, round_result.
  destruct (get_playlist_info pl limit offset w) as [[info|e] w1] eqn:Hget;
    cbn [fst snd].
  2:{ erewrite run_bind_throw by (apply run_ext_raise; exact Hget).
      cbn. rewrite app_nil_r. reflexivity. }
  erewrite run_bind by (apply run_ext_ok; exact Hget).
  cbn [locals world trace].
  destruct (playlist_items info) as [items|e]; cbn [lift].
  2:{ cbn. rewrite app_nil_r. reflexivity. }
  erewrite run_bind by reflexivity.
  destruct (truthy items); cbn [negb].
  2:{ cbn. rewrite app_nil_r. reflexivity. }
  unfold bind at 1. rewrite extend_tracks_eq.
  destruct (py_iter items) as [entries|e].
  2:{ cbn. rewrite app_nil_r. reflexivity. }
  destruct (extract_error entries) as [e|]; cbn [outcome_of_error].
  { cbn. reflexivity. }
  destruct (py_len items) as [n|e]; cbn [lift].
  2:{ cbn. reflexivity. }
  erewrite run_bind by reflexivity.
  destruct (Z.ltb n limit); reflexivity.
Qed.

(** The fallback only appends: run from any list of tracks and any
    trace, it does what it does from empty ones. *)
Lemma fallback_loop_frame (fuel : nat) :
  forall (offset : Z) (T : list value) (w : World) (tr : list event),
    fallback_loop fuel pl offset (State T w tr)
    = (fst (fallback_loop fuel pl offset (State [] w [])),
       State (T ++ locals (snd (fallback_loop fuel pl offset (State [] w []))))
             (world (snd (fallback_loop fuel pl offset (State [] w []))))
             (tr ++ trace (snd (fallback_loop fuel pl offset (State [] w []))))).
Proof.
  induction fuel as [|fuel IH]; intros offset T w tr.
  - cbn. rewrite !app_nil_r. reflexivity.
  - cbn [fallback_loop].
    erewrite !run_bind by apply fallback_round_eq.
    destruct (fst (round_result _)).
    + cbn. reflexivity.
    + rewrite IH. rewrite (IH _ ([] ++ _)). cbn [fst snd locals world trace app].
      rewrite <- !app_assoc. reflexivity.
Qed.

Lemma fallback_loop_no_throw (fuel : nat) :
  forall (offset : Z) (s : state World (list value)) (e : exn),
    fst (fallback_loop fuel pl offset s) <> Throw e.
Proof.
  induction fuel as [|fuel IH]; intros offset [T w tr] e.
  - cbn. discriminate.
  - cbn [fallback_loop]. erewrite run_bind by apply fallback_round_eq.
    destruct (fst (round_result _)); [cbn; discriminate|apply IH].
Qed.

Lemma fallback_loop_first_request (fuel : nat) (offset : Z)
    (s : state World (list value)) :
  exists rest,
    trace (snd (fallback_loop (S fuel) pl offset s))
    = trace s ++ EvGetPlaylistInfo limit offset :: rest.
Proof.
  destruct s as [T w tr]. cbn [fallback_loop].
  erewrite run_bind by apply fallback_round_eq.
  destruct (fst (round_result _)).
  - exists []. reflexivity.
  - rewrite fallback_loop_frame. cbn [snd trace].
    rewrite <- app_assoc. eexists. reflexivity.
Qed.

Lemma primary_path_no_throw (fuel : nat) (s : state World (list value)) (e : exn) :
  fst (primary_path fuel pl s) <> Throw e.
Proof.
  unfold primary_path, try_except.
  match goal with |- context [match ?m with _ => _ end] => destruct m as [[a|e'|] s'] end;
    cbn; discriminate.
Qed.

End CollectorRuns.

(** ** The Playlist Collector: claims *)

Section CollectorClaims.
Variable World : Type.
Variable pl : PublicPlaylist World.

Lemma collect_unfold (fuel : nat) (s : state World (list value)) :
  _collect_playlist_tracks fuel pl s
  = match primary_path fuel pl (State [] (world s) (trace s)) with
    | (Return (Some tracks), s1) => (Return tracks, s1)
    | (Return None, s1) =>
      match fallback_loop fuel pl 0 s1 with
      | (Return _, s2) => (Return (locals s2), s2)
      | (Throw e, s2) => (Throw e, s2)
      | (Diverge, s2) => (Diverge, s2)
      end
    | (Throw e, s1) => (Throw e, s1)
    | (Diverge, s1) => (Diverge, s1)
    end.
Proof.
  unfold _collect_playlist_tracks.
  erewrite run_bind by reflexivity.
  unfold bind at 1.
  destruct (primary_path fuel pl _) as [[[tracks|]|e|] s1]; try reflexivity.
Qed.

(** C2.  The Playlist Collector never raises, whatever the two sources
    do; and when the primary path has raised and the fallback source
    fails after a number of full batches, it returns the tracks
    collected up to that point: those of the primary path followed by
    those of the batches received. *)
Theorem collect_never_raises (fuel : nat) (s : state World (list value)) :
  (forall e, fst (_collect_playlist_tracks fuel pl s) <> Throw e)
  /\ forall (chunks : list value) (ess : list (list value)) (e : exn)
            (w1 : World) (batches : list (list value)) (w2 : World)
            (e' : exn) (w3 : World),
      primary_raises pl (world s) chunks e w1 ->
      Forall2 (fun chunk es => response_entries chunk = Ok es) chunks ess ->
      extract_error (concat ess) = None ->
      length chunks < fuel ->
      fallback_serves pl w1 0 batches w2 ->
      Forall (fun b => length b = 100) batches ->
      extract_error (concat batches) = None ->
      get_playlist_info pl limit (limit * Z.of_nat (length batches)) w2
        = (Raise e', w3) ->
      length batches < fuel ->
      fst (_collect_playlist_tracks fuel pl s)
      = Return (extracted (concat ess) ++ extracted (concat batches)).
Proof.
  split.
  - intros e. rewrite collect_unfold.
    pose proof (primary_path_no_throw pl fuel (State [] (world s) (trace s))) as Hp.
    destruct (primary_path fuel pl _) as [[[tracks|]|e1|] s1]; cbn [fst] in *;
      try discriminate.
    + pose proof (fallback_loop_no_throw pl fuel 0 s1) as Hf.
      destruct (fallback_loop fuel pl 0 s1) as [[[]|e2|] s2]; cbn [fst] in *;
        try discriminate.
      intros _. eapply Hf. reflexivity.
    + intros _. eapply Hp. reflexivity.
  - intros chunks ess e w1 batches w2 e' w3
           Hraise Hent Herr Hfuel Hserve Hfull Herrb Hget Hfuelb.
    rewrite collect_unfold.
    rewrite (fun T tr => @primary_path_raises World pl fuel chunks ess e T _ _ tr Hraise Hent Herr Hfuel).
    replace fuel with (length batches + S (fuel - S (length batches))) by lia.
    erewrite fallback_loop_batches by eassumption.
    erewrite fallback_loop_S.
    2:{ eapply fallback_round_raise. rewrite Z.add_0_l. exact Hget. }
    reflexivity.
Qed.

(** C3.  When the paginated stream completes and its chunks give at
    least one track, the collector returns exactly the tracks of the
    stream, and no request of the fallback is made. *)
Theorem primary_is_authoritative (fuel : nat) (s : state World (list value))
    (chunks : list value) (ess : list (list value)) (w' : World) :
  primary_completes pl (world s) chunks w' ->
  Forall2 (fun chunk es => response_entries chunk = Ok es) chunks ess ->
  extract_error (concat ess) = None ->
  extracted (concat ess) <> [] ->
  length chunks < fuel ->
  exists evs,
    _collect_playlist_tracks fuel pl s
    = (Return (extracted (concat ess)),
       State (extracted (concat ess)) w' (trace s ++ evs))
    /\ Forall (fun ev => is_fallback_request ev = false) evs.
Proof.
  intros Hdone Hent Herr Hsome Hfuel.
  exists (EvPaginate :: repeat EvPaginateNext (S (length chunks))).
  split.
  - rewrite collect_unfold.
    erewrite primary_path_completes by eassumption.
    cbn [app]. destruct (extracted (concat ess)); [congruence|reflexivity].
  - constructor; [reflexivity|].
    apply Forall_forall. intros ev Hin.
    apply repeat_spec in Hin. subst ev. reflexivity.
Qed.

(** C4.  When the primary path raises without having given a track and
    the fallback answers the requests at offsets 0, 100 and 200 with
    100 entries each and the one at offset 300 with 40 entries, all of
    them carrying a track payload, the collector returns the 340
    records of these entries, in their order, and its last request is
    the one at offset 300. *)
Theorem fallback_collects_340 (fuel : nat) (s : state World (list value))
    (chunks : list value) (ess : list (list value)) (e : exn) (w1 : World)
    (b0 b1 b2 b3 : list value) (w' : World) :
  primary_raises pl (world s) chunks e w1 ->
  Forall2 (fun chunk es => response_entries chunk = Ok es) chunks ess ->
  extract_error (concat ess) = None ->
  extracted (concat ess) = [] ->
  length chunks < fuel ->
  fallback_serves pl w1 0 [b0; b1; b2; b3] w' ->
  length b0 = 100 -> length b1 = 100 -> length b2 = 100 -> length b3 = 40 ->
  Forall carries_payload (b0 ++ b1 ++ b2 ++ b3) ->
  4 <= fuel ->
  exists tracks,
    _collect_playlist_tracks fuel pl s
    = (Return tracks,
       State tracks w'
             (trace s ++ primary_events pl (world s) chunks
                ++ [EvGetPlaylistInfo 100 0; EvGetPlaylistInfo 100 100;
                    EvGetPlaylistInfo 100 200; EvGetPlaylistInfo 100 300]))
    /\ length tracks = 340
    /\ Forall2 (fun entry t => _extract_track_from_item entry = Ok t)
               (b0 ++ b1 ++ b2 ++ b3) tracks.
Proof.
  intros Hraise Hent Herr Hnone Hfuel Hserve H0 H1 H2 H3 Hpay Hfuel4.
  destruct (carries_payload_extracted Hpay) as [Herrb Hall].
  exists (extracted (b0 ++ b1 ++ b2 ++ b3)).
  split; [|split; [|exact Hall]].
  - rewrite collect_unfold.
    rewrite (fun T tr => @primary_path_raises World pl fuel chunks ess e T _ _ tr Hraise Hent Herr Hfuel).
    rewrite Hnone. cbn [app].
    destruct Hserve as (i0 & u1 & Hg0 & Hi0 & i1 & u2 & Hg1 & Hi1
                        & i2 & u3 & Hg2 & Hi2 & i3 & u4 & Hg3 & Hi3 & ->).
    apply extract_error_app_none in Herrb as [E0 Herrb].
    apply extract_error_app_none in Herrb as [E1 Herrb].
    apply extract_error_app_none in Herrb as [E2 E3].
    destruct fuel as [|[|[|[|fuel]]]]; try lia.
    erewrite fallback_loop_S by (eapply fallback_round_full; eassumption).
    cbv iota.
    erewrite fallback_loop_S by (eapply fallback_round_full; eassumption).
    cbv iota.
    erewrite fallback_loop_S by (eapply fallback_round_full; eassumption).
    cbv iota.
    erewrite fallback_loop_S by (eapply fallback_round_short; try eassumption; lia).
    cbn [locals app].
    rewrite !extracted_app by assumption.
    rewrite <- !app_assoc. reflexivity.
  - apply Forall2_length in Hall. rewrite <- Hall, !length_app. lia.
Qed.

(** C9.  When the paginated stream raises after tracks have been
    extracted, these tracks are kept, the fallback starts again at
    offset 0 and what it collects is appended: a record that both paths
    obtain occurs twice in the returned list. *)
Theorem partial_primary_is_kept (fuel : nat) (s : state World (list value))
    (chunks : list value) (ess : list (list value)) (e : exn) (w1 : World)
    (F : list value) (wF : World) (evF : list event) :
  primary_raises pl (world s) chunks e w1 ->
  Forall2 (fun chunk es => response_entries chunk = Ok es) chunks ess ->
  extract_error (concat ess) = None ->
  extracted (concat ess) <> [] ->
  length chunks < fuel ->
  fallback_loop fuel pl 0 (State [] w1 []) = (Return tt, State F wF evF) ->
  _collect_playlist_tracks fuel pl s
  = (Return (extracted (concat ess) ++ F),
     State (extracted (concat ess) ++ F) wF
           (trace s ++ primary_events pl (world s) chunks ++ evF))
  /\ (exists rest, evF = EvGetPlaylistInfo limit 0 :: rest)
  /\ (forall t, In t (extracted (concat ess)) -> In t F ->
        exists l1 l2 l3,
          extracted (concat ess) ++ F = l1 ++ t :: l2 ++ t :: l3).
Proof.
  intros Hraise Hent Herr Hsome Hfuel Hfall.
  split; [|split].
  - rewrite collect_unfold.
    rewrite (fun T tr => @primary_path_raises World pl fuel chunks ess e T _ _ tr Hraise Hent Herr Hfuel).
    rewrite fallback_loop_frame, Hfall. cbn.
    rewrite <- app_assoc. reflexivity.
  - destruct fuel as [|fuel]; [lia|].
    destruct (fallback_loop_first_request pl fuel 0 (State [] w1 [])) as [rest Hrest].
    rewrite Hfall in Hrest. cbn in Hrest. eauto.
  - intros t HP HF.
    apply in_split in HP as (l1 & l2 & ->).
    apply in_split in HF as (l3 & l4 & ->).
    exists l1, (l2 ++ l3), l4. rewrite <- !app_assoc. reflexivity.
Qed.

End CollectorClaims.

(** ** The Track Extractor: claims *)

Lemma extract_shape (item t : value) :
  _extract_track_from_item item = Ok t ->
  t = VDict [] \/ is_track_record t.
Proof.
  unfold _extract_track_from_item, rbind. intros H.
  repeat match type of H with
         | match ?x with _ => _ end = Ok _ => destruct x eqn:?; try discriminate
         | (if ?x then _ else _) = Ok _ => destruct x eqn:?; try discriminate
         | (let '(_, _) := ?x in _) = Ok _ => destruct x eqn:?
         end;
    inversion H; subst; auto; right; red; do 7 eexists; reflexivity.
Qed.

Lemma extract_no_payload (item : value) :
  no_track_payload item -> _extract_track_from_item item = Ok (VDict []).
Proof.
  intros (d & -> & H). unfold _extract_track_from_item. cbn [py_get rbind].
  destruct (lookup (lit "itemV2") d) as [[| | | | |d2]|]; try contradiction.
  - cbn [py_get rbind].
    destruct (lookup (lit "data") d2) as [data|].
    + cbn [rbind]. rewrite H. reflexivity.
    + reflexivity.
  - reflexivity.
Qed.

Lemma extracted_sound (entries : list value) :
  Forall (fun t => truthy t = true
                   /\ exists entry, In entry entries /\ _extract_track_from_item entry = Ok t)
         (extracted entries).
Proof.
  induction entries as [|entry rest IH]; cbn [extracted]; [constructor|].
  assert (IH' : Forall (fun t => truthy t = true
                   /\ exists e, In e (entry :: rest) /\ _extract_track_from_item e = Ok t)
         (extracted rest)).
  { eapply Forall_impl; [|exact IH]. cbn. intros t (Ht & e & Hin & He). eauto 6. }
  destruct (_extract_track_from_item entry) as [t|e] eqn:He; [|constructor].
  destruct (truthy t) eqn:Ht; [|exact IH'].
  constructor; [|exact IH']. split; [assumption|]. exists entry. cbn. auto.
Qed.

Lemma extracted_emitted_ok (entries : list value) :
  Forall emitted_ok (extracted entries).
Proof.
  eapply Forall_impl; [|apply extracted_sound].
  intros t (Ht & e & _ & He). split; eauto.
Qed.

Section CollectorInvariant.

Variable World : Type.
Variable pl : PublicPlaylist World.

Lemma preserves_ext_locals {A} ev (f : World -> result A * World) :
  preserves (@tracks_ok World) (ext ev f).
Proof.
  intros s H. unfold ext. destruct (f (world s)) as [[a|e] w]; exact H.
Qed.

Lemma preserves_extend_tracks (items : value) :
  preserves (@tracks_ok World) (extend_tracks items).
Proof.
  intros [T w tr] H. rewrite extend_tracks_eq.
  destruct (py_iter items) as [entries|e]; [|exact H].
  apply Forall_app. split; [exact H|apply extracted_emitted_ok].
Qed.

Lemma preserves_paginate_loop (fuel : nat) :
  preserves (@tracks_ok World) (paginate_loop fuel pl).
Proof.
  induction fuel as [|fuel IH]; cbn [paginate_loop].
  - apply preserves_diverge.
  - apply preserves_bind; [apply preserves_ext_locals|].
    intros [chunk|]; [|apply preserves_ret].
    apply preserves_bind; [apply preserves_lift|]. intros items.
    apply preserves_bind; [apply preserves_extend_tracks|]. intros _. exact IH.
Qed.

Lemma preserves_primary_path (fuel : nat) :
  preserves (@tracks_ok World) (primary_path fuel pl).
Proof.
  unfold primary_path.
  apply preserves_try_except; [|intros; apply preserves_ret].
  apply preserves_bind; [apply preserves_ext_locals|]. intros _.
  apply preserves_bind; [apply preserves_paginate_loop|]. intros _.
  apply preserves_bind; [apply preserves_get_locals|].
  intros [|t T]; apply preserves_ret.
Qed.

Lemma primary_path_returns_locals (fuel : nat) s tracks s' :
  primary_path fuel pl s = (Return (Some tracks), s') -> tracks = locals s'.
Proof.
  unfold primary_path, try_except, bind, get_locals.
  destruct (ext EvPaginate (paginate_playlist pl) s) as [[[]|e|] s1];
    try (cbn; intros H; discriminate H).
  destruct (paginate_loop fuel pl s1) as [[[]|e|] s2];
    try (cbn; intros H; discriminate H).
  destruct (locals s2) eqn:Hl; cbn; intros H; inversion H; subst; congruence.
Qed.

Lemma preserves_fallback_loop (fuel : nat) :
  forall offset, preserves (@tracks_ok World) (fallback_loop fuel pl offset).
Proof.
  induction fuel as [|fuel IH]; intros offset; cbn [fallback_loop].
  - apply preserves_diverge.
  - apply preserves_bind.
    + intros [T w tr] H. rewrite fallback_round_eq. cbn [snd locals].
      apply Forall_app. split; [exact H|].
      unfold round_result.
      destruct (fst (get_playlist_info pl limit offset w)) as [info|e]; [|constructor].
      destruct (playlist_items info) as [items|e]; [|constructor].
      destruct (negb (truthy items)); [constructor|].
      destruct (py_iter items) as [entries|e]; [|constructor].
      destruct (extract_error entries), (py_len items);
        apply extracted_emitted_ok.
    + intros [|]; [apply preserves_ret|apply IH].
Qed.

Lemma collect_tracks_ok (fuel : nat) (s : state World (list value)) tracks s' :
  _collect_playlist_tracks fuel pl s = (Return tracks, s') ->
  Forall emitted_ok tracks.
Proof.
  rewrite collect_unfold.
  pose proof (@preserves_primary_path fuel (State [] (world s) (trace s))
                (Forall_nil _)) as Hp.
  destruct (primary_path fuel pl _) as [[[T|]|e|] s1] eqn:Hprim; try discriminate.
  - intros H; inversion H; subst. 
    apply primary_path_returns_locals in Hprim. subst. exact Hp.
  - pose proof (@preserves_fallback_loop fuel 0 s1 Hp) as Hf.
    destruct (fallback_loop fuel pl 0 s1) as [[[]|e|] s2]; try discriminate.
    intros H; inversion H; subst. exact Hf.
Qed.

End CollectorInvariant.

(** C5, as the code has it.  The Track Extractor returns an empty result
    for an item without track payload, and an empty result is never
    appended to the collected list: every record of the list is the
    seven-field record of an entry whose payload is not empty.  (The
    fields of such a record may all be empty, see
    [all_empty_record_is_emitted].) *)
Theorem empty_results_are_skipped :
  (forall item, no_track_payload item ->
                _extract_track_from_item item = Ok (VDict []))
  /\ (forall World (pl : PublicPlaylist World) fuel s tracks s',
        _collect_playlist_tracks fuel pl s = (Return tracks, s') ->
        Forall (fun t => t <> VDict [] /\ is_track_record t
                         /\ exists entry, _extract_track_from_item entry = Ok t)
               tracks).
Proof.
  split; [exact extract_no_payload|].
  intros World pl fuel s tracks s' H.
  eapply Forall_impl; [|eapply collect_tracks_ok; exact H].
  intros t (Ht & entry & He). split; [|split; [|eauto]].
  - intros ->. discriminate.
  - destruct (@extract_shape _ _ He) as [->|Hr]; [discriminate|exact Hr].
Qed.

(** C5 fails as stated: the entry of an unavailable track has a payload
    without any of the fields the extractor reads, and the collector
    emits its record, all of whose fields are empty or absent. *)
Lemma all_empty_record_is_emitted :
  exists t,
    fst (_collect_playlist_tracks 2 (one_chunk_playlist [unavailable_entry])
           (State [] 0 []))
    = Return [t]
    /\ all_fields_empty t = true.
Proof. eexists. split; vm_compute; reflexivity. Qed.

(** ** File names: claims *)

Lemma digits_fuel_digits (fuel : nat) :
  forall n, Forall is_digit (digits_fuel fuel n).
Proof.
  induction fuel as [|fuel IH]; intros n; cbn [digits_fuel]; [constructor|].
  destruct (N.ltb_spec n 10).
  - constructor; [|constructor]. red. lia.
  - apply Forall_app. split; [apply IH|].
    constructor; [|constructor]. red.
    assert (Hr : (n mod 10 < 10)%N) by (apply N.mod_lt; lia).
    revert Hr. generalize (n mod 10)%N. intros r Hr. lia.
Qed.

Lemma digits_fuel_length (fuel : nat) :
  forall (n : N) (k : nat),
    (n < 10 ^ N.of_nat (S k))%N -> length (digits_fuel fuel n) <= S k.
Proof.
  induction fuel as [|fuel IH]; intros n k Hn; cbn [digits_fuel]; [cbn; lia|].
  destruct (N.ltb_spec n 10); [cbn; lia|].
  rewrite length_app. cbn [length].
  destruct k as [|k].
  - cbn in Hn. lia.
  - specialize (IH (n / 10)%N k).
    assert ((n / 10 < 10 ^ N.of_nat (S k))%N).
    { apply N.Div0.div_lt_upper_bound.
      replace (N.of_nat (S (S k))) with (N.succ (N.of_nat (S k))) in Hn by lia.
      rewrite N.pow_succ_r' in Hn. exact Hn. }
    specialize (IH H0). lia.
Qed.

Lemma format_03d_digits (n : N) : Forall is_digit (format_03d n).
Proof.
  unfold format_03d. apply Forall_app. split.
  - apply Forall_forall. intros c Hc. apply repeat_spec in Hc. subst. red. lia.
  - apply digits_fuel_digits.
Qed.

Lemma format_03d_length (n : N) :
  (n <= PY_SSIZE_T_MAX)%N -> length (format_03d n) <= 19.
Proof.
  intros Hn. unfold format_03d. rewrite length_app, repeat_length.
  assert (length (str_of_N n) <= 19).
  { apply (@digits_fuel_length _ n 18). unfold PY_SSIZE_T_MAX in Hn.
    change (10 ^ N.of_nat 19)%N with 10000000000000000000%N. lia. }
  lia.
Qed.

Lemma digit_not_illegal (c : N) : is_digit c -> is_illegal c = false.
Proof.
  unfold is_digit, is_illegal. intros H. cbn.
  repeat match goal with
         | |- context [N.eqb c ?k] => destruct (N.eqb_spec c k); [lia|]
         end.
  reflexivity.
Qed.

Lemma remove_illegal_digits (s : pystr) :
  Forall is_digit s -> remove_illegal s = s.
Proof.
  unfold remove_illegal.
  induction 1 as [|c s Hc _ IH]; cbn [filter]; [reflexivity|].
  rewrite (digit_not_illegal Hc). cbn [negb]. f_equal. exact IH.
Qed.



Section FileName.

Variable World : Type.
Variable Obj : Type.
Variable E : Env World Obj.


End FileName.

(** ** The Tag Embedder: claims *)

Lemma caseless_eqb_lower (a b : pystr) :
  caseless_eqb a b = pystr_eqb (py_lower a) (py_lower b).
Proof.
  revert b; induction a as [|x a IH]; intros [|y b]; cbn; try reflexivity.
  rewrite IH. reflexivity.
Qed.

Lemma caseless_eqb_eq (a b : pystr) :
  caseless_eqb a b = true <-> py_lower a = py_lower b.
Proof.
  rewrite caseless_eqb_lower.
  destruct (pystr_eqb_spec (py_lower a) (py_lower b)); split; congruence.
Qed.

Lemma family_of_lowered (ext : pystr) :
  family_of_extension ext
  = if pystr_eqb (py_lower ext) (lit ".mp3") then FamilyID3
    else if ext_in (py_lower ext) [lit ".m4a"; lit ".mp4"; lit ".aac"] then FamilyMP4
    else if ext_in (py_lower ext) [lit ".opus"] then FamilyOggOpus
    else if ext_in (py_lower ext) [lit ".ogg"] then FamilyOggVorbis
    else Unsupported.
Proof.
  unfold family_of_extension, ext_in. rewrite !caseless_eqb_lower.
  cbn [existsb]. rewrite !orb_false_r, orb_assoc. reflexivity.
Qed.

Section DispatchClaims.

Variable World : Type.
Variable Obj : Type.
Variable E : Env World Obj.

(** C10.  The embedder is a dispatch on the family of the extension of the
    file, a family that does not depend on the case of the letters of the
    extension: [.MP3] is of the ID3 family, as [.mp3] is. *)
Theorem dispatch_ignores_case :
  (forall file_path track cover_bytes s,
      _embed_tags E file_path track cover_bytes s
      = embed_by_family E file_path track cover_bytes s)
  /\ (forall ext1 ext2,
        caseless_eqb ext1 ext2 = true ->
        family_of_extension ext1 = family_of_extension ext2)
  /\ family_of_extension (lit ".MP3") = FamilyID3
  /\ family_of_extension (lit ".mp3") = FamilyID3.
Proof.
  split; [|split; [|split; reflexivity]].
  - intros file_path track cover_bytes s.
    unfold _embed_tags, embed_by_family.
    rewrite family_of_lowered.
    unfold bind.
    destruct (lift (py_get track (lit "name") VNone) s) as [[name|e|] s1]; try reflexivity.
    destruct (lift (py_get track (lit "artists") VNone) s1) as [[artists|e|] s2]; try reflexivity.
    destruct (lift (py_get track (lit "album") VNone) s2) as [[album|e|] s3]; try reflexivity.
    destruct (pystr_eqb _ (lit ".mp3")); [reflexivity|].
    destruct (ext_in _ [lit ".m4a"; lit ".mp4"; lit ".aac"]); [reflexivity|].
    destruct (ext_in _ [lit ".opus"]); [reflexivity|].
    destruct (ext_in _ [lit ".ogg"]); reflexivity.
  - intros ext1 ext2 H. apply caseless_eqb_eq in H.
    rewrite !family_of_lowered, H. reflexivity.
Qed.

(** C8.  On a file whose extension, in lower case, is none of the
    supported ones, the embedder returns without an exception and
    without any call to the outside: the world, hence the bytes of the
    file, and the trace are as they were. *)
Theorem unsupported_extension_is_noop (file_path : pystr)
    (d : list (pystr * value)) (cover_bytes : option bytes)
    (s : state World unit) :
  ~ In (py_lower (snd (splitext file_path))) supported_extensions ->
  _embed_tags E file_path (VDict d) cover_bytes s = (Return tt, s).
Proof.
  intros Hext. unfold _embed_tags. cbn [py_get lift].
  erewrite !run_bind by reflexivity.
  assert (Hneq : forall l, In l supported_extensions ->
                           pystr_eqb (py_lower (snd (splitext file_path))) l = false).
  { intros l Hl. destruct (pystr_eqb_spec (py_lower (snd (splitext file_path))) l);
      [subst; contradiction|reflexivity]. }
  unfold ext_in. cbn [existsb].
  rewrite !Hneq by (cbn; auto 10). reflexivity.
Qed.

End DispatchClaims.

(** ** The Acquisition Orchestrator: claims *)

Ltac emits_step :=
  first
    [ apply emits_ret | apply emits_raise | apply emits_diverge
    | apply emits_lift | apply emits_get_locals | apply emits_set_locals
    | apply emits_emit; try (red; cbn; auto; fail)
    | apply emits_ext; try (red; cbn; auto; fail)
    | apply emits_ext_total; try (red; cbn; auto; fail)
    | apply emits_call
    | apply emits_for_each; intros
    | apply emits_bind; [|intros]
    | apply emits_try_except; [|intros]
    | match goal with
      | |- emits _ (if ?b then _ else _) => destruct b
      | |- emits _ (match ?x with _ => _ end) => destruct x
      end ].

Ltac total_step :=
  first
    [ apply total_ret | apply total_raise
    | apply total_lift | apply total_get_locals | apply total_set_locals
    | apply total_emit | apply total_ext | apply total_ext_total
    | apply total_call
    | apply total_for_each; intros
    | apply total_bind; [|intros]
    | apply total_try_except; [|intros]
    | match goal with
      | |- total (if ?b then _ else _) => destruct b
      | |- total (match ?x with _ => _ end) => destruct x
      end ].

Section CollectorEvents.

Variable World : Type.
Variable pl : PublicPlaylist World.

Lemma emits_extend_tracks Q (items : value) :
  emits Q (@extend_tracks World items).
Proof. unfold extend_tracks, append_track. repeat emits_step. Qed.

Lemma emits_paginate_loop (fuel : nat) :
  emits prelude_event (paginate_loop fuel pl).
Proof.
  induction fuel as [|fuel IH]; cbn [paginate_loop]; [apply emits_diverge|].
  apply emits_bind; [apply emits_ext; split; reflexivity|].
  intros [chunk|]; [|apply emits_ret].
  apply emits_bind; [apply emits_lift|]. intros items.
  apply emits_bind; [apply emits_extend_tracks|]. intros _. exact IH.
Qed.

Lemma emits_fallback_loop (fuel : nat) :
  forall offset, emits prelude_event (fallback_loop fuel pl offset).
Proof.
  induction fuel as [|fuel IH]; intros offset; cbn [fallback_loop];
    [apply emits_diverge|].
  apply emits_bind.
  - unfold fallback_round.
    apply emits_try_except; [|intros; apply emits_ret].
    apply emits_bind; [apply emits_ext; split; reflexivity|]. intros info.
    apply emits_bind; [apply emits_lift|]. intros items.
    destruct (negb (truthy items)); [apply emits_ret|].
    apply emits_bind; [apply emits_extend_tracks|]. intros _.
    repeat emits_step.
  - intros [|]; [apply emits_ret|apply IH].
Qed.

Lemma emits_collect (fuel : nat) :
  emits prelude_event (_collect_playlist_tracks fuel pl).
Proof.
  unfold _collect_playlist_tracks, primary_path.
  apply emits_bind; [apply emits_set_locals|]. intros _.
  apply emits_bind.
  - apply emits_try_except; [|intros; apply emits_ret].
    apply emits_bind; [apply emits_ext; split; reflexivity|]. intros _.
    apply emits_bind; [apply emits_paginate_loop|]. intros _.
    repeat emits_step.
  - intros [tracks|]; [apply emits_ret|].
    apply emits_bind; [apply emits_fallback_loop|]. intros _.
    apply emits_get_locals.
Qed.

End CollectorEvents.

Section OrchestratorEvents.

Variable World : Type.
Variable Obj : Type.
Variable E : Env World Obj.

Lemma emits_download_cover {L} (url : value) :
  emits loop_event (@_download_cover World Obj E L url).
Proof. unfold _download_cover. repeat emits_step. Qed.

Lemma emits_embed_tags (file_path : pystr) (track : value) (cover : option bytes) :
  emits loop_event (_embed_tags E file_path track cover).
Proof.
  unfold _embed_tags, embed_mp3, embed_mp4, embed_ogg, try_except_class.
  repeat emits_step.
Qed.

Lemma total_download_cover {L} (url : value) :
  total (@_download_cover World Obj E L url).
Proof. unfold _download_cover. repeat total_step. Qed.

Lemma total_embed_tags (file_path : pystr) (track : value) (cover : option bytes) :
  total (_embed_tags E file_path track cover).
Proof.
  unfold _embed_tags, embed_mp3, embed_mp4, embed_ogg, try_except_class.
  repeat total_step.
Qed.

Lemma emits_download_track args out_dir total idx track :
  emits loop_event (download_track E args out_dir total idx track).
Proof.
  unfold download_track, record_failure, print, print_err.
  apply emits_bind; [apply emits_lift|]. intros name.
  apply emits_bind; [apply emits_lift|]. intros artists.
  apply emits_bind; [apply emits_lift|]. intros cover_url.
  apply emits_bind; [apply emits_download_cover|]. intros cover_bytes.
  apply emits_bind; [apply emits_emit; reflexivity|]. intros _.
  apply emits_try_except; [|intros; repeat emits_step].
  apply emits_bind; [apply emits_ext; reflexivity|]. intros rc.
  destruct (negb _); [repeat emits_step|].
  apply emits_bind; [apply emits_ext; reflexivity|]. intros [|target rest].
  - repeat emits_step.
  - apply emits_try_except; [|intros; repeat emits_step].
    apply emits_call. apply emits_embed_tags.
Qed.

Lemma total_download_track args out_dir n idx track :
  total (download_track E args out_dir n idx track).
Proof.
  unfold download_track, record_failure, print, print_err.
  apply total_bind; [apply total_lift|]. intros name.
  apply total_bind; [apply total_lift|]. intros artists.
  apply total_bind; [apply total_lift|]. intros cover_url.
  apply total_bind; [apply total_download_cover|]. intros cover_bytes.
  apply total_bind; [apply total_emit|]. intros _.
  apply total_try_except; [|intros; repeat total_step].
  apply total_bind; [apply total_ext|]. intros rc.
  destruct (negb _); [repeat total_step|].
  apply total_bind; [apply total_ext|]. intros [|target rest].
  - repeat total_step.
  - apply total_try_except; [|intros; repeat total_step].
    apply total_call. apply total_embed_tags.
Qed.


Lemma path_join_literals (out_dir : pystr) :
  path_join out_dir (lit "metadata.json") <> path_join out_dir (lit "failed.json").
Proof.
  unfold path_join. cbn [strip_prefix lit map list_ascii_of_string].
  change (N.eqb (N_of_ascii "/") (N_of_ascii "m")) with false.
  change (N.eqb (N_of_ascii "/") (N_of_ascii "f")) with false.
  cbv iota.
  destruct (rev out_dir) as [|last ?]; [|destruct (N.eqb last 47)];
    intros H; repeat apply app_inv_head in H; discriminate H.
Qed.

Lemma download_after_two (a b : event) (rest pre post : list event) (ev : event) :
  a :: b :: rest = pre ++ ev :: post ->
  is_download a = false -> is_download b = false -> is_download ev = true ->
  In b pre.
Proof.
  intros H Ha Hb Hev.
  destruct pre as [|x [|y pre]]; cbn in H; inversion H; subst; try congruence.
  cbn. auto.
Qed.

Lemma split_after_quiet (l1 l2 pre post : list event) (ev : event) :
  l1 ++ l2 = pre ++ ev :: post ->
  Forall (fun x => is_download x = false) l1 ->
  is_download ev = true ->
  exists pre', pre = l1 ++ pre' /\ l2 = pre' ++ ev :: post.
Proof.
  revert pre. induction l1 as [|x l1 IH]; intros pre H Hq Hev.
  - exists pre. auto.
  - inversion Hq as [|? ? Hx Hq']; subst.
    destruct pre as [|y pre]; cbn in H; inversion H; subst; [congruence|].
    destruct (IH pre H2 Hq' Hev) as (pre' & -> & ->).
    exists pre'. auto.
Qed.

Lemma export_tracks_shown (args : Args) (tracks : list value)
    (s : state World (list failure)) :
  exists evs,
    trace (snd (export_tracks E args tracks s)) = trace s ++ evs
    /\ export_shown args tracks (fst (export_tracks E args tracks s))
         (locals (snd (export_tracks E args tracks s))) evs.
Proof.
  destruct s as [l w tr]. unfold export_tracks, print.
  set (out := output args).
  set (meta := path_join out (lit "metadata.json")).
  set (body := fun it : N * value => download_track E args out (length tracks) (fst it) (snd it)).
  assert (Hstart : forall rest r failed,
             (forall z, r <> Return z) ->
             export_shown args tracks r failed
               (EvMakedirs out :: EvWriteJson meta (VList tracks) :: rest)).
  { intros rest r failed Hr. split.
    - intros pre ev post H Hev.
      eapply download_after_two; eauto.
    - intros z Hz. destruct (Hr z Hz). }
  destruct (os_makedirs E out w) as [[[]|e] w1] eqn:H1.
  2:{ erewrite run_bind_throw by (apply run_ext_raise; exact H1).
      cbn [fst snd trace locals]. eexists. split; [reflexivity|]. split.
      - intros [|? [|? ?]] ev post H Hev; cbn in H; inversion H; subst; discriminate.
      - intros z Hz; discriminate. }
  erewrite run_bind by (apply run_ext_ok; exact H1). cbn [locals world trace].
  destruct (write_json E meta (VList tracks) w1) as [[[]|e] w2] eqn:H2.
  2:{ erewrite run_bind_throw by (apply run_ext_raise; exact H2).
      cbn [fst snd trace locals]. rewrite <- app_assoc. cbn [app].
      eexists. split; [reflexivity|]. apply Hstart. discriminate. }
  erewrite run_bind by (apply run_ext_ok; exact H2). cbn [locals world trace].
  erewrite run_bind by reflexivity. cbn [locals world trace].
  erewrite run_bind by reflexivity. cbn [locals world trace].
  rewrite <- !app_assoc. cbn [app].
  match goal with
  | |- context [bind (for_each ?xs ?b) ?k ?s0] =>
    destruct (emits_for_each (enumerate 1 tracks) body
                (fun x => emits_download_track args out (length tracks) (fst x) (snd x)) s0)
      as (levs & Hlt & Hlq);
      change b with body;
      destruct (for_each xs body s0) as [[[]|e|] [failed w5 tr5]] eqn:Hloop
  end; cbn [snd trace] in Hlt; subst tr5.
  2:{ erewrite run_bind_throw by exact Hloop. cbn [fst snd trace locals].
      rewrite <- app_assoc. cbn [app].
      eexists. split; [reflexivity|]. apply Hstart. discriminate. }
  2:{ erewrite run_bind_diverge by exact Hloop. cbn [fst snd trace locals].
      rewrite <- app_assoc. cbn [app].
      eexists. split; [reflexivity|]. apply Hstart. discriminate. }
  erewrite run_bind by exact Hloop.
  erewrite run_bind by reflexivity. cbn [locals world trace].
  erewrite run_bind by reflexivity. cbn [locals world trace].
  assert (Hno : forall content rest,
             Forall (fun ev => is_json_write ev = false) rest ->
             ~ In (EvWriteJson (fail_file_of args) content)
                  (EvMakedirs out :: EvWriteJson meta (VList tracks)
                     :: EvPrint false (lit "Metadata saved to " ++ meta) :: levs ++ rest)).
  { intros content rest Hrest [H|[H|[H|H]]]; try discriminate.
    - inversion H as [[Hp Hc]]. apply (path_join_literals out). exact Hp.
    - apply in_app_or in H as [H|H].
      + rewrite Forall_forall in Hlq. specialize (Hlq _ H). discriminate.
      + rewrite Forall_forall in Hrest. specialize (Hrest _ H). discriminate. }
  destruct failed as [|f fs].
  - erewrite run_bind by reflexivity. cbn [fst snd trace locals ret].
    rewrite <- !app_assoc. cbn [app].
    eexists. split; [reflexivity|]. split.
    + intros pre ev post H Hev. eapply download_after_two; eauto.
    + intros z _. split; [split|].
      * intros (content & Hin). exfalso. eapply Hno; [|exact Hin].
        repeat constructor.
      * congruence.
      * intros content Hin. exfalso. eapply Hno; [|exact Hin].
        repeat constructor.
  - set (fail := path_join out (lit "failed.json")).
    set (report := VList (map failure_record (f :: fs))).
    destruct (write_json E fail report w5) as [[[]|e] w6] eqn:H6.
    2:{ erewrite run_bind_throw.
        2:{ erewrite run_bind_throw by (apply run_ext_raise; exact H6). reflexivity. }
        cbn [fst snd trace locals]. rewrite <- !app_assoc. cbn [app].
        eexists. split; [reflexivity|]. apply Hstart. discriminate. }
    erewrite run_bind.
    2:{ erewrite run_bind by (apply run_ext_ok; exact H6). reflexivity. }
    cbn [fst snd trace locals ret]. rewrite <- !app_assoc. cbn [app].
    eexists. split; [reflexivity|]. split.
    + intros pre ev post H Hev. eapply download_after_two; eauto.
    + intros z _. split; [split|].
      * discriminate.
      * intros _. exists report. right. right. right.
        apply in_or_app. right. cbn. auto.
      * intros content [H|[H|[H|H]]]; try discriminate.
        { inversion H as [[Hp Hc]]. destruct (path_join_literals out Hp). }
        apply in_app_or in H as [H|H].
        { rewrite Forall_forall in Hlq. specialize (Hlq _ H). discriminate. }
        destruct H as [H|[H|[H|[]]]]; try discriminate.
        inversion H. reflexivity.
Qed.


Lemma quiet_run_shown (args : Args) (evs : list event) (r : outcome Z) :
  Forall prelude_event evs ->
  (forall pre ev post,
      evs = pre ++ ev :: post -> is_download ev = true -> False)
  /\ (forall content, ~ In (EvWriteJson (fail_file_of args) content) evs).
Proof.
  intros Hq. rewrite Forall_forall in Hq. split.
  - intros pre ev post -> Hev.
    destruct (Hq ev) as [_ H]; [apply in_or_app; right; left; reflexivity|].
    congruence.
  - intros content Hin. destruct (Hq _ Hin) as [H _]. discriminate.
Qed.



(** *** One track *)

Lemma download_cover_returns {L} (url : value) (s : state World L) :
  exists c s',
    _download_cover E url s = (Return c, s')
    /\ locals s' = locals s
    /\ exists evs, trace s' = trace s ++ evs.
Proof.
  destruct s as [l w tr]. unfold _download_cover.
  destruct (negb (truthy url)).
  - exists None. eexists. split; [reflexivity|]. split; [reflexivity|].
    exists []. cbn. rewrite app_nil_r. reflexivity.
  - unfold try_except, bind, ext. cbn [world locals trace].
    destruct (requests_get E url 10 w) as [[resp|e] w1].
    + destruct (Z.eqb (fst resp) 200); do 2 eexists;
        (split; [reflexivity|]); (split; [reflexivity|]); eexists; reflexivity.
    + do 2 eexists.
      (split; [reflexivity|]); (split; [reflexivity|]); eexists; reflexivity.
Qed.

Lemma embed_attempt_returns {L} (target_file : pystr) (track : value)
    (cover : option bytes) (s : state World L) :
  exists s',
    try_except
      (call tt (_embed_tags E target_file track cover))
      (fun e =>
         print_err (warning_sign ++ lit "Tagging failed for "
                      ++ target_file ++ lit ": " ++ exn_msg e)) s
    = (Return tt, s')
    /\ locals s' = locals s
    /\ exists evs, trace s' = trace s ++ evs.
Proof.
  pose proof (total_call (L := L) tt (total_embed_tags target_file track cover) s) as Htot.
  destruct (emits_call (L := L) tt (emits_embed_tags target_file track cover) s)
    as (evs & Ht & _).
  assert (Hl : locals (snd (call tt (_embed_tags E target_file track cover) s)) = locals s).
  { unfold call. destruct (_embed_tags _ _ _ _ _). reflexivity. }
  unfold try_except.
  destruct (call tt (_embed_tags E target_file track cover) s) as [[[]|e|] s1];
    cbn [fst snd] in *.
  - eauto.
  - unfold print_err, emit. eexists. split; [reflexivity|].
    cbn [locals trace]. split; [exact Hl|]. rewrite Ht, <- app_assoc. eauto.
  - congruence.
Qed.

Lemma download_track_succeeds (args : Args) (n : nat) (idx : N)
    (d : list (pystr * value)) (s : state World (list failure)) :
  always_returns (subprocess_run E (track_cmd E args idx (VDict d)) 60)
                 (fun returncode => returncode = 0%Z) ->
  always_returns (glob_glob E (track_pattern E args idx (VDict d)))
                 (fun candidates => candidates <> []) ->
  exists s',
    download_track E args (output args) n idx (VDict d) s = (Return tt, s')
    /\ locals s' = locals s
    /\ exists evs, trace s' = trace s ++ evs.
Proof.
  intros Hrun Hglob. unfold download_track, track_cmd, track_pattern, field_of in *.
  cbn [py_get lift] in *.
  erewrite !run_bind by reflexivity.
  match goal with
  | |- context [bind (_download_cover E ?url) _ ?s0] =>
    destruct (download_cover_returns url s0) as (c & s1 & Hc & Hl1 & evs1 & Ht1)
  end.
  erewrite run_bind by exact Hc.
  erewrite run_bind by reflexivity.
  destruct (Hrun (world s1)) as (rc & w2 & Hw2 & ->).
  destruct (Hglob w2) as (cands & w3 & Hw3 & Hne).
  destruct cands as [|target rest]; [congruence|].
  match goal with
  | |- context [try_except ?m ?h ?s0] =>
    assert (Hbody : exists s', m s0 = (Return tt, s') /\ locals s' = locals s
                               /\ exists evs, trace s' = trace s ++ evs)
  end.
  { erewrite run_bind by (apply run_ext_ok; exact Hw2).
    cbn [negb Z.eqb locals world trace].
    erewrite run_bind by (apply run_ext_ok; exact Hw3).
    cbn [locals world trace].
    match goal with
    | |- context [try_except ?m ?h ?s0] =>
      destruct (embed_attempt_returns target (VDict d) c s0) as (s4 & H4 & Hl4 & evs4 & Ht4)
    end.
    exists s4. split; [exact H4|]. cbn [locals trace] in Hl4, Ht4.
    split; [congruence|].
    rewrite Ht4, Ht1, <- !app_assoc. eauto. }
  destruct Hbody as (s' & Hs' & Hl' & Ht').
  exists s'. split; [|auto].
  apply run_try_return. exact Hs'.
Qed.

Lemma download_track_tool_error (args : Args) (n : nat) (idx : N)
    (d : list (pystr * value)) (s : state World (list failure)) :
  always_returns (subprocess_run E (track_cmd E args idx (VDict d)) 60)
                 (fun returncode => returncode <> 0%Z) ->
  exists s',
    download_track E args (output args) n idx (VDict d) s = (Return tt, s')
    /\ locals s'
       = locals s ++ [(field_of (VDict d) "name", field_of (VDict d) "artists",
                       lit "yt-dlp error")]
    /\ exists evs, trace s' = trace s ++ evs.
Proof.
  intros Hrun. unfold download_track, track_cmd, field_of in *.
  cbn [py_get lift] in *.
  erewrite !run_bind by reflexivity.
  match goal with
  | |- context [bind (_download_cover E ?url) _ ?s0] =>
    destruct (download_cover_returns url s0) as (c & s1 & Hc & Hl1 & evs1 & Ht1)
  end.
  erewrite run_bind by exact Hc.
  erewrite run_bind by reflexivity.
  destruct (Hrun (world s1)) as (rc & w2 & Hw2 & Hrc).
  eexists. split.
  - apply run_try_return.
    erewrite run_bind by (apply run_ext_ok; exact Hw2).
    cbn [locals world trace].
    replace (negb (Z.eqb rc 0)) with true
      by (symmetry; apply negb_true_iff, Z.eqb_neq; exact Hrc).
    reflexivity.
  - cbn [locals trace]. split; [rewrite Hl1; reflexivity|].
    rewrite Ht1, <- !app_assoc. eauto.
Qed.


Lemma collected_is_record (fuel : nat) (pl : PublicPlaylist World)
    (c c' : state World (list value)) (tracks : list value) :
  _collect_playlist_tracks fuel pl c = (Return tracks, c') ->
  Forall (fun t => exists d, t = VDict d) tracks.
Proof.
  intros H. eapply Forall_impl; [|eapply collect_tracks_ok; exact H].
  intros t (Ht & entry & He).
  destruct (@extract_shape _ _ He) as [->|Hr]; [discriminate|].
  destruct Hr as (? & ? & ? & ? & ? & ? & ? & ->). eauto.
Qed.

(** C1, as the code has it.  In a run over five collected tracks in
    which the tool exits with a code other than 0 for the third track
    only, and its file is found for the four others, the command returns
    0, the summary line reads 4/5, the failure report holds exactly the
    record of the third track, with the reason [yt-dlp error], and the
    metadata file lists the five tracks. *)
Theorem one_tool_failure_of_five (fuel : nat) (args : Args)
    (pl : PublicPlaylist World) (t1 t2 t3 t4 t5 : value)
    (w : World) (tr : list event) :
  (forall w0, fst (shutil_which E (lit "yt-dlp") w0) <> None) ->
  always_returns (new_PublicPlaylist E (playlist args)) (fun p => p = pl) ->
  (forall c, exists c',
      _collect_playlist_tracks fuel pl c = (Return [t1; t2; t3; t4; t5], c')) ->
  always_returns (os_makedirs E (output args)) (fun _ => True) ->
  (forall path content,
      always_returns (write_json E path content) (fun _ => True)) ->
  (forall i t, nth_error [t1; t2; t3; t4; t5] i = Some t ->
      always_returns (subprocess_run E (track_cmd E args (N.of_nat (S i)) t) 60)
                     (fun returncode => returncode <> 0%Z <-> i = 2)) ->
  (forall i t, nth_error [t1; t2; t3; t4; t5] i = Some t -> i <> 2 ->
      always_returns (glob_glob E (track_pattern E args (N.of_nat (S i)) t))
                     (fun candidates => candidates <> [])) ->
  exists s',
    cmd_export_playlist_with_audio E fuel args (State [] w tr) = (Return 0%Z, s')
    /\ In (EvPrint false ([10%N] ++ lit "Download complete. 4/5 succeeded."))
          (trace s')
    /\ locals s' = [(field_of t3 "name", field_of t3 "artists", lit "yt-dlp error")]
    /\ In (EvWriteJson (fail_file_of args)
             (VList [VDict [ (lit "name", field_of t3 "name");
                             (lit "artists", field_of t3 "artists");
                             (lit "reason", VStr (lit "yt-dlp error")) ]]))
          (trace s')
    /\ In (EvWriteJson (meta_file_of args) (VList [t1; t2; t3; t4; t5])) (trace s').
Proof.
  intros Hwhich Hnew Hcollect Hmk Hwrite Htool Hglob.
  destruct (Hcollect (State [] w [])) as (c0 & Hc0).
  pose proof (collected_is_record _ _ _ Hc0) as Hrec.
  apply Forall_cons_iff in Hrec as [(d1 & ->) Hrec].
  apply Forall_cons_iff in Hrec as [(d2 & ->) Hrec].
  apply Forall_cons_iff in Hrec as [(d3 & ->) Hrec].
  apply Forall_cons_iff in Hrec as [(d4 & ->) Hrec].
  apply Forall_cons_iff in Hrec as [(d5 & ->) _].
  clear c0 Hc0.
  set (tracks := [VDict d1; VDict d2; VDict d3; VDict d4; VDict d5]) in *.
  (* the outcomes of the tool and of the search for the file *)
  assert (Hok : forall i d, nth_error tracks i = Some (VDict d) -> i <> 2 ->
                forall n s, exists s',
                  download_track E args (output args) n (N.of_nat (S i)) (VDict d) s
                  = (Return tt, s')
                  /\ locals s' = locals s
                  /\ exists evs, trace s' = trace s ++ evs).
  { intros i d Hi Hne n s. apply download_track_succeeds.
    - intros w0. destruct (Htool i _ Hi w0) as (rc & w' & Hw' & Hrc).
      exists rc, w'. split; [exact Hw'|].
      destruct (Z.eq_dec rc 0) as [|Hnz]; [assumption|].
      apply Hrc in Hnz. contradiction.
    - apply Hglob; assumption. }
  assert (Hbad : forall n s, exists s',
                  download_track E args (output args) n 3 (VDict d3) s
                  = (Return tt, s')
                  /\ locals s'
                     = locals s ++ [(field_of (VDict d3) "name",
                                     field_of (VDict d3) "artists",
                                     lit "yt-dlp error")]
                  /\ exists evs, trace s' = trace s ++ evs).
  { intros n s. apply download_track_tool_error.
    intros w0. destruct (Htool 2 _ eq_refl w0) as (rc & w' & Hw' & Hrc).
    exists rc, w'. split; [exact Hw'|]. apply Hrc. reflexivity. }
  unfold cmd_export_playlist_with_audio.
  destruct (shutil_which E (lit "yt-dlp") w) as [found w1] eqn:Hw1.
  pose proof (Hwhich w) as Hfound. rewrite Hw1 in Hfound. cbn [fst] in Hfound.
  destruct found as [path|]; [|congruence].
  erewrite run_bind by (apply run_ext_total; exact Hw1).
  cbn [locals world trace].
  destruct (Hnew w1) as (p & w2 & Hw2 & ->).
  erewrite run_bind by (apply run_ext_ok; exact Hw2).
  cbn [locals world trace].
  match goal with
  | |- context [bind (call ?init ?m) _ ?s0] =>
    destruct (Hcollect (State init (world s0) (trace s0))) as (c' & Hc');
      destruct (emits_collect pl fuel (State init (world s0) (trace s0)))
        as (cevs & Hct & _);
      rewrite Hc' in Hct; cbn [snd trace world] in Hct, Hc';
      assert (Hcall : call init m s0
                      = (Return tracks, State (locals s0) (world c') (trace c')))
        by (unfold call; cbn [locals world trace]; rewrite Hc'; reflexivity)
  end.
  erewrite run_bind by exact Hcall. cbn [locals]. rewrite Hct.
  unfold tracks at 1. cbv iota.
  unfold export_tracks.
  destruct (Hmk (world c')) as ([] & w3 & Hw3 & _).
  erewrite run_bind by (apply run_ext_ok; exact Hw3).
  cbn [locals world trace].
  destruct (Hwrite (path_join (output args) (lit "metadata.json")) (VList tracks) w3)
    as ([] & w4 & Hw4 & _).
  erewrite run_bind by (apply run_ext_ok; exact Hw4).
  cbn [locals world trace].
  erewrite run_bind by reflexivity. cbn [locals world trace].
  erewrite run_bind by reflexivity. cbn [locals world trace].
  match goal with
  | |- context [bind (for_each ?xs ?body) _ ?s0] =>
    assert (Hloop : exists s9,
               for_each xs body s0 = (Return tt, s9)
               /\ locals s9 = [(field_of (VDict d3) "name",
                                field_of (VDict d3) "artists", lit "yt-dlp error")]
               /\ exists evs, trace s9 = trace s0 ++ evs)
  end.
  { cbn [enumerate for_each tracks fst snd length].
    match goal with
    | |- context [bind (download_track E args ?o ?n _ _) _ ?s0] =>
      destruct (Hok 0 d1 eq_refl ltac:(discriminate) n s0) as (s5 & H5 & Hl5 & e5 & Ht5)
    end.
    change (N.of_nat 1) with 1%N in H5.
    erewrite run_bind by exact H5.
    destruct (Hok 1 d2 eq_refl ltac:(discriminate) 5 s5) as (s6 & H6 & Hl6 & e6 & Ht6).
    change (N.of_nat 2) with 2%N in H6.
    erewrite run_bind by exact H6.
    destruct (Hbad 5 s6) as (s7 & H7 & Hl7 & e7 & Ht7).
    erewrite run_bind by exact H7.
    destruct (Hok 3 d4 eq_refl ltac:(discriminate) 5 s7) as (s8 & H8 & Hl8 & e8 & Ht8).
    change (N.of_nat 4) with 4%N in H8.
    erewrite run_bind by exact H8.
    destruct (Hok 4 d5 eq_refl ltac:(discriminate) 5 s8) as (s9 & H9 & Hl9 & e9 & Ht9).
    change (N.of_nat 5) with 5%N in H9.
    erewrite run_bind by exact H9.
    exists s9. split; [reflexivity|]. split.
    - rewrite Hl9, Hl8, Hl7, Hl6, Hl5. reflexivity.
    - rewrite Ht9, Ht8, Ht7, Ht6, Ht5, <- !app_assoc. eauto. }
  destruct Hloop as ([l9 w9 tr9] & Hloop & Hl9 & evs & Ht9).
  cbn [locals trace] in Hl9, Ht9. subst l9 tr9.
  erewrite run_bind by exact Hloop.
  erewrite run_bind by reflexivity. cbn [locals world trace].
  erewrite run_bind by reflexivity. cbn [locals world trace].
  match goal with
  | |- context [write_json E ?p ?v] =>
    destruct (Hwrite p v w9) as ([] & w10 & Hw10 & _)
  end.
  erewrite run_bind.
  2:{ erewrite run_bind by (apply run_ext_ok; exact Hw10). reflexivity. }
  cbn [locals world trace ret].
  eexists. split; [reflexivity|]. cbn [trace locals].
  match goal with
  | |- context [EvPrint false ([10%N] ++ lit "Download complete. " ++ ?y)] =>
    change ([10%N] ++ lit "Download complete. " ++ y)
      with ([10%N] ++ lit "Download complete. 4/5 succeeded.")
  end.
  unfold fail_file_of, meta_file_of. cbn [map failure_record].
  rewrite !in_app_iff. cbn [In].
  split; [auto 20|]. split; [reflexivity|]. split; auto 20.
Qed.

End OrchestratorEvents.

(** ** Entries with a payload *)

Lemma has_payload_carries (entries : list value) :
  forallb has_payload entries = true -> Forall carries_payload entries.
Proof.
  intros H. apply Forall_forall. intros entry Hin.
  rewrite forallb_forall in H. specialize (H entry Hin).
  unfold has_payload in H. unfold carries_payload.
  destruct (_extract_track_from_item entry) as [t|e]; [eauto|discriminate].
Qed.

(** C1 fails as stated: in the run over five tracks in which the tool
    exits with code 1 for the third one, the reason the failure report
    gives is [yt-dlp error], not [tool error]. *)
Lemma reason_is_not_tool_error :
  fst five_run = Return 0%Z
  /\ reported_reasons (fail_file_of five_args) (trace (snd five_run))
     = [VStr (lit "yt-dlp error")]
  /\ VStr (lit "yt-dlp error") <> VStr (lit "tool error").
Proof.
  split; [vm_compute; reflexivity|]. split; [vm_compute; reflexivity|].
  vm_compute. discriminate.
Qed.

(** ** The claims on concrete inputs *)

Lemma one_tool_failure_of_five_witness :
  exists s',
    five_run = (Return 0%Z, s')
    /\ In (EvPrint false ([10%N] ++ lit "Download complete. 4/5 succeeded."))
          (trace s')
    /\ locals s' = [(VStr (lit "c"), VStr (lit "C"), lit "yt-dlp error")]
    /\ In (EvWriteJson (lit "out/failed.json")
             (VList [VDict [ (lit "name", VStr (lit "c"));
                             (lit "artists", VStr (lit "C"));
                             (lit "reason", VStr (lit "yt-dlp error")) ]]))
          (trace s')
    /\ In (EvWriteJson (lit "out/metadata.json") (VList five_tracks)) (trace s').
Proof.
  apply (@one_tool_failure_of_five unit unit five_env 1 five_args five_playlist
           (nth 0 five_tracks VNone) (nth 1 five_tracks VNone)
           (nth 2 five_tracks VNone) (nth 3 five_tracks VNone)
           (nth 4 five_tracks VNone) tt []).
  - intros w0. discriminate.
  - intros w0. exists five_playlist, w0. split; reflexivity.
  - intros [l [] tr]. eexists. reflexivity.
  - intros w0. exists tt, w0. split; [reflexivity|exact I].
  - intros path content w0. exists tt, w0. split; [reflexivity|exact I].
  - intros i t Hi w0.
    destruct i as [|[|[|[|[|i]]]]]; cbn in Hi; inversion Hi; subst;
      try (destruct i; discriminate);
      eexists _, w0; (split; [reflexivity|]); vm_compute; split; intros H;
      first [ reflexivity | discriminate H | discriminate
            | exfalso; apply H; reflexivity ].
  - intros i t Hi Hne w0.
    destruct i as [|[|[|[|[|i]]]]]; cbn in Hi; inversion Hi; subst;
      try (destruct i; discriminate);
      eexists _, w0; (split; [reflexivity|]); discriminate.
Defined.

Lemma collect_never_raises_witness :
  fst (_collect_playlist_tracks 2 failing_playlist (State [] 0 []))
  = Return (extracted [entry_of "a" "A"; entry_of "b" "B"] ++ extracted []).
Proof.
  apply (proj2 (@collect_never_raises nat failing_playlist 2 (State [] 0 []))
               [response_of [entry_of "a" "A"; entry_of "b" "B"]]
               [[entry_of "a" "A"; entry_of "b" "B"]]
               some_error 2 [] 2 some_error 2).
  - right. exists 0, 1. split; [reflexivity|]. split; [|reflexivity].
    exists 1. split; reflexivity.
  - constructor; [reflexivity|constructor].
  - reflexivity.
  - simpl. lia.
  - reflexivity.
  - constructor.
  - reflexivity.
  - reflexivity.
  - simpl. lia.
Defined.

Lemma primary_is_authoritative_witness :
  exists evs,
    _collect_playlist_tracks 2
      (one_chunk_playlist [entry_of "a" "A"; entry_of "b" "B"]) (State [] 0 [])
    = (Return (extracted [entry_of "a" "A"; entry_of "b" "B"]),
       State (extracted [entry_of "a" "A"; entry_of "b" "B"]) 2 ([] ++ evs))
    /\ Forall (fun ev => is_fallback_request ev = false) evs.
Proof.
  apply (@primary_is_authoritative nat
           (one_chunk_playlist [entry_of "a" "A"; entry_of "b" "B"]) 2
           (State [] 0 [])
           [response_of [entry_of "a" "A"; entry_of "b" "B"]]
           [[entry_of "a" "A"; entry_of "b" "B"]] 2).
  - exists 0, 1. split; [reflexivity|]. split; [|reflexivity].
    exists 1. split; reflexivity.
  - constructor; [reflexivity|constructor].
  - reflexivity.
  - vm_compute. discriminate.
  - simpl. lia.
Defined.

Lemma fallback_collects_340_witness :
  exists tracks,
    _collect_playlist_tracks 4 long_playlist (State [] tt [])
    = (Return tracks,
       State tracks tt
             ([] ++ primary_events long_playlist tt []
                ++ [EvGetPlaylistInfo 100 0; EvGetPlaylistInfo 100 100;
                    EvGetPlaylistInfo 100 200; EvGetPlaylistInfo 100 300]))
    /\ length tracks = 340
    /\ Forall2 (fun entry t => _extract_track_from_item entry = Ok t)
               (batch_at 0 100 ++ batch_at 100 100 ++ batch_at 200 100
                  ++ batch_at 300 40) tracks.
Proof.
  apply (@fallback_collects_340 unit long_playlist 4 (State [] tt [])
           [] [] some_error tt
           (batch_at 0 100) (batch_at 100 100) (batch_at 200 100)
           (batch_at 300 40) tt).
  - left. split; reflexivity.
  - constructor.
  - reflexivity.
  - reflexivity.
  - simpl. lia.
  - exists (response_of (batch_at 0 100)), tt.
    split; [reflexivity|]. split; [reflexivity|].
    exists (response_of (batch_at 100 100)), tt.
    split; [reflexivity|]. split; [reflexivity|].
    exists (response_of (batch_at 200 100)), tt.
    split; [reflexivity|]. split; [reflexivity|].
    exists (response_of (batch_at 300 40)), tt.
    split; [reflexivity|]. split; reflexivity.
  - reflexivity.
  - reflexivity.
  - reflexivity.
  - reflexivity.
  - apply has_payload_carries. vm_compute. reflexivity.
  - lia.
Defined.

Lemma empty_results_are_skipped_witness :
  _extract_track_from_item (VDict [ (lit "itemV2", VDict [ (lit "data", VNone) ]) ])
  = Ok (VDict [])
  /\ Forall (fun t => t <> VDict [] /\ is_track_record t
                      /\ exists entry, _extract_track_from_item entry = Ok t)
            (extracted [entry_of "a" "A"; VDict []; entry_of "b" "B"]).
Proof.
  split.
  - apply (proj1 empty_results_are_skipped).
    eexists. split; [reflexivity|]. reflexivity.
  - apply (proj2 empty_results_are_skipped nat
             (one_chunk_playlist [entry_of "a" "A"; VDict []; entry_of "b" "B"])
             2 (State [] 0 [])
             (extracted [entry_of "a" "A"; VDict []; entry_of "b" "B"])
             (State (extracted [entry_of "a" "A"; VDict []; entry_of "b" "B"]) 2
                    [EvPaginate; EvPaginateNext; EvPaginateNext])).
    reflexivity.
Defined.


Lemma unsupported_extension_is_noop_witness :
  ~ In (py_lower (snd (splitext (lit "out/001_a.WAV")))) supported_extensions
  /\ _embed_tags five_env (lit "out/001_a.WAV") (nth 0 five_tracks VNone)
       (Some [255%N; 216%N]) (State tt tt [])
     = (Return tt, State tt tt []).
Proof.
  assert (H : ~ In (py_lower (snd (splitext (lit "out/001_a.WAV"))))
                   supported_extensions).
  { vm_compute. intros [H|[H|[H|[H|[H|[H|[]]]]]]]; discriminate H. }
  split; [exact H|].
  apply (@unsupported_extension_is_noop unit unit five_env (lit "out/001_a.WAV")
           _ (Some [255%N; 216%N]) (State tt tt []) H).
Defined.

Lemma partial_primary_is_kept_witness :
  exists l1 l2 l3,
    fst (_collect_playlist_tracks 2 flaky_playlist (State [] 0 []))
    = Return (l1 ++ nth 0 five_tracks VNone :: l2 ++ nth 0 five_tracks VNone :: l3).
Proof.
  destruct (@partial_primary_is_kept nat flaky_playlist 2 (State [] 0 [])
              [response_of [entry_of "a" "A"; entry_of "b" "B"]]
              [[entry_of "a" "A"; entry_of "b" "B"]]
              some_error 2
              (extracted [entry_of "a" "A"; entry_of "b" "B"; entry_of "c" "C"])
              2 [EvGetPlaylistInfo limit 0])
    as (Hrun & _ & Hdup).
  - right. exists 0, 1. split; [reflexivity|]. split; [|reflexivity].
    exists 1. split; reflexivity.
  - constructor; [reflexivity|constructor].
  - reflexivity.
  - vm_compute. discriminate.
  - simpl. lia.
  - reflexivity.
  - destruct (Hdup (nth 0 five_tracks VNone)) as (l1 & l2 & l3 & Heq).
    + left. reflexivity.
    + left. reflexivity.
    + exists l1, l2, l3. rewrite Hrun. cbn [fst]. rewrite Heq. reflexivity.
Defined.

Lemma dispatch_ignores_case_witness :
  caseless_eqb (lit ".M4A") (lit ".m4a") = true
  /\ family_of_extension (lit ".M4A") = family_of_extension (lit ".m4a").
Proof.
  assert (H : caseless_eqb (lit ".M4A") (lit ".m4a") = true) by reflexivity.
  split; [exact H|].
  exact (proj1 (proj2 (@dispatch_ignores_case unit unit five_env)) _ _ H).
Defined.

Lemma take_while_app (id rest : pystr) :
  all_alnum id -> not_alnum_start rest -> take_while is_alnum (id ++ rest) = id.
Proof.
  intros Hid Hrest. induction Hid as [|c id Hc _ IH]; cbn [app take_while].
  - destruct rest as [|c rest]; [reflexivity|]. cbn in *. rewrite Hrest. reflexivity.
  - rewrite Hc, IH. reflexivity.
Qed.

Lemma id_run_app (id rest : pystr) :
  all_alnum id -> 10 <= length id -> not_alnum_start rest ->
  id_run (id ++ rest) = Some id.
Proof.
  intros Hid Hlen Hrest. unfold id_run. rewrite take_while_app by assumption.
  destruct (Nat.leb_spec 10 (length id)); [reflexivity|lia].
Qed.

Lemma strip_prefix_app (p s : pystr) : strip_prefix p (p ++ s) = Some s.
Proof.
  induction p as [|c p IH]; cbn [app strip_prefix]; [reflexivity|].
  rewrite N.eqb_refl. exact IH.
Qed.

Lemma strip_prefix_inv (p s rest : pystr) :
  strip_prefix p s = Some rest -> s = p ++ rest.
Proof.
  revert s. induction p as [|c p IH]; intros s H; cbn in H.
  - inversion H. reflexivity.
  - destruct s as [|x s]; [discriminate|].
    destruct (N.eqb_spec c x); [|discriminate]. subst. cbn. f_equal. auto.
Qed.

(** A prefix with a character that is not alphanumeric at a position the
    alphanumeric string [id] covers does not begin [id]. *)
Lemma strip_prefix_alnum (p1 : pystr) :
  forall c p2 id rest,
    all_alnum id -> length p1 < length id -> is_alnum c = false ->
    strip_prefix (p1 ++ c :: p2) (id ++ rest) = None.
Proof.
  induction p1 as [|x p1 IH]; intros c p2 id rest Hid Hlen Hc;
    (destruct id as [|y id]; [cbn in Hlen; lia|]);
    inversion Hid as [|? ? Hy Hid']; subst; cbn [app strip_prefix].
  - destruct (N.eqb_spec c y) as [->|]; [congruence|reflexivity].
  - destruct (N.eqb x y); [|reflexivity]. apply IH; auto. cbn in Hlen. lia.
Qed.

Lemma match_id_at_run (id rest : pystr) :
  all_alnum id -> 10 <= length id -> not_alnum_start rest ->
  match_id_at (id ++ rest) = Some id.
Proof.
  intros Hid Hlen Hrest. unfold match_id_at.
  change (lit "spotify:track:") with (lit "spotify" ++ 58%N :: lit "track:").
  rewrite strip_prefix_alnum by (auto; cbn; lia).
  change (lit "open.spotify.com/track/") with (lit "open" ++ 46%N :: lit "spotify.com/track/").
  rewrite strip_prefix_alnum by (auto; cbn; lia).
  apply id_run_app; assumption.
Qed.

Lemma search_id_skip (c : N) (s : pystr) :
  match_id_at (c :: s) = None -> search_id (c :: s) = search_id s.
Proof. intros H. cbn [search_id]. rewrite H. reflexivity. Qed.

Lemma search_id_found (s g : pystr) :
  s <> [] -> match_id_at s = Some g -> search_id s = Some g.
Proof.
  intros Hs H. destruct s as [|c s]; [congruence|]. cbn [search_id].
  rewrite H. reflexivity.
Qed.

Lemma id_nonempty (id rest : pystr) : 10 <= length id -> id ++ rest <> [].
Proof. destruct id; cbn; [lia|discriminate]. Qed.

(** A match gives an alphanumeric run of ten characters or more, inside
    the string. *)
Lemma take_while_split (s : pystr) :
  exists post, s = take_while is_alnum s ++ post
               /\ all_alnum (take_while is_alnum s).
Proof.
  induction s as [|c s (post & Hs & Ha)]; cbn [take_while].
  - exists []. split; [reflexivity|constructor].
  - destruct (is_alnum c) eqn:Hc.
    + exists post. split; [cbn; congruence|constructor; assumption].
    + exists (c :: s). split; [reflexivity|constructor].
Qed.

Lemma id_run_inv (s g : pystr) :
  id_run s = Some g ->
  all_alnum g /\ 10 <= length g /\ exists post, s = g ++ post.
Proof.
  unfold id_run. destruct (Nat.leb_spec 10 (length (take_while is_alnum s))) as [Hle|Hlt];
    [|discriminate].
  intros H; inversion H; subst.
  destruct (take_while_split s) as (post & Hs & Ha). eauto.
Qed.

Lemma match_id_at_inv (s g : pystr) :
  match_id_at s = Some g ->
  all_alnum g /\ 10 <= length g /\ exists pre post, s = pre ++ g ++ post.
Proof.
  unfold match_id_at.
  destruct (strip_prefix (lit "spotify:track:") s) as [r1|] eqn:H1.
  - destruct (id_run r1) as [g1|] eqn:Hg1.
    + intros H; inversion H; subst.
      apply id_run_inv in Hg1 as (Ha & Hl & post & ->).
      apply strip_prefix_inv in H1. eauto 6.
    + destruct (strip_prefix (lit "open.spotify.com/track/") s) as [r2|] eqn:H2.
      * apply strip_prefix_inv in H1, H2. rewrite H1 in H2. discriminate H2.
      * intros H. apply id_run_inv in H as (Ha & Hl & post & ->).
        split; [assumption|]. split; [assumption|]. exists [], post. reflexivity.
  - destruct (strip_prefix (lit "open.spotify.com/track/") s) as [r2|] eqn:H2.
    + destruct (id_run r2) as [g2|] eqn:Hg2.
      * intros H; inversion H; subst.
        apply id_run_inv in Hg2 as (Ha & Hl & post & ->).
        apply strip_prefix_inv in H2. eauto 6.
      * intros H. apply id_run_inv in H as (Ha & Hl & post & ->).
        split; [assumption|]. split; [assumption|]. exists [], post. reflexivity.
    + intros H. apply id_run_inv in H as (Ha & Hl & post & ->).
      split; [assumption|]. split; [assumption|]. exists [], post. reflexivity.
Qed.

Lemma search_id_inv (s : pystr) :
  forall g, search_id s = Some g ->
  all_alnum g /\ 10 <= length g /\ exists pre post, s = pre ++ g ++ post.
Proof.
  induction s as [|c s IH]; intros g H; [discriminate|].
  cbn [search_id] in H.
  destruct (match_id_at (c :: s)) as [g'|] eqn:Hm.
  - inversion H; subst. apply match_id_at_inv. exact Hm.
  - destruct (IH g H) as (Ha & Hl & pre & post & ->).
    split; [assumption|]. split; [assumption|]. exists (c :: pre), post. reflexivity.
Qed.

Lemma parse_track_id_run (id rest : pystr) :
  all_alnum id -> 10 <= length id -> not_alnum_start rest ->
  parse_track_id (id ++ rest) = id.
Proof.
  intros Hid Hlen Hrest. unfold parse_track_id.
  erewrite search_id_found;
    [reflexivity|apply id_nonempty; assumption|apply match_id_at_run; assumption].
Qed.

(** X1.  [parse_track_id] accepts the three forms its comment lists: an
    identifier of ten or more alphanumeric characters is returned from
    the bare identifier, from its [spotify:track:] URI and from its
    [https://open.spotify.com/track/] URL, whatever follows it, as long
    as this does not begin with an alphanumeric character. *)
Theorem parse_track_id_accepts (id rest : pystr) :
  all_alnum id -> 10 <= length id -> not_alnum_start rest ->
  parse_track_id (id ++ rest) = id
  /\ parse_track_id (lit "spotify:track:" ++ id ++ rest) = id
  /\ parse_track_id (lit "https://open.spotify.com/track/" ++ id ++ rest) = id.
Proof.
  intros Hid Hlen Hrest. split; [apply parse_track_id_run; assumption|].
  unfold parse_track_id. split.
  - erewrite search_id_found; [reflexivity|discriminate|].
    unfold match_id_at. rewrite strip_prefix_app, id_run_app by assumption.
    reflexivity.
  - change (lit "https://open.spotify.com/track/")
      with (lit "https://" ++ lit "open.spotify.com/track/").
    rewrite <- app_assoc.
    assert (Hat : match_id_at (lit "open.spotify.com/track/" ++ id ++ rest) = Some id).
    { unfold match_id_at. rewrite strip_prefix_app, id_run_app by assumption.
      reflexivity. }
    cbn [lit list_ascii_of_string map app] in *.
    repeat (rewrite search_id_skip by reflexivity).
    erewrite search_id_found; [reflexivity|discriminate|exact Hat].
Qed.

Lemma tails_self (s : pystr) : In s (tails s).
Proof. destruct s; left; reflexivity. Qed.

Lemma tails_app (p rest : pystr) : In rest (tails (p ++ rest)).
Proof.
  induction p as [|c p IH]; cbn [app].
  - apply tails_self.
  - cbn [tails]. right. exact IH.
Qed.

Lemma id_run_none (s : pystr) :
  Nat.ltb (length (take_while is_alnum s)) 10 = true -> id_run s = None.
Proof.
  intros H. apply Nat.ltb_lt in H. unfold id_run.
  destruct (Nat.leb_spec 10 (length (take_while is_alnum s))); [lia|reflexivity].
Qed.

Lemma match_id_at_none (s : pystr) :
  no_id_run s = true -> match_id_at s = None.
Proof.
  unfold no_id_run. rewrite forallb_forall. intros H. unfold match_id_at.
  destruct (strip_prefix (lit "spotify:track:") s) as [r1|] eqn:H1.
  - apply strip_prefix_inv in H1. subst s.
    rewrite (id_run_none r1) by (apply H, tails_app).
    rewrite id_run_none by (apply H, tails_self).
    destruct (strip_prefix _ _) as [r2|] eqn:H2; [|reflexivity].
    apply strip_prefix_inv in H2. discriminate H2.
  - destruct (strip_prefix (lit "open.spotify.com/track/") s) as [r2|] eqn:H2.
    + apply strip_prefix_inv in H2. subst s.
      rewrite (id_run_none r2) by (apply H, tails_app).
      apply id_run_none. apply H, tails_self.
    + apply id_run_none. apply H, tails_self.
Qed.

Lemma no_id_run_tail (c : N) (s : pystr) :
  no_id_run (c :: s) = true -> no_id_run s = true.
Proof.
  unfold no_id_run. cbn [tails forallb]. intros H.
  apply andb_true_iff in H as [_ H]. exact H.
Qed.

(** X2.  A string in which no run of ten alphanumeric characters begins
    is returned as it is. *)
Theorem parse_track_id_unchanged (s : pystr) :
  no_id_run s = true -> parse_track_id s = s.
Proof.
  intros H. unfold parse_track_id.
  assert (Hs : search_id s = None).
  { induction s as [|c s IH]; [reflexivity|]. cbn [search_id].
    rewrite match_id_at_none by exact H. apply IH. eapply no_id_run_tail; exact H. }
  rewrite Hs. reflexivity.
Qed.

(** X3.  The result of [parse_track_id] is its argument, or a run of ten
    or more alphanumeric characters of it; parsing it again changes
    nothing. *)
Theorem parse_track_id_idempotent (s : pystr) :
  (parse_track_id s = s
   \/ (all_alnum (parse_track_id s) /\ 10 <= length (parse_track_id s)
       /\ exists pre post, s = pre ++ parse_track_id s ++ post))
  /\ parse_track_id (parse_track_id s) = parse_track_id s.
Proof.
  destruct (search_id s) as [g|] eqn:Hs.
  - assert (Hp : parse_track_id s = g)
      by (unfold parse_track_id; rewrite Hs; reflexivity).
    rewrite !Hp.
    apply search_id_inv in Hs as (Ha & Hl & pre & post & Heq).
    split; [right; eauto|].
    pose proof (@parse_track_id_run g [] Ha Hl I) as H.
    rewrite app_nil_r in H. exact H.
  - assert (Hp : parse_track_id s = s)
      by (unfold parse_track_id; rewrite Hs; reflexivity).
    rewrite !Hp. split; [left; reflexivity|reflexivity].
Qed.

Lemma parse_track_id_accepts_witness :
  parse_track_id (lit "4uLU6hMCjMI75M1A2tKUQC" ++ lit "?si=1")
  = lit "4uLU6hMCjMI75M1A2tKUQC"
  /\ parse_track_id (lit "spotify:track:" ++ lit "4uLU6hMCjMI75M1A2tKUQC" ++ lit "?si=1")
     = lit "4uLU6hMCjMI75M1A2tKUQC"
  /\ parse_track_id
       (lit "https://open.spotify.com/track/" ++ lit "4uLU6hMCjMI75M1A2tKUQC"
          ++ lit "?si=1")
     = lit "4uLU6hMCjMI75M1A2tKUQC".
Proof.
  apply (@parse_track_id_accepts (lit "4uLU6hMCjMI75M1A2tKUQC") (lit "?si=1")).
  - repeat constructor.
  - cbn. lia.
  - reflexivity.
Defined.

Lemma parse_track_id_unchanged_witness :
  no_id_run (lit "spotify:track:short") = true
  /\ parse_track_id (lit "spotify:track:short") = lit "spotify:track:short".
Proof.
  split; [reflexivity|].
  apply (@parse_track_id_unchanged (lit "spotify:track:short")). reflexivity.
Defined.

Ltac destruct_extract H :=
  repeat match type of H with
         | match ?x with _ => _ end = Ok _ => destruct x eqn:?; try discriminate
         | (if ?x then _ else _) = Ok _ => destruct x eqn:?; try discriminate
         | (let '(_, _) := ?x in _) = Ok _ => destruct x eqn:?
         end.

Lemma search_track_id_skip (c : N) (s : pystr) :
  strip_prefix (lit "track:") (c :: s) = None ->
  search_track_id (c :: s) = search_track_id s.
Proof. intros H. cbn [search_track_id]. rewrite H. reflexivity. Qed.

Lemma search_track_id_uri (id rest : pystr) :
  all_alnum id -> id <> [] -> not_alnum_start rest ->
  search_track_id (lit "spotify:track:" ++ id ++ rest) = Some id.
Proof.
  intros Hid Hne Hrest.
  change (lit "spotify:track:") with (lit "spotify:" ++ lit "track:").
  rewrite <- app_assoc.
  assert (Hat : search_track_id (lit "track:" ++ id ++ rest) = Some id).
  { change (lit "track:" ++ id ++ rest)
      with (116%N :: (lit "rack:" ++ id ++ rest)).
    cbn [search_track_id].
    change (116%N :: (lit "rack:" ++ id ++ rest)) with (lit "track:" ++ id ++ rest).
    rewrite strip_prefix_app, take_while_app by assumption.
    destruct id; [congruence|reflexivity]. }
  cbn [lit list_ascii_of_string map app] in *.
  repeat (rewrite search_track_id_skip by reflexivity).
  exact Hat.
Qed.

Lemma lookup_nonempty (k : pystr) (d : list (pystr * value)) (v : value) :
  lookup k d = Some v -> truthy (VDict d) = true.
Proof. destruct d; [discriminate|reflexivity]. Qed.

(** X4.  For a payload whose [uri] is [spotify:track:] followed by an
    alphanumeric identifier, a record the extractor returns has this
    [uri] and the identifier as its [id]. *)
Theorem extract_id_from_uri (item t : value) (d : list (pystr * value))
    (id rest : pystr) :
  has_payload_dict item d ->
  lookup (lit "uri") d = Some (VStr (lit "spotify:track:" ++ id ++ rest)) ->
  all_alnum id -> id <> [] -> not_alnum_start rest ->
  _extract_track_from_item item = Ok t ->
  py_get t (lit "uri") VNone = Ok (VStr (lit "spotify:track:" ++ id ++ rest))
  /\ py_get t (lit "id") VNone = Ok (VStr id).
Proof.
  intros (di & d2 & -> & H1 & H2) Huri Hid Hne Hrest H.
  unfold _extract_track_from_item in H. cbn [py_get rbind] in H.
  rewrite H1 in H. cbn [py_get rbind] in H. rewrite H2 in H.
  rewrite (lookup_nonempty _ _ Huri) in H. cbn [negb py_get rbind] in H.
  rewrite Huri in H. unfold rbind in H.
  destruct_extract H.
  rewrite (search_track_id_uri rest Hid Hne Hrest) in H.
  inversion H; subst. split; reflexivity.
Qed.

Lemma join_strings (sep : pystr) (l : list pystr) :
  forall i, join_from i sep (map VStr l) = Ok (intercalate sep l).
Proof.
  induction l as [|s l IH]; intros i; cbn [map join_from]; [reflexivity|].
  rewrite IH. cbn [rbind]. destruct l; reflexivity.
Qed.

Lemma artist_names_shown (artists_items : list value) :
  forallb artist_ok artists_items = true ->
  artist_names artists_items = Ok (map VStr (shown_names artists_items)).
Proof.
  induction artists_items as [|a rest IH]; cbn [forallb]; intros H; [reflexivity|].
  apply andb_true_iff in H as [Ha Hrest]. specialize (IH Hrest).
  unfold shown_names in *. cbn [artist_names flat_map].
  destruct a as [| | | | |da]; try discriminate.
  cbn [py_get rbind artist_ok display_name] in *.
  destruct (lookup (lit "profile") da) as [p|].
  - destruct (truthy p) eqn:Hp; cbn [negb orb] in Ha.
    + destruct p as [| | | | |dp]; try discriminate.
      cbn [py_get rbind].
      destruct dp as [|kv dp]; [discriminate|].
      remember (kv :: dp) as dp0 eqn:Hdp.
      destruct (lookup (lit "name") dp0) as [[| | |n| |]|]; try discriminate.
      cbn [rbind]. rewrite IH. subst dp0. reflexivity.
    + rewrite IH.
      destruct p as [| | | | |[|? ?]]; try reflexivity; discriminate.
  - cbn [truthy]. exact IH.
Qed.

(** X5.  The [artists] field is the names of the artist entries that
    have a profile, in their order, with a comma and a space between
    them; the entries without a profile are left out. *)
Theorem extract_artists_joined (item t : value) (d ar : list (pystr * value))
    (artists_items : list value) :
  has_payload_dict item d ->
  lookup (lit "artists") d = Some (VDict ar) ->
  lookup (lit "items") ar = Some (VList artists_items) ->
  forallb artist_ok artists_items = true ->
  _extract_track_from_item item = Ok t ->
  py_get t (lit "artists") VNone
  = Ok (VStr (intercalate (lit ", ") (shown_names artists_items))).
Proof.
  intros (di & d2 & -> & H1 & H2) Har Hitems Hok H.
  unfold _extract_track_from_item in H. cbn [py_get rbind] in H.
  rewrite H1 in H. cbn [py_get rbind] in H. rewrite H2 in H.
  rewrite (lookup_nonempty _ _ Har) in H. cbn [negb py_get rbind] in H.
  unfold rbind, py_join in H.
  repeat first
    [ rewrite Har in H
    | rewrite Hitems in H
    | rewrite (artist_names_shown _ Hok) in H
    | rewrite join_strings in H
    | progress cbn [py_get py_iter] in H
    | match type of H with
      | match ?x with _ => _ end = Ok _ => destruct x eqn:?; try discriminate
      | (if ?x then _ else _) = Ok _ => destruct x eqn:?; try discriminate
      | (let '(_, _) := ?x in _) = Ok _ => destruct x eqn:?
      end ];
    inversion H; subst; reflexivity.
Qed.

Ltac split_results :=
  repeat match goal with
         | H : match ?x with _ => _ end = Ok _ |- _ =>
           destruct x eqn:?; try discriminate
         | H : (if ?x then _ else _) = Ok _ |- _ =>
           destruct x eqn:?; try discriminate
         | H : (let '(_, _) := ?x in _) = Ok _ |- _ => destruct x eqn:?
         | H : Ok _ = Ok _ |- _ => inversion H; clear H; subst
         end.

(** X6.  For a payload whose [albumOfTrack] is an object, the [album]
    field is the name of the album when it has one that is not empty,
    and its [__typename] otherwise. *)
Theorem extract_album_fallback (item t : value) (d al : list (pystr * value)) :
  has_payload_dict item d ->
  lookup (lit "albumOfTrack") d = Some (VDict al) -> al <> [] ->
  _extract_track_from_item item = Ok t ->
  py_get t (lit "album") VNone
  = Ok (if truthy (field_of (VDict al) "name")
        then field_of (VDict al) "name"
        else field_of (VDict al) "__typename").
Proof.
  intros (di & d2 & -> & H1 & H2) Hal Hne H.
  unfold _extract_track_from_item in H. cbn [py_get rbind] in H.
  rewrite H1 in H. cbn [py_get rbind] in H. rewrite H2 in H.
  rewrite (lookup_nonempty _ _ Hal) in H. cbn [negb py_get rbind] in H.
  rewrite Hal in H.
  assert (Halbum : py_or (VDict al) (VDict []) = VDict al)
    by (destruct al; [congruence|reflexivity]).
  rewrite Halbum in H. cbn [is_dict py_get rbind] in H.
  unfold field_of. cbn [py_get].
  unfold rbind, py_join, py_or in *.
  split_results; reflexivity.
Qed.

(** X7.  The [cover_url] field is the [url] of the first source the
    cover art lists; the other sources are not looked at. *)
Theorem extract_cover_first_source (item t : value)
    (d al ca src : list (pystr * value)) (more : list value) :
  has_payload_dict item d ->
  lookup (lit "albumOfTrack") d = Some (VDict al) ->
  lookup (lit "coverArt") al = Some (VDict ca) ->
  lookup (lit "sources") ca = Some (VList (VDict src :: more)) ->
  _extract_track_from_item item = Ok t ->
  py_get t (lit "cover_url") VNone = Ok (field_of (VDict src) "url").
Proof.
  intros (di & d2 & -> & H1 & H2) Hal Hca Hsrc H.
  unfold _extract_track_from_item in H. cbn [py_get rbind] in H.
  rewrite H1 in H. cbn [py_get rbind] in H. rewrite H2 in H.
  rewrite (lookup_nonempty _ _ Hal) in H. cbn [negb py_get rbind] in H.
  rewrite Hal in H.
  assert (Halbum : py_or (VDict al) (VDict []) = VDict al)
    by (destruct al; [discriminate|reflexivity]).
  rewrite Halbum in H. cbn [is_dict py_get rbind] in H.
  rewrite Hca in H. cbn [py_get rbind] in H. rewrite Hsrc in H.
  cbn [truthy py_first py_get rbind] in H.
  unfold field_of. cbn [py_get].
  unfold rbind, py_join, py_or in *.
  split_results; reflexivity.
Qed.

Lemma full_entry_payload : has_payload_dict full_entry full_payload.
Proof. eexists _, _. split; [reflexivity|]. split; reflexivity. Qed.

Lemma extract_id_from_uri_witness :
  _extract_track_from_item full_entry = Ok full_record
  /\ py_get full_record (lit "uri") VNone
     = Ok (VStr (lit "spotify:track:" ++ lit "4uLU6hMCjM" ++ lit "?si=1"))
  /\ py_get full_record (lit "id") VNone = Ok (VStr (lit "4uLU6hMCjM")).
Proof.
  split; [reflexivity|].
  apply (@extract_id_from_uri full_entry full_record full_payload
           (lit "4uLU6hMCjM") (lit "?si=1")).
  - exact full_entry_payload.
  - reflexivity.
  - repeat constructor.
  - discriminate.
  - reflexivity.
  - reflexivity.
Defined.

Lemma extract_artists_joined_witness :
  py_get full_record (lit "artists") VNone = Ok (VStr (lit "A, B")).
Proof.
  apply (@extract_artists_joined full_entry full_record full_payload
           [ (lit "items",
              VList
                [ VDict [ (lit "profile", VDict [ (lit "name", VStr (lit "A")) ]) ];
                  VDict [ (lit "uri", VStr (lit "spotify:artist:x")) ];
                  VDict [ (lit "profile", VDict [ (lit "name", VStr (lit "B")) ]) ] ]) ]
           [ VDict [ (lit "profile", VDict [ (lit "name", VStr (lit "A")) ]) ];
             VDict [ (lit "uri", VStr (lit "spotify:artist:x")) ];
             VDict [ (lit "profile", VDict [ (lit "name", VStr (lit "B")) ]) ] ]).
  - exact full_entry_payload.
  - reflexivity.
  - reflexivity.
  - reflexivity.
  - reflexivity.
Defined.

Lemma extract_album_fallback_witness :
  py_get full_record (lit "album") VNone = Ok (VStr (lit "Album")).
Proof.
  refine (@extract_album_fallback full_entry full_record full_payload
            [ (lit "__typename", VStr (lit "Album"));
              (lit "coverArt",
               VDict
                 [ (lit "sources",
                    VList [ VDict [ (lit "url", VStr (lit "https://i.scdn.co/1")) ];
                            VDict [ (lit "url", VStr (lit "https://i.scdn.co/2")) ] ]) ]) ]
            full_entry_payload eq_refl _ eq_refl).
  discriminate.
Defined.

Lemma extract_cover_first_source_witness :
  py_get full_record (lit "cover_url") VNone = Ok (VStr (lit "https://i.scdn.co/1")).
Proof.
  refine (@extract_cover_first_source full_entry full_record full_payload
            _ _ [ (lit "url", VStr (lit "https://i.scdn.co/1")) ]
            [ VDict [ (lit "url", VStr (lit "https://i.scdn.co/2")) ] ]
            full_entry_payload eq_refl eq_refl eq_refl eq_refl).
Defined.

Section CollectorFallback.

Variable World : Type.
Variable pl : PublicPlaylist World.

(** X8.  When the paginated stream completes without a single track, the
    fallback is run from offset 0 and the collector returns what it
    collects. *)
Theorem empty_primary_falls_back (fuel : nat) (s : state World (list value))
    (chunks : list value) (ess : list (list value)) (w1 : World)
    (F : list value) (wF : World) (evF : list event) :
  primary_completes pl (world s) chunks w1 ->
  Forall2 (fun chunk es => response_entries chunk = Ok es) chunks ess ->
  extract_error (concat ess) = None ->
  extracted (concat ess) = [] ->
  length chunks < fuel ->
  fallback_loop fuel pl 0 (State [] w1 []) = (Return tt, State F wF evF) ->
  _collect_playlist_tracks fuel pl s
  = (Return F,
     State F wF
           (trace s ++ (EvPaginate :: repeat EvPaginateNext (S (length chunks)))
              ++ evF)).
Proof.
  intros Hdone Hent Herr Hnone Hfuel Hfall.
  rewrite collect_unfold.
  erewrite primary_path_completes by eassumption.
  rewrite Hnone. cbn [app].
  rewrite fallback_loop_frame, Hfall. cbn [fst snd locals world trace app].
  rewrite <- app_assoc. reflexivity.
Qed.

(** X9.  When the primary path cannot be started, the fallback asks for
    one batch after the other as long as they are full, and stops at the
    first one with less than 100 entries, empty or not: the collector
    returns the tracks of all of them, after one request per batch. *)
Theorem fallback_stops_at_short_batch (fuel : nat) (s : state World (list value))
    (e : exn) (w1 : World) (batches : list (list value)) (w2 : World)
    (info : value) (last : list value) (w3 : World) :
  paginate_playlist pl (world s) = (Raise e, w1) ->
  fallback_serves pl w1 0 batches w2 ->
  Forall (fun b => length b = 100) batches ->
  extract_error (concat batches) = None ->
  get_playlist_info pl limit (limit * Z.of_nat (length batches)) w2 = (Ok info, w3) ->
  playlist_items info = Ok (VList last) ->
  length last < 100 ->
  length batches < fuel ->
  _collect_playlist_tracks fuel pl s
  = (Return (extracted (concat batches) ++ extracted last),
     State (extracted (concat batches) ++ extracted last) w3
           (trace s ++ EvPaginate :: fallback_events 0 (S (length batches)))).
Proof.
  intros Hcall Hserve Hfull Herr Hget Hitems Hshort Hfuel.
  rewrite collect_unfold.
  assert (Hraise : primary_raises pl (world s) [] e w1) by (left; auto).
  rewrite (fun T tr =>
             @primary_path_raises World pl fuel [] [] e T _ _ tr Hraise
               (Forall2_nil _) eq_refl ltac:(cbn; lia)).
  unfold primary_events. rewrite Hcall. cbn [concat extracted app].
  replace fuel with (length batches + S (fuel - S (length batches))) by lia.
  erewrite fallback_loop_batches by eassumption.
  erewrite fallback_loop_S.
  2:{ eapply fallback_round_short; [|exact Hitems|exact Hshort].
      rewrite Z.add_0_l. exact Hget. }
  cbn [locals app].
  rewrite <- !app_assoc. cbn [app].
  assert (Hev : forall n o, fallback_events o n ++ [EvGetPlaylistInfo limit (o + limit * Z.of_nat n)]
                            = fallback_events o (S n)).
  { induction n as [|n IHn]; intros o.
    - cbn. rewrite Z.add_0_r. reflexivity.
    - cbn [fallback_events app]. f_equal.
      replace (o + limit * Z.of_nat (S n))%Z with (o + limit + limit * Z.of_nat n)%Z by lia.
      rewrite IHn. reflexivity. }
  rewrite Hev. reflexivity.
Qed.

Lemma fallback_loop_endless (fuel : nat) :
  always_full pl ->
  forall offset s, fst (fallback_loop fuel pl offset s) = Diverge.
Proof.
  intros Hfull. induction fuel as [|fuel IH]; intros offset [T w tr]; [reflexivity|].
  destruct (Hfull offset w) as (info & w' & b & Hget & Hitems & Hlen & Herr).
  erewrite fallback_loop_S by (eapply fallback_round_full; eassumption).
  apply IH.
Qed.

(** X10.  The loop of the fallback has no bound of its own: when the
    primary path cannot be started and every request is answered with a
    full batch, the collector does not return, however long it runs. *)
Theorem fallback_never_ends (s : state World (list value)) (e : exn) (w1 : World) :
  paginate_playlist pl (world s) = (Raise e, w1) ->
  always_full pl ->
  forall fuel, fst (_collect_playlist_tracks fuel pl s) = Diverge.
Proof.
  intros Hcall Hfull fuel. rewrite collect_unfold.
  assert (Hraise : primary_raises pl (world s) [] e w1) by (left; auto).
  destruct fuel as [|fuel].
  - unfold primary_path.
    erewrite run_try_throw.
    2:{ erewrite run_bind_throw by (apply run_ext_raise; exact Hcall). reflexivity. }
    reflexivity.
  - rewrite (fun T tr =>
               @primary_path_raises World pl (S fuel) [] [] e T _ _ tr Hraise
                 (Forall2_nil _) eq_refl ltac:(cbn; lia)).
    pose proof (@fallback_loop_endless (S fuel) Hfull 0
                  (State ([] ++ extracted (concat []))
                         w1 (trace s ++ primary_events pl (world s) []))) as Hd.
    destruct (fallback_loop (S fuel) pl 0 _) as [[[]|e'|] s2]; cbn [fst] in *;
      try discriminate.
    reflexivity.
Qed.

End CollectorFallback.

Lemma empty_primary_falls_back_witness :
  _collect_playlist_tracks 2 (one_chunk_playlist [VDict []]) (State [] 0 [])
  = (Return [],
     State [] 2
           ([] ++ (EvPaginate :: repeat EvPaginateNext 2)
               ++ [EvGetPlaylistInfo limit 0])).
Proof.
  apply (@empty_primary_falls_back nat (one_chunk_playlist [VDict []]) 2
           (State [] 0 []) [response_of [VDict []]] [[VDict []]] 2 [] 2
           [EvGetPlaylistInfo limit 0]).
  - exists 0, 1. split; [reflexivity|]. split; [|reflexivity].
    exists 1. split; reflexivity.
  - constructor; [reflexivity|constructor].
  - reflexivity.
  - reflexivity.
  - simpl. lia.
  - reflexivity.
Defined.

Lemma fallback_stops_at_short_batch_witness :
  _collect_playlist_tracks 1 five_playlist (State [] tt [])
  = (Return ([] ++ five_tracks),
     State ([] ++ five_tracks) tt ([] ++ [EvPaginate; EvGetPlaylistInfo limit 0])).
Proof.
  apply (@fallback_stops_at_short_batch unit five_playlist 1 (State [] tt [])
           some_error tt [] tt (response_of five_entries) five_entries tt).
  - reflexivity.
  - reflexivity.
  - constructor.
  - reflexivity.
  - reflexivity.
  - reflexivity.
  - cbn. lia.
  - cbn. lia.
Defined.

Lemma fallback_never_ends_witness :
  fst (_collect_playlist_tracks 3 endless_playlist (State [] tt [])) = Diverge.
Proof.
  apply (@fallback_never_ends unit endless_playlist (State [] tt []) some_error tt).
  - reflexivity.
  - intros offset w. exists (response_of (batch_at 0 100)), w, (batch_at 0 100).
    split; [reflexivity|]. split; [reflexivity|]. split; [reflexivity|].
    vm_compute. reflexivity.
Defined.

Section BestEffort.

Variable World : Type.
Variable Obj : Type.
Variable E : Env World Obj.

(** X11.  The Cover Fetcher always returns: without a request when the
    URL is missing or empty, after exactly one request otherwise; and it
    returns bytes only when that request was answered with status 200,
    the bytes of the answer. *)
Theorem download_cover_best_effort {L} (url : value) (s : state World L) :
  exists c s',
    _download_cover E url s = (Return c, s')
    /\ locals s' = locals s
    /\ (truthy url = false -> c = None /\ s' = s)
    /\ (truthy url = true -> trace s' = trace s ++ [EvRequestsGet url])
    /\ (forall content,
          c = Some content ->
          fst (requests_get E url 10 (world s)) = Ok (200%Z, content)).
Proof.
  destruct s as [l w tr]. unfold _download_cover.
  destruct (truthy url) eqn:Hurl; cbn [negb].
  - unfold try_except, bind, ext. cbn [world locals trace].
    destruct (requests_get E url 10 w) as [[[status content]|e] w1]; cbn [fst snd].
    + destruct (Z.eqb_spec status 200) as [->|Hne].
      * exists (Some content). eexists. split; [reflexivity|].
        repeat split; try discriminate.
        intros c H; inversion H; reflexivity.
      * exists None. eexists. split; [reflexivity|].
        repeat split; discriminate.
    + exists None. eexists. split; [reflexivity|].
      repeat split; discriminate.
  - exists None. eexists. split; [reflexivity|].
    repeat split; discriminate.
Qed.

(** X12.  In the two Ogg families the cover is not used: whatever bytes
    are passed, the embedder does the same. *)
Theorem ogg_ignores_cover (file_path : pystr) (track : value)
    (cover1 cover2 : option bytes) (s : state World unit) :
  In (py_lower (snd (splitext file_path))) [lit ".opus"; lit ".ogg"] ->
  _embed_tags E file_path track cover1 s = _embed_tags E file_path track cover2 s.
Proof.
  intros Hext. unfold _embed_tags.
  destruct Hext as [<-|[<-|[]]]; reflexivity.
Qed.

Lemma trace_after_ext {L A B} (ev : event) (f : World -> result A * World)
    (k : A -> M World L B) (s : state World L) :
  (forall a, emits (fun _ => True) (k a)) ->
  exists rest, trace (snd (bind (ext ev f) k s)) = trace s ++ ev :: rest.
Proof.
  intros Hk. unfold bind, ext.
  destruct (f (world s)) as [[a|e] w1]; cbn [snd trace].
  - destruct (Hk a (State (locals s) w1 (trace s ++ [ev]))) as (evs & Ht & _).
    rewrite Ht. cbn [trace]. rewrite <- app_assoc. exists evs. reflexivity.
  - exists []. reflexivity.
Qed.

Lemma trace_bind_after {L A B} (m : M World L A) (k : A -> M World L B)
    (s : state World L) (pre : list event) :
  (exists rest, trace (snd (m s)) = pre ++ rest) ->
  (forall a, emits (fun _ => True) (k a)) ->
  exists rest, trace (snd (bind m k s)) = pre ++ rest.
Proof.
  intros (rest & Hm) Hk. unfold bind.
  destruct (m s) as [[a|e|] s2]; cbn [snd] in *; eauto.
  destruct (Hk a s2) as (evs & Ht & _). rewrite Ht, Hm, <- app_assoc.
  exists (rest ++ evs). reflexivity.
Qed.

(** X13.  When the tagging library cannot open an [mp3] file, the
    embedder goes on only if the error is a missing ID3 header, and then
    opens the file a second time; an error of another class is raised to
    the caller at once, and nothing else is asked of the library. *)
Theorem mp3_open_error (file_path : pystr) (d : list (pystr * value))
    (cover_bytes : option bytes) (s : state World unit) (e : exn) (w1 : World) :
  py_lower (snd (splitext file_path)) = lit ".mp3" ->
  tag_open E FmtMP3 file_path (world s) = (Raise e, w1) ->
  (exn_cls e <> ID3NoHeaderError ->
   _embed_tags E file_path (VDict d) cover_bytes s
   = (Throw e, State (locals s) w1 (trace s ++ [EvTagOpen FmtMP3 file_path])))
  /\ (exn_cls e = ID3NoHeaderError ->
      exists rest,
        trace (snd (_embed_tags E file_path (VDict d) cover_bytes s))
        = trace s ++ EvTagOpen FmtMP3 file_path :: EvTagOpen FmtMP3 file_path :: rest).
Proof.
  intros Hext Hopen. unfold _embed_tags. rewrite Hext. cbn [py_get lift].
  erewrite !run_bind by reflexivity.
  change (pystr_eqb (lit ".mp3") (lit ".mp3")) with true. cbv iota.
  unfold embed_mp3, try_except_class.
  split; intros Hcls.
  - erewrite run_bind_throw; [reflexivity|].
    erewrite run_try_throw.
    2:{ erewrite run_bind_throw by (apply run_ext_raise; exact Hopen). reflexivity. }
    destruct e as [[] msg]; cbn in Hcls |- *; try reflexivity; congruence.
  - assert (Hgoal : exists rest,
               trace (snd (_embed_tags E file_path (VDict d) cover_bytes s))
               = (trace s ++ [EvTagOpen FmtMP3 file_path; EvTagOpen FmtMP3 file_path]) ++ rest).
    { unfold _embed_tags. rewrite Hext. cbn [py_get lift].
      erewrite !run_bind by reflexivity.
      change (pystr_eqb (lit ".mp3") (lit ".mp3")) with true. cbv iota.
      unfold embed_mp3, try_except_class.
      apply trace_bind_after; [|intros; repeat emits_step; try exact I].
      erewrite run_try_throw.
      2:{ erewrite run_bind_throw by (apply run_ext_raise; exact Hopen). reflexivity. }
      rewrite Hcls. cbn [exn_class_eqb].
      match goal with
      | |- context [bind (ext ?ev ?f) ?k ?s0] =>
        assert (Hk : forall a, emits (fun _ => True) (k a))
          by (intros; repeat emits_step; try exact I);
          destruct (@trace_after_ext unit _ _ ev f k s0 Hk) as (rest & Hr)
      end.
      rewrite Hr. cbn [trace]. rewrite <- !app_assoc. cbn [app]. exists rest.
      rewrite <- app_assoc. reflexivity. }
    destruct Hgoal as (rest & Hr). exists rest.
    unfold _embed_tags in Hr. rewrite Hext in Hr. cbn [py_get lift] in Hr.
    erewrite !run_bind in Hr by reflexivity.
    rewrite <- app_assoc in Hr. exact Hr.
Qed.

End BestEffort.

Lemma ogg_ignores_cover_witness :
  _embed_tags five_env (lit "out/001_a.OGG") (nth 0 five_tracks VNone)
    (Some [255%N; 216%N]) (State tt tt [])
  = _embed_tags five_env (lit "out/001_a.OGG") (nth 0 five_tracks VNone)
      None (State tt tt []).
Proof.
  apply (@ogg_ignores_cover unit unit five_env (lit "out/001_a.OGG")).
  right. left. reflexivity.
Defined.

Lemma mp3_open_error_witness :
  exists rest,
    trace (snd (_embed_tags headerless_env (lit "out/001_a.mp3") (VDict [])
                  None (State tt tt [])))
    = [] ++ EvTagOpen FmtMP3 (lit "out/001_a.mp3")
         :: EvTagOpen FmtMP3 (lit "out/001_a.mp3") :: rest.
Proof.
  refine (proj2 (@mp3_open_error unit unit headerless_env (lit "out/001_a.mp3") []
                   None (State tt tt [])
                   (Exn ID3NoHeaderError (lit "file does not start with an ID3 tag"))
                   tt eq_refl eq_refl) eq_refl).
Defined.

Section TrackOutcomes.

Variable World : Type.
Variable Obj : Type.
Variable E : Env World Obj.

(** X14.  When the tool exits with 0 and no file matches the pattern, the
    track is recorded as failed with the reason
    [file not found after download]. *)
Theorem download_track_file_not_found (args : Args) (n : nat) (idx : N)
    (d : list (pystr * value)) (s : state World (list failure)) :
  always_returns (subprocess_run E (track_cmd E args idx (VDict d)) 60)
                 (fun returncode => returncode = 0%Z) ->
  always_returns (glob_glob E (track_pattern E args idx (VDict d)))
                 (fun candidates => candidates = []) ->
  exists s',
    download_track E args (output args) n idx (VDict d) s = (Return tt, s')
    /\ locals s'
       = locals s ++ [(field_of (VDict d) "name", field_of (VDict d) "artists",
                       lit "file not found after download")].
Proof.
  intros Hrun Hglob. unfold download_track, track_cmd, track_pattern, field_of in *.
  cbn [py_get lift] in *.
  erewrite !run_bind by reflexivity.
  match goal with
  | |- context [bind (_download_cover E ?url) _ ?s0] =>
    destruct (download_cover_returns E url s0) as (c & [l1 w1 tr1] & Hc & Hl1 & _)
  end.
  cbn [locals] in Hl1. subst l1.
  erewrite run_bind by exact Hc.
  erewrite run_bind by reflexivity. cbn [locals world trace].
  destruct (Hrun w1) as (rc & w2 & Hw2 & ->).
  destruct (Hglob w2) as (cands & w3 & Hw3 & ->).
  eexists. split.
  - apply run_try_return.
    erewrite run_bind by (apply run_ext_ok; exact Hw2).
    cbn [negb Z.eqb locals world trace].
    erewrite run_bind by (apply run_ext_ok; exact Hw3).
    reflexivity.
  - reflexivity.
Qed.

(** X15.  When running the tool raises an exception, a timeout for
    instance, the track is recorded as failed with the text of the
    exception as the reason, and the loop goes on. *)
Theorem download_track_tool_exception (args : Args) (n : nat) (idx : N)
    (d : list (pystr * value)) (e : exn) (s : state World (list failure)) :
  always_raises (subprocess_run E (track_cmd E args idx (VDict d)) 60) e ->
  exists s',
    download_track E args (output args) n idx (VDict d) s = (Return tt, s')
    /\ locals s'
       = locals s ++ [(field_of (VDict d) "name", field_of (VDict d) "artists",
                       exn_msg e)]
    /\ In (EvPrint true (warning_sign ++ lit "Error: " ++ exn_msg e)) (trace s').
Proof.
  intros Hrun. unfold download_track, track_cmd, field_of in *.
  cbn [py_get lift] in *.
  erewrite !run_bind by reflexivity.
  match goal with
  | |- context [bind (_download_cover E ?url) _ ?s0] =>
    destruct (download_cover_returns E url s0) as (c & [l1 w1 tr1] & Hc & Hl1 & _)
  end.
  cbn [locals] in Hl1. subst l1.
  erewrite run_bind by exact Hc.
  erewrite run_bind by reflexivity. cbn [locals world trace].
  destruct (Hrun w1) as (w2 & Hw2).
  eexists. split.
  - erewrite run_try_throw.
    2:{ erewrite run_bind_throw by (apply run_ext_raise; exact Hw2). reflexivity. }
    reflexivity.
  - cbn [locals trace]. split; [reflexivity|].
    apply in_or_app. right. left. reflexivity.
Qed.

(** X16.  A tagging failure is no download failure: when the tool exits
    with 0 and a file matches the pattern, the track is not recorded as
    failed, whatever the tagging library does with the file. *)
Theorem tagging_failure_is_not_recorded (args : Args) (n : nat) (idx : N)
    (d : list (pystr * value)) (s : state World (list failure)) :
  always_returns (subprocess_run E (track_cmd E args idx (VDict d)) 60)
                 (fun returncode => returncode = 0%Z) ->
  always_returns (glob_glob E (track_pattern E args idx (VDict d)))
                 (fun candidates => candidates <> []) ->
  exists s',
    download_track E args (output args) n idx (VDict d) s = (Return tt, s')
    /\ locals s' = locals s.
Proof.
  intros Hrun Hglob.
  edestruct (@download_track_succeeds World Obj E args n idx d s) as (s' & H & Hl & _);
    [exact Hrun | exact Hglob |].
  eauto.
Qed.

End TrackOutcomes.

Lemma download_track_file_not_found_witness :
  exists s',
    download_track no_file_env five_args (output five_args) 5 1
      (VDict [(lit "name", VStr (lit "a"))]) (State [] tt [])
    = (Return tt, s')
    /\ locals s'
       = [] ++ [(field_of (VDict [(lit "name", VStr (lit "a"))]) "name",
                 field_of (VDict [(lit "name", VStr (lit "a"))]) "artists",
                 lit "file not found after download")].
Proof.
  apply (@download_track_file_not_found unit unit no_file_env five_args 5 1
           [(lit "name", VStr (lit "a"))] (State [] tt []));
    intros w; eexists; eexists; split; reflexivity.
Defined.

Lemma download_track_tool_exception_witness :
  exists s',
    download_track timeout_env five_args (output five_args) 5 1
      (VDict [(lit "name", VStr (lit "a"))]) (State [] tt [])
    = (Return tt, s')
    /\ locals s'
       = [] ++ [(field_of (VDict [(lit "name", VStr (lit "a"))]) "name",
                 field_of (VDict [(lit "name", VStr (lit "a"))]) "artists",
                 lit "Command timed out after 60 seconds")]
    /\ In (EvPrint true (warning_sign ++ lit "Error: "
                           ++ lit "Command timed out after 60 seconds"))
          (trace s').
Proof.
  apply (@download_track_tool_exception unit unit timeout_env five_args 5 1
           [(lit "name", VStr (lit "a"))]
           (Exn OtherError (lit "Command timed out after 60 seconds"))
           (State [] tt [])).
  intros w. eexists. reflexivity.
Defined.

Lemma tagging_failure_is_not_recorded_witness :
  exists s',
    download_track untaggable_env five_args (output five_args) 5 1
      (VDict [(lit "name", VStr (lit "a"))]) (State [] tt [])
    = (Return tt, s')
    /\ locals s' = [].
Proof.
  apply (@tagging_failure_is_not_recorded unit unit untaggable_env five_args 5 1
           [(lit "name", VStr (lit "a"))] (State [] tt []));
    intros w; eexists; eexists; (split; [reflexivity|]);
    [reflexivity | discriminate].
Defined.

Lemma subsequence_length {A} (l1 l2 : list A) :
  subsequence l1 l2 -> length l1 <= length l2.
Proof. induction 1; cbn; lia. Qed.

Lemma subsequence_In {A} (l1 l2 : list A) (x : A) :
  subsequence l1 l2 -> In x l1 -> In x l2.
Proof.
  induction 1; cbn; intros Hin; auto.
  destruct Hin as [->|Hin]; auto.
Qed.

Lemma emits_weaken {World L A} (Q Q' : event -> Prop) (m : M World L A) :
  (forall ev, Q ev -> Q' ev) -> emits Q m -> emits Q' m.
Proof.
  intros HQ Hm s. destruct (Hm s) as (evs & Ht & Hq).
  exists evs. split; [exact Ht|]. eapply Forall_impl; eauto.
Qed.

Lemma returns_only_bind {World L A B} (P : B -> Prop) (m : M World L A)
    (k : A -> M World L B) :
  (forall a, returns_only P (k a)) -> returns_only P (bind m k).
Proof.
  intros Hk s b s'. unfold bind.
  destruct (m s) as [[a|e|] s1]; try discriminate. apply Hk.
Qed.

Lemma returns_only_ret {World L A} (P : A -> Prop) (a : A) :
  P a -> returns_only P (@ret World L A a).
Proof. intros Ha s b s' H. inversion H; subst. exact Ha. Qed.

Section CollectorCalls.

Variable World : Type.
Variable pl : PublicPlaylist World.

Lemma emits_paginate_loop_catalog (fuel : nat) :
  emits catalog_call (paginate_loop fuel pl).
Proof.
  induction fuel as [|fuel IH]; cbn [paginate_loop]; [apply emits_diverge|].
  apply emits_bind; [apply emits_ext; exact I|].
  intros [chunk|]; [|apply emits_ret].
  apply emits_bind; [apply emits_lift|]. intros items.
  apply emits_bind; [apply emits_extend_tracks|]. intros _. exact IH.
Qed.

Lemma emits_fallback_loop_catalog (fuel : nat) :
  forall offset, emits catalog_call (fallback_loop fuel pl offset).
Proof.
  induction fuel as [|fuel IH]; intros offset; cbn [fallback_loop];
    [apply emits_diverge|].
  apply emits_bind.
  - unfold fallback_round.
    apply emits_try_except; [|intros; apply emits_ret].
    apply emits_bind; [apply emits_ext; exact I|]. intros info.
    apply emits_bind; [apply emits_lift|]. intros items.
    destruct (negb (truthy items)); [apply emits_ret|].
    apply emits_bind; [apply emits_extend_tracks|]. intros _.
    repeat emits_step.
  - intros [|]; [apply emits_ret|apply IH].
Qed.

Lemma emits_collect_catalog (fuel : nat) :
  emits catalog_call (_collect_playlist_tracks fuel pl).
Proof.
  unfold _collect_playlist_tracks, primary_path.
  apply emits_bind; [apply emits_set_locals|]. intros _.
  apply emits_bind.
  - apply emits_try_except; [|intros; apply emits_ret].
    apply emits_bind; [apply emits_ext; exact I|]. intros _.
    apply emits_bind; [apply emits_paginate_loop_catalog|]. intros _.
    repeat emits_step.
  - intros [tracks|]; [apply emits_ret|].
    apply emits_bind; [apply emits_fallback_loop_catalog|]. intros _.
    apply emits_get_locals.
Qed.

(** X17.  The collector is silent: whatever the catalog answers, errors
    included, it only calls the catalog; it prints nothing, writes no
    file and starts no download. *)
Theorem collect_only_calls_catalog (fuel : nat) (s : state World (list value)) :
  exists evs,
    trace (snd (_collect_playlist_tracks fuel pl s)) = trace s ++ evs
    /\ Forall catalog_call evs
    /\ forall ev, In ev evs ->
         ev = EvPaginate \/ ev = EvPaginateNext
         \/ exists limit offset, ev = EvGetPlaylistInfo limit offset.
Proof.
  destruct (emits_collect_catalog fuel s) as (evs & Ht & Hq).
  exists evs. split; [exact Ht|]. split; [exact Hq|].
  intros ev Hin. rewrite Forall_forall in Hq. specialize (Hq _ Hin).
  destruct ev; cbn in Hq; try contradiction; eauto.
Qed.

End CollectorCalls.

Section ExitStatus.

Variable World : Type.
Variable Obj : Type.
Variable E : Env World Obj.

Lemma download_track_outcome (args : Args) (out_dir : pystr) (n : nat)
    (idx : N) (d : list (pystr * value)) (s : state World (list failure)) :
  exists s',
    download_track E args out_dir n idx (VDict d) s = (Return tt, s')
    /\ (locals s' = locals s
        \/ exists reason,
             locals s'
             = locals s ++ [(field_of (VDict d) "name",
                             field_of (VDict d) "artists", reason)]).
Proof.
  unfold download_track, field_of. cbn [py_get lift].
  erewrite !run_bind by reflexivity.
  match goal with
  | |- context [bind (_download_cover E ?url) _ ?s0] =>
    destruct (download_cover_returns E url s0) as (c & [l1 w1 tr1] & Hc & Hl1 & _)
  end.
  cbn [locals] in Hl1. subst l1.
  erewrite run_bind by exact Hc.
  erewrite run_bind by reflexivity. cbn [locals world trace].
  unfold try_except at 1, bind at 1, ext at 1. cbn [locals world trace].
  destruct (subprocess_run E _ 60 w1) as [[rc|e] w2].
  2:{ eexists. split; [reflexivity|]. right. eexists. reflexivity. }
  destruct (negb (Z.eqb rc 0)).
  { eexists. split; [reflexivity|]. right. eexists. reflexivity. }
  unfold bind at 1, ext at 1. cbn [locals world trace].
  destruct (glob_glob E _ w2) as [[[|target rest]|e] w3].
  - eexists. split; [reflexivity|]. right. eexists. reflexivity.
  - match goal with
    | |- context [try_except ?m ?h ?s0] =>
      destruct (embed_attempt_returns E target (VDict d) c s0)
        as (s4 & H4 & Hl4 & _)
    end.
    rewrite H4. eexists. split; [reflexivity|]. left. exact Hl4.
  - eexists. split; [reflexivity|]. right. eexists. reflexivity.
Qed.

Lemma download_track_returns (args : Args) (out_dir : pystr) (n : nat)
    (idx : N) (d : list (pystr * value)) (s : state World (list failure)) :
  exists s',
    download_track E args out_dir n idx (VDict d) s = (Return tt, s')
    /\ (exists evs, trace s' = trace s ++ evs)
    /\ (locals s' = locals s
        \/ exists reason,
             locals s'
             = locals s ++ [(field_of (VDict d) "name",
                             field_of (VDict d) "artists", reason)]).
Proof.
  destruct (download_track_outcome args out_dir n idx d s) as (s' & H & Hl).
  exists s'. split; [exact H|]. split; [|exact Hl].
  destruct (emits_download_track E args out_dir n idx (VDict d) s) as (evs & Hevs & _).
  rewrite H in Hevs. eauto.
Qed.

Lemma download_loop_returns (args : Args) (out_dir : pystr) (n : nat)
    (tracks : list value) :
  Forall (fun t => exists d, t = VDict d) tracks ->
  forall (start : N) (s : state World (list failure)),
  exists s' fs,
    for_each (enumerate start tracks)
      (fun it => download_track E args out_dir n (fst it) (snd it)) s
    = (Return tt, s')
    /\ locals s' = locals s ++ fs
    /\ subsequence (map failure_key fs) (map track_key tracks)
    /\ exists evs, trace s' = trace s ++ evs.
Proof.
  induction 1 as [|t tracks (d & ->) Hts IH]; intros start s.
  - exists s, []. cbn. rewrite !app_nil_r. repeat split; [constructor|].
    exists []. rewrite app_nil_r. reflexivity.
  - cbn [enumerate for_each fst snd].
    destruct (download_track_returns args out_dir n start d s)
      as (s1 & H1 & (evs1 & Ht1) & Hl1).
    erewrite run_bind by exact H1.
    destruct (IH (start + 1)%N s1) as (s2 & fs & H2 & Hl2 & Hsub & (evs2 & Ht2)).
    rewrite H2. destruct Hl1 as [Hl1|(reason & Hl1)].
    + exists s2, fs. split; [reflexivity|]. split; [congruence|].
      split; [cbn [map]; constructor; exact Hsub|].
      exists (evs1 ++ evs2). rewrite Ht2, Ht1, app_assoc. reflexivity.
    + exists s2, ((field_of (VDict d) "name", field_of (VDict d) "artists", reason) :: fs).
      split; [reflexivity|].
      split; [rewrite Hl2, Hl1, <- app_assoc; reflexivity|].
      split; [cbn [map]; apply subsequence_take; exact Hsub|].
      exists (evs1 ++ evs2). rewrite Ht2, Ht1, app_assoc. reflexivity.
Qed.

(** X18.  A track never stops the batch: for a track record, the body of
    the download loop always returns, whatever the cover fetch, the tool,
    the search for the file and the tagging library do, and it records at
    most one failure, under the name and the artists of the track. *)
Theorem download_track_isolated (args : Args) (out_dir : pystr) (n : nat)
    (idx : N) (d : list (pystr * value)) (s : state World (list failure)) :
  exists s',
    download_track E args out_dir n idx (VDict d) s = (Return tt, s')
    /\ (locals s' = locals s
        \/ exists reason,
             locals s'
             = locals s ++ [(field_of (VDict d) "name",
                             field_of (VDict d) "artists", reason)]).
Proof.
  destruct (download_track_returns args out_dir n idx d s) as (s' & H & _ & Hl).
  eauto.
Qed.

Lemma returns_only_export_tracks (args : Args) (tracks : list value) :
  returns_only (fun z => z = 0%Z) (export_tracks E args tracks).
Proof.
  unfold export_tracks.
  repeat (apply returns_only_bind; intros).
  apply returns_only_ret. reflexivity.
Qed.


Lemma export_tracks_returned (args : Args) (tracks : list value)
    (s : state World (list failure)) (z : Z) (s' : state World (list failure)) :
  Forall (fun t => exists d, t = VDict d) tracks ->
  export_tracks E args tracks s = (Return z, s') ->
  z = 0%Z
  /\ subsequence (map failure_key (locals s')) (map track_key tracks)
  /\ exists evs,
       trace s' = trace s ++ EvMakedirs (output args)
                    :: EvWriteJson (meta_file_of args) (VList tracks) :: evs.
Proof.
  intros Hd Hrun.
  split; [exact (returns_only_export_tracks args tracks s Hrun)|].
  revert Hrun. destruct s as [l w tr]. unfold export_tracks, print, meta_file_of.
  destruct (os_makedirs E (output args) w) as [[[]|e] w1] eqn:H1.
  2:{ erewrite run_bind_throw by (apply run_ext_raise; exact H1). discriminate. }
  erewrite run_bind by (apply run_ext_ok; exact H1). cbn [locals world trace].
  destruct (write_json E (path_join (output args) (lit "metadata.json")) (VList tracks) w1)
    as [[[]|e] w2] eqn:H2.
  2:{ erewrite run_bind_throw by (apply run_ext_raise; exact H2). discriminate. }
  erewrite run_bind by (apply run_ext_ok; exact H2). cbn [locals world trace].
  erewrite run_bind by reflexivity.
  erewrite run_bind by reflexivity. cbn [locals world trace].
  match goal with
  | |- context [bind (for_each _ _) _ ?s0] =>
    destruct (download_loop_returns args (output args) (length tracks) Hd 1%N s0)
      as ([l3 w3 tr3] & fs & H3 & Hl3 & Hsub & evs & Ht3)
  end.
  cbn [locals world trace app] in Hl3, Ht3. subst l3 tr3.
  erewrite run_bind by exact H3.
  erewrite run_bind by reflexivity. cbn [locals world trace].
  erewrite run_bind by reflexivity. cbn [locals world trace].
  destruct fs as [|f fs].
  - erewrite run_bind by reflexivity. cbn [ret]. intros H; inversion H; subst.
    cbn [locals trace]. split; [exact Hsub|].
    rewrite <- !app_assoc. cbn [app]. eexists. reflexivity.
  - match goal with
    | |- context [ext (EvWriteJson ?p ?c) (write_json E ?p ?c)] =>
      destruct (write_json E p c w3) as [[[]|e] w4] eqn:H4
    end.
    2:{ erewrite run_bind_throw; [discriminate|].
        erewrite run_bind_throw by (apply run_ext_raise; exact H4). reflexivity. }
    erewrite run_bind.
    2:{ erewrite run_bind by (apply run_ext_ok; exact H4). reflexivity. }
    cbn [ret]. intros H; inversion H; subst.
    cbn [locals trace]. split; [exact Hsub|].
    rewrite <- !app_assoc. cbn [app]. eexists. reflexivity.
Qed.

(** X19.  When the output directory can be created and the two JSON
    files can be written, the export of a list of track records always
    ends with status 0, however many tracks fail: the failures are
    tracks of the list, in the order of the list and at most one for
    each track, so the number of successes that is printed is never
    negative. *)
Theorem export_tracks_completes (args : Args) (tracks : list value)
    (s : state World (list failure)) :
  Forall (fun t => exists d, t = VDict d) tracks ->
  always_returns (os_makedirs E (output args)) (fun _ => True) ->
  (forall path content, always_returns (write_json E path content) (fun _ => True)) ->
  exists s',
    export_tracks E args tracks s = (Return 0%Z, s')
    /\ subsequence (map failure_key (locals s')) (map track_key tracks)
    /\ length (locals s') <= length tracks
    /\ In (EvPrint false
             ([10%N] ++ lit "Download complete. "
                ++ str_of_Z (Z.of_nat (length tracks) - Z.of_nat (length (locals s')))
                ++ lit "/" ++ str_of_N (N.of_nat (length tracks))
                ++ lit " succeeded."))
          (trace s').
Proof.
  intros Hd Hmk Hwr. destruct s as [l w tr]. unfold export_tracks, print.
  destruct (Hmk w) as ([] & w1 & H1 & _).
  erewrite run_bind by (apply run_ext_ok; exact H1). cbn [locals world trace].
  destruct (Hwr (path_join (output args) (lit "metadata.json")) (VList tracks) w1)
    as ([] & w2 & H2 & _).
  erewrite run_bind by (apply run_ext_ok; exact H2). cbn [locals world trace].
  erewrite run_bind by reflexivity.
  erewrite run_bind by reflexivity. cbn [locals world trace].
  match goal with
  | |- context [bind (for_each _ _) _ ?s0] =>
    destruct (download_loop_returns args (output args) (length tracks) Hd 1%N s0)
      as ([l3 w3 tr3] & fs & H3 & Hl3 & Hsub & evs & Ht3)
  end.
  cbn [locals world trace app] in Hl3, Ht3. subst l3 tr3.
  erewrite run_bind by exact H3.
  erewrite run_bind by reflexivity. cbn [locals world trace].
  erewrite run_bind by reflexivity. cbn [locals world trace].
  assert (Hlen : length fs <= length tracks).
  { apply subsequence_length in Hsub. rewrite !length_map in Hsub. exact Hsub. }
  destruct fs as [|f fs].
  - erewrite run_bind by reflexivity. cbn [ret].
    eexists. split; [reflexivity|]. cbn [locals trace].
    split; [exact Hsub|]. split; [exact Hlen|].
    apply in_or_app. right. left. reflexivity.
  - match goal with
    | |- context [ext (EvWriteJson ?p ?c) (write_json E ?p ?c)] =>
      destruct (Hwr p c w3) as ([] & w4 & H4 & _)
    end.
    erewrite run_bind.
    2:{ erewrite run_bind by (apply run_ext_ok; exact H4). reflexivity. }
    cbn [ret].
    eexists. split; [reflexivity|]. cbn [locals trace].
    split; [exact Hsub|]. split; [exact Hlen|].
    apply in_or_app. left. apply in_or_app. left.
    apply in_or_app. right. left. reflexivity.
Qed.

Lemma emits_collect_setup (pl : PublicPlaylist World) (fuel : nat) :
  emits setup_event (_collect_playlist_tracks fuel pl).
Proof.
  eapply emits_weaken; [|apply emits_collect_catalog].
  intros ev Hev. destruct ev; cbn in Hev |- *; auto.
Qed.

Lemma run_collects_unique (fuel : nat) (args : Args) (w : World)
    (tr : list event) (t1 t2 : list value) (c1 c2 : state World (list value)) :
  run_collects E fuel args w tr t1 c1 ->
  run_collects E fuel args w tr t2 c2 ->
  t1 = t2 /\ c1 = c2.
Proof.
  intros (p1 & w1 & pl1 & w2 & Ha & Hb & Hc) (p1' & w1' & pl1' & w2' & Ha' & Hb' & Hc').
  rewrite Ha in Ha'. inversion Ha'; subst.
  rewrite Hb in Hb'. inversion Hb'; subst.
  rewrite Hc in Hc'. inversion Hc'; subst. split; reflexivity.
Qed.

Lemma cmd_run_cases (fuel : nat) (args : Args) (s : state World (list failure))
    (r : outcome Z) (s' : state World (list failure)) :
  cmd_export_playlist_with_audio E fuel args s = (r, s') ->
  (r <> Return 0%Z /\ (forall z, r = Return z -> z = 2%Z)
   /\ locals s' = locals s
   /\ (forall tracks c',
         run_collects E fuel args (world s) (trace s) tracks c' -> tracks = [])
   /\ exists evs, trace s' = trace s ++ evs /\ Forall setup_event evs)
  \/ (exists tracks c',
        run_collects E fuel args (world s) (trace s) tracks c'
        /\ Forall (fun t => exists d, t = VDict d) tracks /\ tracks <> []
        /\ (exists evs, trace c' = trace s ++ evs /\ Forall setup_event evs)
        /\ export_tracks E args tracks (State (locals s) (world c') (trace c'))
           = (r, s')).
Proof.
  destruct s as [l w tr]. cbn [locals world trace].
  unfold cmd_export_playlist_with_audio, print_err.
  destruct (shutil_which E (lit "yt-dlp") w) as [found w1] eqn:Hwhich.
  erewrite run_bind by (apply run_ext_total; exact Hwhich).
  cbn [locals world trace].
  destruct found as [path|].
  2:{ erewrite run_bind by reflexivity. cbn [ret]. intros H; inversion H; subst.
      left. split; [discriminate|]. split; [intros z Hz; inversion Hz; reflexivity|].
      split; [reflexivity|].
      split; [intros tracks c' (p & w1' & pl' & w2' & Ha & _);
              rewrite Hwhich in Ha; discriminate|].
      cbn [trace]. rewrite <- app_assoc. eexists. split; [reflexivity|].
      repeat constructor. }
  destruct (new_PublicPlaylist E (playlist args) w1) as [[pl|e] w2] eqn:Hnew.
  2:{ erewrite run_bind_throw by (apply run_ext_raise; exact Hnew).
      cbn [locals world trace]. intros H; inversion H; subst.
      left. split; [discriminate|]. split; [discriminate|]. split; [reflexivity|].
      split; [intros tracks c' (p & w1' & pl' & w2' & Ha & Hb & _);
              rewrite Hwhich in Ha; inversion Ha; subst;
              rewrite Hnew in Hb; discriminate|].
      cbn [trace]. rewrite <- app_assoc. eexists. split; [reflexivity|].
      repeat constructor. }
  erewrite run_bind by (apply run_ext_ok; exact Hnew).
  cbn [locals world trace]. rewrite <- app_assoc. cbn [app].
  destruct (emits_collect_setup pl fuel
              (State [] w2
                 (tr ++ [EvWhich (lit "yt-dlp"); EvPublicPlaylist (playlist args)])))
    as (cevs & Hct & Hcq).
  destruct (_collect_playlist_tracks fuel pl
              (State [] w2
                 (tr ++ [EvWhich (lit "yt-dlp"); EvPublicPlaylist (playlist args)])))
    as [rc [lc wc trc]] eqn:Hc.
  cbn [snd trace] in Hct. subst trc.
  assert (Hcall :
            call (L := list failure) []
              (_collect_playlist_tracks fuel pl)
              (State l w2
                 (tr ++ [EvWhich (lit "yt-dlp"); EvPublicPlaylist (playlist args)]))
            = (rc, State l wc
                     ((tr ++ [EvWhich (lit "yt-dlp");
                              EvPublicPlaylist (playlist args)]) ++ cevs))).
  { unfold call. cbn [locals world trace]. rewrite Hc. reflexivity. }
  assert (Hsame : forall tracks c',
             run_collects E fuel args w tr tracks c' ->
             rc = Return tracks
             /\ c' = State lc wc
                       ((tr ++ [EvWhich (lit "yt-dlp");
                                EvPublicPlaylist (playlist args)]) ++ cevs)).
  { intros tracks c' (p & w1' & pl' & w2' & Ha & Hb & Hc').
    rewrite Hwhich in Ha. inversion Ha; subst.
    rewrite Hnew in Hb. inversion Hb; subst.
    rewrite Hc in Hc'. inversion Hc'; subst. split; reflexivity. }
  assert (Hsetup : Forall setup_event
                     (EvWhich (lit "yt-dlp") :: EvPublicPlaylist (playlist args)
                        :: cevs)).
  { constructor; [exact I|]. constructor; [exact I|]. exact Hcq. }
  destruct rc as [tracks|e|].
  2:{ erewrite run_bind_throw by exact Hcall. intros H; inversion H; subst.
      left. split; [discriminate|]. split; [discriminate|]. split; [reflexivity|].
      split; [intros tracks c' Hrc; destruct (Hsame _ _ Hrc) as [Hx _];
              discriminate|].
      cbn [trace]. rewrite <- app_assoc. cbn [app].
      eexists. split; [reflexivity|]. exact Hsetup. }
  2:{ erewrite run_bind_diverge by exact Hcall. intros H; inversion H; subst.
      left. split; [discriminate|]. split; [discriminate|]. split; [reflexivity|].
      split; [intros tracks c' Hrc; destruct (Hsame _ _ Hrc) as [Hx _];
              discriminate|].
      cbn [trace]. rewrite <- app_assoc. cbn [app].
      eexists. split; [reflexivity|]. exact Hsetup. }
  erewrite run_bind by exact Hcall.
  destruct tracks as [|t ts].
  { erewrite run_bind by reflexivity. cbn [ret]. intros H; inversion H; subst.
    left. split; [discriminate|]. split; [intros z Hz; inversion Hz; reflexivity|].
    split; [reflexivity|].
    split; [intros tracks c' Hrc; destruct (Hsame _ _ Hrc) as [Hx _];
            inversion Hx; reflexivity|].
    cbn [trace]. rewrite <- !app_assoc. cbn [app].
    eexists. split; [reflexivity|].
    constructor; [exact I|]. constructor; [exact I|].
    apply Forall_app. split; [assumption|]. repeat constructor. }
  intros Hrun. right. exists (t :: ts). eexists.
  split; [exists path, w1, pl, w2; repeat split; eassumption|].
  split; [eapply collected_is_record; exact Hc|].
  split; [discriminate|].
  split; [|exact Hrun].
  cbn [trace]. rewrite <- app_assoc. cbn [app]. eexists. split; [reflexivity|].
  exact Hsetup.
Qed.

(** X20.  The export command ends with status 2 only before it has
    created anything: in such a run it has looked for the tool, opened
    the playlist, read the catalog and printed, and nothing else; no
    directory was created, no file written, no download started. *)
Theorem status_two_creates_nothing (fuel : nat) (args : Args)
    (s s' : state World (list failure)) :
  cmd_export_playlist_with_audio E fuel args s = (Return 2%Z, s') ->
  exists evs,
    trace s' = trace s ++ evs
    /\ Forall setup_event evs
    /\ (forall path, ~ In (EvMakedirs path) evs)
    /\ (forall path content, ~ In (EvWriteJson path content) evs)
    /\ (forall cmd, ~ In (EvSubprocessRun cmd) evs).
Proof.
  intros Hrun.
  destruct (cmd_run_cases _ _ _ Hrun) as [(_ & _ & _ & _ & evs & Ht & Hq)|Hx].
  - exists evs. split; [exact Ht|]. split; [exact Hq|].
    rewrite Forall_forall in Hq.
    repeat split; intros; intros Hin; apply Hq in Hin; exact Hin.
  - destruct Hx as (tracks & c' & _ & _ & _ & _ & Hx).
    apply returns_only_export_tracks in Hx. discriminate.
Qed.

(** X21.  When the export command ends with status 0, the list this run
    collected, from the playlist it opened and in the world it had
    reached, is a list of track records that is not empty; the output
    directory was created and the metadata file was written with that
    list; the failures the run ends with are tracks of that list, in its
    order. *)
Theorem status_zero_means_exported (fuel : nat) (args : Args)
    (s s' : state World (list failure)) :
  cmd_export_playlist_with_audio E fuel args s = (Return 0%Z, s') ->
  exists tracks c',
    run_collects E fuel args (world s) (trace s) tracks c'
    /\ tracks <> []
    /\ Forall (fun t => exists d, t = VDict d) tracks
    /\ (exists post,
          trace s'
          = trace c' ++ EvMakedirs (output args)
              :: EvWriteJson (meta_file_of args) (VList tracks) :: post)
    /\ subsequence (map failure_key (locals s')) (map track_key tracks).
Proof.
  intros Hrun. destruct (cmd_run_cases _ _ _ Hrun) as [(Hne & _)|Hx].
  - destruct Hne. reflexivity.
  - destruct Hx as (tracks & c' & Hrc & Hd & Hne & _ & Hx).
    destruct (@export_tracks_returned args tracks _ _ s' Hd Hx) as (_ & Hsub & evs & Ht).
    exists tracks, c'. split; [exact Hrc|]. split; [exact Hne|]. split; [exact Hd|].
    split; [|exact Hsub]. exists evs. exact Ht.
Qed.

(** X22.  [main] never lets an exception of the export command escape:
    a run that ends has the status 0 or 2 of the command, or the status
    1 after the one line [Error: ...] with the text of the exception the
    command raised was printed to the error stream. *)
Theorem main_exit_status (fuel : nat) (args : Args)
    (s : state World (list failure)) :
  (exists z s',
      main (cmd_export_playlist_with_audio E fuel args) s = (Return z, s')
      /\ ((z = 0%Z \/ z = 2%Z)
          /\ cmd_export_playlist_with_audio E fuel args s = (Return z, s')
          \/ z = 1%Z
             /\ exists e s1,
                  cmd_export_playlist_with_audio E fuel args s = (Throw e, s1)
                  /\ locals s' = locals s1 /\ world s' = world s1
                  /\ trace s' = trace s1 ++ [EvPrint true (lit "Error: " ++ exn_msg e)]))
  \/ (exists s',
        main (cmd_export_playlist_with_audio E fuel args) s = (Diverge, s')
        /\ cmd_export_playlist_with_audio E fuel args s = (Diverge, s')).
Proof.
  unfold main.
  destruct (cmd_export_playlist_with_audio E fuel args s) as [[z|e|] s1] eqn:Hrun.
  - left. exists z, s1. split; [apply run_try_return; exact Hrun|]. left.
    split; [|reflexivity].
    destruct (cmd_run_cases _ _ _ Hrun) as [(_ & Hz & _)|Hx].
    + right. apply Hz. reflexivity.
    + destruct Hx as (tracks & c' & _ & _ & _ & _ & Hx).
      left. exact (returns_only_export_tracks _ _ _ Hx).
  - left. exists 1%Z. eexists. split.
    + erewrite run_try_throw by exact Hrun. reflexivity.
    + right. split; [reflexivity|]. exists e, s1. repeat split.
  - right. exists s1. split; [|reflexivity]. apply run_try_diverge. exact Hrun.
Qed.

End ExitStatus.

Lemma export_tracks_completes_witness :
  exists s',
    export_tracks no_file_env five_args [VDict []; VDict []] (State [] tt [])
    = (Return 0%Z, s')
    /\ subsequence (map failure_key (locals s'))
         (map track_key [VDict []; VDict []])
    /\ length (locals s') <= 2
    /\ In (EvPrint false
             ([10%N] ++ lit "Download complete. "
                ++ str_of_Z (Z.of_nat 2 - Z.of_nat (length (locals s')))
                ++ lit "/" ++ str_of_N (N.of_nat 2)
                ++ lit " succeeded."))
          (trace s').
Proof.
  apply (@export_tracks_completes unit unit no_file_env five_args
           [VDict []; VDict []] (State [] tt [])).
  - repeat constructor; eexists; reflexivity.
  - intros w. exists tt, w. split; [reflexivity|exact I].
  - intros path content w. exists tt, w. split; [reflexivity|exact I].
Defined.

Lemma status_two_creates_nothing_witness :
  exists evs,
    trace (snd (cmd_export_playlist_with_audio no_tool_env 1 five_args
                  (State [] tt [])))
    = [] ++ evs
    /\ Forall setup_event evs
    /\ (forall path, ~ In (EvMakedirs path) evs)
    /\ (forall path content, ~ In (EvWriteJson path content) evs)
    /\ (forall cmd, ~ In (EvSubprocessRun cmd) evs).
Proof.
  apply (@status_two_creates_nothing unit unit no_tool_env 1 five_args
           (State [] tt [])
           (snd (cmd_export_playlist_with_audio no_tool_env 1 five_args
                   (State [] tt [])))).
  reflexivity.
Defined.

Lemma status_zero_means_exported_witness :
  exists tracks c',
    run_collects five_env 1 five_args tt [] tracks c'
    /\ tracks <> []
    /\ Forall (fun t => exists d, t = VDict d) tracks
    /\ (exists post,
          trace (snd (cmd_export_playlist_with_audio five_env 1 five_args
                        (State [] tt [])))
          = trace c' ++ EvMakedirs (output five_args)
              :: EvWriteJson (meta_file_of five_args) (VList tracks) :: post)
    /\ subsequence
         (map failure_key
            (locals (snd (cmd_export_playlist_with_audio five_env 1 five_args
                            (State [] tt [])))))
         (map track_key tracks).
Proof.
  apply (@status_zero_means_exported unit unit five_env 1 five_args
           (State [] tt [])
           (snd (cmd_export_playlist_with_audio five_env 1 five_args
                   (State [] tt [])))).
  vm_compute. reflexivity.
Defined.

Lemma decimal_value_snoc (s : pystr) (c : N) :
  decimal_value (s ++ [c]) = (decimal_value s * 10 + (c - 48))%N.
Proof. unfold decimal_value. rewrite fold_left_app. reflexivity. Qed.

Lemma decimal_value_zeros (k : nat) (s : pystr) :
  decimal_value (repeat 48%N k ++ s) = decimal_value s.
Proof.
  unfold decimal_value. rewrite fold_left_app. f_equal.
  induction k as [|k IH]; [reflexivity|]. cbn [repeat fold_left]. exact IH.
Qed.

Lemma decimal_value_digits_fuel (fuel : nat) :
  forall n, (n < 10 ^ N.of_nat fuel)%N -> decimal_value (digits_fuel fuel n) = n.
Proof.
  induction fuel as [|fuel IH]; intros n Hn; cbn [digits_fuel].
  - cbn in Hn. cbn. lia.
  - destruct (N.ltb_spec n 10) as [Hlt|Hge].
    + cbv [decimal_value fold_left]. lia.
    + rewrite decimal_value_snoc, IH.
      * pose proof (N.div_mod n 10 ltac:(lia)) as Hdm.
        revert Hdm. generalize (n / 10)%N (n mod 10)%N. intros q r Hdm. lia.
      * rewrite Nat2N.inj_succ, N.pow_succ_r' in Hn.
        apply N.Div0.div_lt_upper_bound. lia.
Qed.

Lemma pos_below_pow2 (p : positive) :
  (N.pos p < 2 ^ N.of_nat (Pos.size_nat p))%N.
Proof.
  induction p as [p IH|p IH|]; cbn [Pos.size_nat];
    rewrite Nat2N.inj_succ, N.pow_succ_r'; lia.
Qed.

Lemma below_pow10_size (n : N) : (n < 10 ^ N.of_nat (S (N.size_nat n)))%N.
Proof.
  rewrite Nat2N.inj_succ, N.pow_succ_r'.
  assert (H : (n < 2 ^ N.of_nat (N.size_nat n) \/ n = 0)%N).
  { destruct n as [|p]; [right; reflexivity|left; apply pos_below_pow2]. }
  assert (H2 : (2 ^ N.of_nat (N.size_nat n) <= 10 ^ N.of_nat (N.size_nat n))%N)
    by (apply N.pow_le_mono_l; lia).
  assert (H3 : (0 < 10 ^ N.of_nat (N.size_nat n))%N) by (apply N.neq_0_lt_0, N.pow_nonzero; lia).
  lia.
Qed.

Lemma decimal_value_str (n : N) : decimal_value (str_of_N n) = n.
Proof. apply decimal_value_digits_fuel, below_pow10_size. Qed.

Lemma decimal_value_format_03d (n : N) : decimal_value (format_03d n) = n.
Proof. unfold format_03d. rewrite decimal_value_zeros. apply decimal_value_str. Qed.

Lemma digits_before_underscore (a b r1 r2 : pystr) :
  Forall is_digit a -> Forall is_digit b ->
  a ++ 95%N :: r1 = b ++ 95%N :: r2 -> a = b.
Proof.
  intros Ha. revert b. induction Ha as [|x a Hx Ha IH]; intros b Hb H.
  - destruct Hb as [|y b Hy Hb]; [reflexivity|].
    cbn in H. inversion H; subst. red in Hy. lia.
  - destruct Hb as [|y b Hy Hb].
    + cbn in H. inversion H; subst. red in Hx. lia.
    + cbn in H. inversion H; subst. f_equal. eapply IH; eauto.
Qed.

Section DistinctFiles.

Variable World : Type.
Variable Obj : Type.
Variable E : Env World Obj.

Lemma safe_name_prefix (idx : N) (name : value) :
  (idx <= PY_SSIZE_T_MAX)%N ->
  exists rest, safe_name_of E idx name = format_03d idx ++ 95%N :: rest.
Proof.
  intros Hidx. unfold safe_name_of, remove_illegal. rewrite !filter_app.
  change (filter _ (format_03d idx)) with (remove_illegal (format_03d idx)).
  rewrite (remove_illegal_digits (format_03d_digits idx)).
  change (filter _ (lit "_")) with (lit "_").
  rewrite app_assoc, firstn_app.
  pose proof (format_03d_length Hidx) as Hlen.
  rewrite firstn_all2 by (rewrite length_app; cbn [length lit map list_ascii_of_string]; lia).
  rewrite <- app_assoc. eexists. reflexivity.
Qed.

(** X23.  Tracks at different positions of a playlist never share a file:
    the file names derived for two different indices differ, whatever the
    names of the tracks, and so do the output templates passed to the
    tool. *)
Theorem positions_have_distinct_files (out_dir : pystr) (i j : N)
    (name1 name2 : value) :
  (i <= PY_SSIZE_T_MAX)%N -> (j <= PY_SSIZE_T_MAX)%N -> i <> j ->
  safe_name_of E i name1 <> safe_name_of E j name2
  /\ out_file_of E out_dir i name1 <> out_file_of E out_dir j name2.
Proof.
  intros Hi Hj Hij.
  destruct (safe_name_prefix name1 Hi) as (r1 & H1).
  destruct (safe_name_prefix name2 Hj) as (r2 & H2).
  assert (Hne : safe_name_of E i name1 <> safe_name_of E j name2).
  { intros Heq. rewrite H1, H2 in Heq.
    apply digits_before_underscore in Heq; try apply format_03d_digits.
    apply Hij. rewrite <- (decimal_value_format_03d i), <- (decimal_value_format_03d j).
    rewrite Heq. reflexivity. }
  split; [exact Hne|].
  unfold out_file_of, path_join.
  assert (Hs : forall idx name, (idx <= PY_SSIZE_T_MAX)%N ->
             strip_prefix (lit "/") (safe_name_of E idx name ++ lit ".%(ext)s") = None).
  { intros idx name Hidx. destruct (safe_name_prefix name Hidx) as (r & ->).
    pose proof (format_03d_digits idx) as Hd.
    destruct (format_03d idx) as [|c rest].
    - reflexivity.
    - inversion Hd; subst.
      change (strip_prefix (lit "/") (((c :: rest) ++ 95%N :: r) ++ lit ".%(ext)s"))
        with (if N.eqb 47 c then Some ((rest ++ 95%N :: r) ++ lit ".%(ext)s") else None).
      destruct (N.eqb_spec 47 c) as [<-|Hc]; [|reflexivity].
      match goal with H : is_digit 47%N |- _ => red in H; lia end. }
  rewrite (Hs i name1 Hi), (Hs j name2 Hj).
  intros Heq. apply Hne.
  destruct (rev out_dir) as [|last ?]; [|destruct (N.eqb last 47)];
    repeat apply app_inv_head in Heq; apply app_inv_tail in Heq; exact Heq.
Qed.

End DistinctFiles.

Lemma positions_have_distinct_files_witness :
  safe_name_of five_env 1 (VStr (lit "a")) <> safe_name_of five_env 11 (VStr (lit "a"))
  /\ out_file_of five_env (lit "out") 1 (VStr (lit "a"))
     <> out_file_of five_env (lit "out") 11 (VStr (lit "a")).
Proof.
  apply (@positions_have_distinct_files unit unit five_env (lit "out") 1 11
           (VStr (lit "a")) (VStr (lit "a")));
    [unfold PY_SSIZE_T_MAX; lia | unfold PY_SSIZE_T_MAX; lia | discriminate].
Defined.

Section ExportFileRuns.

Variable World : Type.
Variable Obj : Type.
Variable E : Env World Obj.
Variable csv_open : pystr -> list pystr -> World -> result unit * World.
Variable csv_writerow : list (pystr * value) -> World -> result unit * World.

Lemma emits_ext_quiet {L A} (Q : event -> Prop) (f : World -> result A * World) :
  emits Q (@ext_quiet World L A f).
Proof.
  intros s. exists []. unfold ext_quiet.
  destruct (f (world s)) as [[a|e] w]; cbn; rewrite app_nil_r; auto.
Qed.





Lemma export_file_prelude (fuel : nat) (playlist : pystr) (s : state World unit) :
  exists evs,
    trace (snd (open_and_collect E fuel playlist s)) = trace s ++ evs
    /\ Forall setup_event evs
    /\ forall tracks, fst (open_and_collect E fuel playlist s) = Return tracks ->
         Forall (fun t => exists d, t = VDict d) tracks.
Proof.
  unfold open_and_collect.
  destruct (new_PublicPlaylist E playlist (world s)) as [[pl|e] w1] eqn:Hnew.
  2:{ erewrite run_bind_throw by (apply run_ext_raise; exact Hnew).
      cbn [fst snd trace]. eexists. split; [reflexivity|].
      split; [repeat constructor|discriminate]. }
  erewrite run_bind by (apply run_ext_ok; exact Hnew).
  match goal with
  | |- context [call ?init ?m ?s0] =>
    destruct (emits_call (L := unit) init (emits_collect_setup pl fuel) s0)
      as (cevs & Hct & Hcq);
      assert (Hcr : forall tracks, fst (call init m s0) = Return tracks ->
                exists c c', m c = (Return tracks, c'))
        by (unfold call; cbn [locals world trace];
            intros tracks Hr; destruct (m _) as [r0 c'] eqn:Hm; cbn in Hr;
            subst r0; eauto)
  end.
  rewrite Hct. cbn [trace]. rewrite <- app_assoc. eexists. split; [reflexivity|].
  split; [constructor; [exact I|exact Hcq]|].
  intros tracks Hr. destruct (Hcr _ Hr) as (c & c' & Hc).
  eapply collected_is_record; exact Hc.
Qed.

Lemma export_file_unfold (fuel : nat) (playlist format output : pystr)
    (s : state World unit) :
  cmd_export_playlist E csv_open csv_writerow fuel playlist format output s
  = bind (open_and_collect E fuel playlist)
      (fun tracks =>
         match tracks with
         | [] =>
           bind (print_err (lit "No tracks found or playlist inaccessible."))
                (fun _ => ret 2%Z)
         | _ :: _ =>
           let done :=
             bind (print (lit "Exported " ++ str_of_N (N.of_nat (length tracks))
                            ++ lit " tracks to " ++ output))
                  (fun _ => ret 0%Z) in
           if pystr_eqb (py_lower format) (lit "json") then
             bind (ext (EvWriteJson output (VList tracks))
                       (write_json E output (VList tracks)))
                  (fun _ => done)
           else if pystr_eqb (py_lower format) (lit "csv") then
             bind (export_csv csv_open csv_writerow output tracks) (fun _ => done)
           else
             bind (print_err (lit "Unsupported format. Use json or csv."))
                  (fun _ => ret 2%Z)
         end) s.
Proof.
  unfold cmd_export_playlist, open_and_collect, bind.
  destruct (ext _ _ s) as [[pl|e|] s1]; reflexivity.
Qed.


(** X25.  With a format other than [json] and [csv] the command never
    ends with status 0 and writes nothing; the format is looked at only
    after the playlist was opened and the catalog read, so the world is
    left as these leave it. *)
Theorem unsupported_format_writes_nothing (fuel : nat)
    (playlist format output : pystr) (s : state World unit) :
  py_lower format <> lit "json" -> py_lower format <> lit "csv" ->
  (forall z,
      fst (cmd_export_playlist E csv_open csv_writerow fuel playlist format output s)
      = Return z -> z = 2%Z)
  /\ world (snd (cmd_export_playlist E csv_open csv_writerow fuel playlist
                   format output s))
     = world (snd (open_and_collect E fuel playlist s))
  /\ exists evs,
       trace (snd (cmd_export_playlist E csv_open csv_writerow fuel playlist
                     format output s))
       = trace s ++ evs
       /\ Forall setup_event evs.
Proof.
  intros Hjson Hcsv. rewrite export_file_unfold.
  destruct (pystr_eqb_spec (py_lower format) (lit "json")) as [Heq|_];
    [destruct (Hjson Heq)|].
  destruct (pystr_eqb_spec (py_lower format) (lit "csv")) as [Heq|_];
    [destruct (Hcsv Heq)|].
  destruct (export_file_prelude fuel playlist s) as (evs & Ht & Hq & _).
  destruct (open_and_collect E fuel playlist s) as [[tracks|e|] [l1 w1 tr1]] eqn:Hoc;
    cbn [fst snd trace world] in *; subst tr1.
  - erewrite run_bind by exact Hoc.
    destruct tracks as [|t ts]; unfold bind, print_err, emit, ret;
      cbn [fst snd trace world locals].
    + split; [intros z Hz; inversion Hz; reflexivity|]. split; [reflexivity|].
      rewrite <- app_assoc. eexists. split; [reflexivity|].
      apply Forall_app. split; [exact Hq|repeat constructor].
    + split; [intros z Hz; inversion Hz; reflexivity|]. split; [reflexivity|].
      rewrite <- app_assoc. eexists. split; [reflexivity|].
      apply Forall_app. split; [exact Hq|repeat constructor].
  - erewrite run_bind_throw by exact Hoc. cbn [fst snd trace world].
    split; [discriminate|]. split; [reflexivity|]. eauto.
  - erewrite run_bind_diverge by exact Hoc. cbn [fst snd trace world].
    split; [discriminate|]. split; [reflexivity|]. eauto.
Qed.

(** X26.  With the format [json], in any letter case, a run that ends
    with status 0 has collected a list of track records that is not
    empty, has then written exactly that list to the output path and
    printed the number of its tracks; a run that ends with status 2 has
    written nothing. *)
Theorem json_export_writes_the_list (fuel : nat)
    (playlist format output : pystr) (s s' : state World unit) (z : Z) :
  py_lower format = lit "json" ->
  cmd_export_playlist E csv_open csv_writerow fuel playlist format output s
  = (Return z, s') ->
  (z = 2%Z
   /\ exists evs, trace s' = trace s ++ evs /\ Forall setup_event evs)
  \/ (z = 0%Z
      /\ exists tracks,
           tracks <> []
           /\ Forall (fun t => exists d, t = VDict d) tracks
           /\ fst (open_and_collect E fuel playlist s) = Return tracks
           /\ trace s'
              = trace (snd (open_and_collect E fuel playlist s))
                  ++ [ EvWriteJson output (VList tracks);
                       EvPrint false
                         (lit "Exported " ++ str_of_N (N.of_nat (length tracks))
                            ++ lit " tracks to " ++ output) ]).
Proof.
  intros Hfmt. rewrite export_file_unfold. rewrite Hfmt.
  change (pystr_eqb (lit "json") (lit "json")) with true. cbv iota.
  destruct (export_file_prelude fuel playlist s) as (evs & Ht & Hq & Hd).
  destruct (open_and_collect E fuel playlist s) as [[tracks|e|] [l1 w1 tr1]] eqn:Hoc;
    cbn [fst snd trace world] in *; subst tr1.
  2:{ erewrite run_bind_throw by exact Hoc. discriminate. }
  2:{ erewrite run_bind_diverge by exact Hoc. discriminate. }
  erewrite run_bind by exact Hoc.
  destruct tracks as [|t ts].
  - unfold bind, print_err, emit, ret. cbn [fst snd trace world locals].
    intros H; inversion H; subst. left. split; [reflexivity|].
    cbn [trace]. rewrite <- app_assoc. eexists. split; [reflexivity|].
    apply Forall_app. split; [exact Hq|repeat constructor].
  - unfold bind at 1, ext at 1. cbn [locals world trace].
    destruct (write_json E output (VList (t :: ts)) w1) as [[[]|e] w2];
      [|discriminate].
    intros H; inversion H; subst. right. split; [reflexivity|].
    exists (t :: ts). split; [discriminate|]. split; [apply Hd; reflexivity|].
    split; [reflexivity|]. cbn [trace]. rewrite <- app_assoc. reflexivity.
Qed.

End ExportFileRuns.


Lemma unsupported_format_writes_nothing_witness :
  (forall z,
      fst (cmd_export_playlist five_env (fun _ _ w => (Ok tt, w))
             (fun _ w => (Ok tt, w)) 1 (lit "p") (lit "xml") (lit "out.xml")
             (State tt tt []))
      = Return z -> z = 2%Z)
  /\ world (snd (cmd_export_playlist five_env (fun _ _ w => (Ok tt, w))
                   (fun _ w => (Ok tt, w)) 1 (lit "p") (lit "xml") (lit "out.xml")
                   (State tt tt [])))
     = world (snd (open_and_collect five_env 1 (lit "p") (State tt tt [])))
  /\ exists evs,
       trace (snd (cmd_export_playlist five_env (fun _ _ w => (Ok tt, w))
                     (fun _ w => (Ok tt, w)) 1 (lit "p") (lit "xml") (lit "out.xml")
                     (State tt tt [])))
       = [] ++ evs
       /\ Forall setup_event evs.
Proof.
  apply (@unsupported_format_writes_nothing unit unit five_env
           (fun _ _ w => (Ok tt, w)) (fun _ w => (Ok tt, w))
           1 (lit "p") (lit "xml") (lit "out.xml") (State tt tt []));
    discriminate.
Defined.

Lemma json_export_writes_the_list_witness :
  (0%Z = 2%Z
   /\ exists evs,
        trace (snd (cmd_export_playlist five_env (fun _ _ w => (Ok tt, w))
                      (fun _ w => (Ok tt, w)) 1 (lit "p") (lit "JSON")
                      (lit "out.json") (State tt tt [])))
        = [] ++ evs /\ Forall setup_event evs)
  \/ (0%Z = 0%Z
      /\ exists tracks,
           tracks <> []
           /\ Forall (fun t => exists d, t = VDict d) tracks
           /\ fst (open_and_collect five_env 1 (lit "p") (State tt tt []))
              = Return tracks
           /\ trace (snd (cmd_export_playlist five_env (fun _ _ w => (Ok tt, w))
                            (fun _ w => (Ok tt, w)) 1 (lit "p") (lit "JSON")
                            (lit "out.json") (State tt tt [])))
              = trace (snd (open_and_collect five_env 1 (lit "p") (State tt tt [])))
                  ++ [ EvWriteJson (lit "out.json") (VList tracks);
                       EvPrint false
                         (lit "Exported " ++ str_of_N (N.of_nat (length tracks))
                            ++ lit " tracks to " ++ lit "out.json") ]).
Proof.
  apply (@json_export_writes_the_list unit unit five_env
           (fun _ _ w => (Ok tt, w)) (fun _ w => (Ok tt, w))
           1 (lit "p") (lit "JSON") (lit "out.json") (State tt tt [])
           (snd (cmd_export_playlist five_env (fun _ _ w => (Ok tt, w))
                   (fun _ w => (Ok tt, w)) 1 (lit "p") (lit "JSON")
                   (lit "out.json") (State tt tt []))) 0%Z).
  - reflexivity.
  - vm_compute. reflexivity.
Defined.

Section ListingRuns.

Variable World : Type.
Variable Obj : Type.
Variable E : Env World Obj.

Lemma print_entry_extracted {L} (idx : N) (entry t : value) (s : state World L) :
  _extract_track_from_item entry = Ok t ->
  print_entry E idx entry s
  = (Return tt,
     State (locals s) (world s)
           (trace s ++ map (EvPrint false)
                         (if truthy t then [record_line E idx t] else []))).
Proof.
  intros H. destruct s as [l w tr].
  unfold _extract_track_from_item, rbind in H.
  destruct_extract H; inversion H; subst; clear H;
    unfold print_entry, track_payload, artists_text, rbind, bind, lift, print, emit, ret;
    repeat match goal with
           | Hx : ?lhs = _ |- context [?lhs] => rewrite Hx
           end;
    cbn [locals world trace map truthy]; rewrite ?app_nil_r; reflexivity.
Qed.

Lemma listing_run {L} (entries : list value) :
  extract_error entries = None ->
  forall (idx : N) (s : state World L),
    for_each (enumerate idx entries)
      (fun it => print_entry E (fst it) (snd it)) s
    = (Return tt,
       State (locals s) (world s)
             (trace s ++ map (EvPrint false) (listing E idx entries))).
Proof.
  induction entries as [|entry rest IH]; intros Herr idx s.
  - destruct s. cbn. rewrite app_nil_r. reflexivity.
  - cbn [extract_error] in Herr. cbn [enumerate for_each fst snd listing].
    destruct (_extract_track_from_item entry) as [t|e] eqn:Hx; [|discriminate].
    erewrite run_bind by (apply print_entry_extracted; exact Hx).
    rewrite (IH Herr). cbn [locals world trace].
    rewrite map_app, app_assoc. reflexivity.
Qed.

Lemma items_give_header (info items : value) :
  playlist_items info = Ok items -> exists header, playlist_header info = Ok header.
Proof.
  unfold playlist_items, playlist_header, rbind. intros H.
  destruct (py_get info (lit "data") (VDict [])) as [d|]; [|discriminate].
  destruct (py_get d (lit "playlistV2") (VDict [])) as [p|]; [|discriminate].
  destruct p; try discriminate. cbn [py_get]. eauto.
Qed.

(** X27.  The listing of a playlist agrees with the extractor: when the
    entries of the answer are entries the extractor accepts, the command
    prints the header and then, for each entry whose record is not
    empty, one line with the name, the artists and the address of that
    record, numbered by the position of the entry in the answer; entries
    without payload are skipped but counted; the status is 0. *)
Theorem listing_matches_extractor (playlist : pystr) (limit offset : Z)
    (pl : PublicPlaylist World) (info : value) (entries : list value)
    (s : state World unit) :
  always_returns (new_PublicPlaylist E playlist) (fun p => p = pl) ->
  always_returns (get_playlist_info pl limit offset) (fun r => r = info) ->
  playlist_items info = Ok (VList entries) ->
  extract_error entries = None ->
  exists s' header,
    cmd_public_playlist E playlist limit offset s = (Return 0%Z, s')
    /\ playlist_header info = Ok header
    /\ trace s'
       = trace s
           ++ [ EvPublicPlaylist playlist; EvGetPlaylistInfo limit offset;
                EvPrint false (py_str E header) ]
           ++ map (EvPrint false) (listing E 0 entries).
Proof.
  intros Hnew Hinfo Hitems Herr. destruct s as [l w tr].
  destruct (Hnew w) as (pl0 & w1 & H1 & ->).
  destruct (Hinfo w1) as (info0 & w2 & H2 & ->).
  destruct (@items_give_header info _ Hitems) as (header & Hh).
  unfold cmd_public_playlist, print.
  erewrite run_bind by (apply run_ext_ok; exact H1). cbn [locals world trace].
  erewrite run_bind by (apply run_ext_ok; exact H2). cbn [locals world trace].
  rewrite Hh, Hitems.
  erewrite run_bind by reflexivity.
  erewrite run_bind by reflexivity. cbn [locals world trace].
  erewrite run_bind by reflexivity.
  erewrite run_bind by reflexivity.
  erewrite run_bind by (apply listing_run; exact Herr).
  cbn [locals world trace ret].
  eexists. exists header. split; [reflexivity|]. split; [reflexivity|].
  cbn [trace]. rewrite <- !app_assoc. reflexivity.
Qed.

End ListingRuns.

Lemma listing_matches_extractor_witness :
  exists s' header,
    cmd_public_playlist five_env (lit "p") 25 0 (State tt tt []) = (Return 0%Z, s')
    /\ playlist_header (response_of five_entries) = Ok header
    /\ trace s'
       = [] ++ [ EvPublicPlaylist (lit "p"); EvGetPlaylistInfo 25 0;
                 EvPrint false (py_str five_env header) ]
            ++ map (EvPrint false) (listing five_env 0 five_entries).
Proof.
  apply (@listing_matches_extractor unit unit five_env (lit "p") 25 0
           five_playlist (response_of five_entries) five_entries (State tt tt [])).
  - intros w. exists five_playlist, w. split; reflexivity.
  - intros w. exists (response_of five_entries), w. split; reflexivity.
  - reflexivity.
  - vm_compute. reflexivity.
Defined.

Section Journals.

Variable World : Type.
Variable Q : account_call -> Prop.

Lemma journals_ret {A} (a : A) : journals Q (@ret World _ A a).
Proof. intros s. exists []. cbn. rewrite app_nil_r. auto. Qed.

Lemma journals_raise {A} (e : exn) : journals Q (@raise World _ A e).
Proof. intros s. exists []. cbn. rewrite app_nil_r. auto. Qed.

Lemma journals_lift {A} (r : result A) : journals Q (@lift World _ A r).
Proof. intros s. exists []. destruct r; cbn; rewrite app_nil_r; auto. Qed.

Lemma journals_emit (ev : event) : journals Q (@emit World _ ev).
Proof. intros s. exists []. cbn. rewrite app_nil_r. auto. Qed.

Lemma journals_bind {A B} (m : M World (list account_call) A)
    (k : A -> M World (list account_call) B) :
  journals Q m -> (forall a, journals Q (k a)) -> journals Q (bind m k).
Proof.
  intros Hm Hk s. unfold bind. destruct (Hm s) as (j1 & H1 & Hq1).
  destruct (m s) as [[a|e|] s1]; cbn [snd] in *; eauto.
  destruct (Hk a s1) as (j2 & H2 & Hq2).
  exists (j1 ++ j2). rewrite H2, H1, app_assoc. split; [reflexivity|].
  apply Forall_app; auto.
Qed.

Lemma journals_acall {A} (c : account_call) (f : World -> result A * World) :
  Q c -> journals Q (acall c f).
Proof.
  intros Hc s. exists [c]. unfold acall, bind, get_locals, set_locals, ext_quiet.
  cbn [locals world trace snd].
  destruct (f (world s)) as [[a|e] w]; cbn; auto.
Qed.

End Journals.

Section AccountRuns.

Variable World : Type.
Variables Cfg Login Priv SongT : Type.
Variable A : Account World Cfg Login Priv SongT.

Lemma run_acall_ok {R} (c : account_call) (f : World -> result R * World)
    (s : state World (list account_call)) (a : R) (w : World) :
  f (world s) = (Ok a, w) ->
  acall c f s = (Return a, State (locals s ++ [c]) w (trace s)).
Proof.
  intros H. unfold acall, bind, get_locals, set_locals, ext_quiet.
  cbn [locals world trace]. rewrite H. reflexivity.
Qed.

Lemma run_acall_raise {R} (c : account_call) (f : World -> result R * World)
    (s : state World (list account_call)) (e : exn) (w : World) :
  f (world s) = (Raise e, w) ->
  acall c f s = (@Throw R e, State (locals s ++ [c]) w (trace s)).
Proof.
  intros H. unfold acall, bind, get_locals, set_locals, ext_quiet.
  cbn [locals world trace]. rewrite H. reflexivity.
Qed.

Lemma load_login_missing (path : pystr) (s : state World (list account_call)) :
  fst (path_exists A path (world s)) = false ->
  load_login_from_cookies A path s
  = (Throw (Exn FileNotFoundError (lit "Cookies file not found: " ++ path)),
     State (locals s ++ [CallExists path]) (snd (path_exists A path (world s)))
           (trace s)).
Proof.
  intros H. unfold load_login_from_cookies.
  destruct (path_exists A path (world s)) as [b w1] eqn:Hex. cbn [fst snd] in *. subst b.
  erewrite run_bind by (apply run_acall_ok; rewrite Hex; reflexivity).
  reflexivity.
Qed.

(** X28.  Without the cookies file neither account command reaches the
    account: the only call made is the test for the file, and [main]
    ends with status 1 after printing
    [Error: Cookies file not found: ...] with the path, whatever the
    other arguments are. *)
Theorem missing_cookies_status_one (cookies playlist name : pystr)
    (song_id query : option pystr) (s : state World (list account_call)) :
  fst (path_exists A cookies (world s)) = false ->
  (exists s',
      main (cmd_add_to_playlist A cookies playlist song_id query) s
      = (Return 1%Z, s')
      /\ locals s' = locals s ++ [CallExists cookies]
      /\ trace s'
         = trace s ++ [EvPrint true (lit "Error: Cookies file not found: "
                                       ++ cookies)])
  /\ (exists s',
        main (cmd_create_playlist A cookies name) s = (Return 1%Z, s')
        /\ locals s' = locals s ++ [CallExists cookies]
        /\ trace s'
           = trace s ++ [EvPrint true (lit "Error: Cookies file not found: "
                                         ++ cookies)]).
Proof.
  intros H. pose proof (load_login_missing cookies s H) as Hl.
  split; eexists; (split; [|split]).
  - unfold main, cmd_add_to_playlist.
    erewrite run_try_throw by (erewrite run_bind_throw by exact Hl; reflexivity).
    reflexivity.
  - reflexivity.
  - reflexivity.
  - unfold main, cmd_create_playlist.
    erewrite run_try_throw by (erewrite run_bind_throw by exact Hl; reflexivity).
    reflexivity.
  - reflexivity.
  - reflexivity.
Qed.

Lemma journals_load_login (Q : account_call -> Prop) (path : pystr) :
  (forall c, is_add_song c = false -> Q c) ->
  journals Q (load_login_from_cookies A path).
Proof.
  intros HQ. unfold load_login_from_cookies, build_cfg.
  apply journals_bind; [apply journals_acall, HQ; reflexivity|]. intros found.
  destruct (negb found); [apply journals_raise|].
  apply journals_bind; [apply journals_acall, HQ; reflexivity|]. intros dump.
  apply journals_bind; [apply journals_acall, HQ; reflexivity|]. intros cfg.
  apply journals_acall, HQ; reflexivity.
Qed.

Lemma journals_choose_song (song_id query : option pystr) :
  journals (fun c => is_add_song c = false) (choose_song A song_id query).
Proof.
  unfold choose_song, print_err.
  destruct (given song_id); [apply journals_ret|].
  destruct (given query).
  2:{ apply journals_bind; [apply journals_emit|]. intros _. apply journals_ret. }
  apply journals_bind; [apply journals_acall; reflexivity|]. intros search.
  apply journals_bind; [apply journals_acall; reflexivity|]. intros data.
  apply journals_bind; [apply journals_lift|]. intros items.
  destruct (negb (truthy items)).
  { apply journals_bind; [apply journals_emit|]. intros _. apply journals_ret. }
  apply journals_bind; [apply journals_lift|]. intros uri.
  destruct (negb (truthy uri)).
  { apply journals_bind; [apply journals_emit|]. intros _. apply journals_ret. }
  destruct uri; try apply journals_raise. apply journals_ret.
Qed.

Lemma add_unfold (cookies playlist : pystr) (song_id query : option pystr)
    (s : state World (list account_call)) :
  cmd_add_to_playlist A cookies playlist song_id query s
  = bind (add_prelude A cookies playlist song_id query)
      (fun p =>
         match snd p with
         | inl status => ret status
         | inr id =>
           bind (acall (CallAddSong id) (add_song_to_playlist A (fst p) id))
                (fun _ => bind (print (lit "Added.")) (fun _ => ret 0%Z))
         end) s.
Proof.
  unfold cmd_add_to_playlist, add_prelude, bind.
  destruct (load_login_from_cookies A cookies s) as [[login|e|] s1]; try reflexivity.
  destruct (acall _ _ s1) as [[priv|e|] s2]; try reflexivity.
  destruct (acall _ _ s2) as [[helper|e|] s3]; try reflexivity.
  destruct (choose_song A song_id query s3) as [[chosen|e|] s4]; reflexivity.
Qed.

Lemma journals_add_prelude (cookies playlist : pystr) (song_id query : option pystr) :
  journals (fun c => is_add_song c = false)
    (add_prelude A cookies playlist song_id query).
Proof.
  unfold add_prelude.
  apply journals_bind; [apply journals_load_login; auto|]. intros login.
  apply journals_bind; [apply journals_acall; reflexivity|]. intros priv.
  apply journals_bind; [apply journals_acall; reflexivity|]. intros helper.
  apply journals_bind; [apply journals_choose_song|]. intros chosen.
  apply journals_ret.
Qed.

(** X29.  When [cmd_add_to_playlist] ends with status 2, no song was
    added: the journal of the run holds no call of
    [add_song_to_playlist]. *)
Theorem status_two_adds_nothing (cookies playlist : pystr)
    (song_id query : option pystr) (s s' : state World (list account_call)) :
  cmd_add_to_playlist A cookies playlist song_id query s = (Return 2%Z, s') ->
  exists j,
    locals s' = locals s ++ j
    /\ forall id, ~ In (CallAddSong id) j.
Proof.
  rewrite add_unfold.
  destruct (journals_add_prelude cookies playlist song_id query s) as (j & Hj & Hq).
  destruct (add_prelude A cookies playlist song_id query s)
    as [[[helper [status|id]]|e|] s4] eqn:Hp; cbn [snd] in Hj.
  - erewrite run_bind by exact Hp. cbn [snd ret]. intros Hrun. inversion Hrun; subst.
    exists j. split; [exact Hj|]. intros id Hin.
    rewrite Forall_forall in Hq. apply Hq in Hin. discriminate.
  - erewrite run_bind by exact Hp. cbn [snd fst]. unfold bind at 1.
    destruct (acall _ _ s4) as [[[]|e|] s5]; discriminate.
  - erewrite run_bind_throw by exact Hp. discriminate.
  - erewrite run_bind_diverge by exact Hp. discriminate.
Qed.

Lemma load_login_returns (path : pystr) (s s1 : state World (list account_call))
    (login : Login) :
  load_login_from_cookies A path s = (Return login, s1) ->
  (exists dump,
      locals s1 = locals s ++ [ CallExists path; CallReadJson path; CallConfig;
                                CallLogin dump ])
  /\ trace s1 = trace s.
Proof.
  destruct s as [l w tr]. unfold load_login_from_cookies, build_cfg.
  destruct (path_exists A path w) as [b w1] eqn:H1.
  erewrite run_bind by (apply run_acall_ok; cbn [world]; rewrite H1; reflexivity).
  cbn [locals world trace].
  destruct b; cbn [negb]; [|discriminate].
  destruct (read_json A path w1) as [[dump|e] w2] eqn:H2.
  2:{ erewrite run_bind_throw by (apply run_acall_raise; exact H2). discriminate. }
  erewrite run_bind by (apply run_acall_ok; exact H2). cbn [locals world trace].
  destruct (new_Config A w2) as [[cfg|e] w3] eqn:H3.
  2:{ erewrite run_bind_throw by (apply run_acall_raise; exact H3). discriminate. }
  erewrite run_bind by (apply run_acall_ok; exact H3). cbn [locals world trace].
  destruct (login_from_cookies A dump cfg w3) as [[lg|e] w4] eqn:H4.
  2:{ erewrite run_acall_raise by exact H4. discriminate. }
  erewrite run_acall_ok by exact H4. cbn [locals world trace].
  intros H; inversion H; subst. cbn [locals trace].
  split; [|reflexivity]. exists dump. rewrite <- !app_assoc. reflexivity.
Qed.

(** X30.  A song identifier given on the command line is used, whatever
    the query is, and no search is made: a run of
    [cmd_add_to_playlist] that returns has status 0, has made one call
    of [add_song_to_playlist], the last call of the run, with
    [parse_track_id] of the identifier, and has printed [Added.]. *)
Theorem song_id_is_normalised (cookies playlist sid : pystr)
    (query : option pystr) (s s' : state World (list account_call)) (z : Z) :
  sid <> [] ->
  cmd_add_to_playlist A cookies playlist (Some sid) query s = (Return z, s') ->
  z = 0%Z
  /\ (exists dump,
        locals s'
        = locals s ++ [ CallExists cookies; CallReadJson cookies; CallConfig;
                        CallLogin dump; CallPrivatePlaylist (Some playlist);
                        CallSong true; CallAddSong (parse_track_id sid) ])
  /\ trace s' = trace s ++ [EvPrint false (lit "Added.")].
Proof.
  intros Hsid. unfold cmd_add_to_playlist, choose_song.
  destruct sid as [|c sid]; [destruct Hsid; reflexivity|]. cbn [given].
  set (id := parse_track_id (c :: sid)).
  destruct (load_login_from_cookies A cookies s) as [[login|e|] [l1 w1 tr1]] eqn:Hl.
  2:{ erewrite run_bind_throw by exact Hl. discriminate. }
  2:{ erewrite run_bind_diverge by exact Hl. discriminate. }
  destruct (load_login_returns _ _ Hl) as ((dump & Hj) & Ht).
  cbn [locals trace] in Hj, Ht. subst l1 tr1.
  erewrite run_bind by exact Hl.
  destruct (new_PrivatePlaylist A login (Some playlist) w1) as [[priv|e] w2] eqn:H2.
  2:{ erewrite run_bind_throw by (apply run_acall_raise; exact H2). discriminate. }
  erewrite run_bind by (apply run_acall_ok; exact H2). cbn [locals world trace].
  destruct (new_Song A (Some priv) w2) as [[helper|e] w3] eqn:H3.
  2:{ erewrite run_bind_throw by (apply run_acall_raise; exact H3). discriminate. }
  erewrite run_bind by (apply run_acall_ok; exact H3). cbn [locals world trace].
  erewrite run_bind by reflexivity.
  destruct (add_song_to_playlist A helper id w3) as [[[]|e] w4] eqn:H4.
  2:{ erewrite run_bind_throw by (apply run_acall_raise; exact H4). discriminate. }
  erewrite run_bind by (apply run_acall_ok; exact H4). cbn [locals world trace].
  erewrite run_bind by reflexivity. cbn [ret locals world trace].
  intros H; inversion H; subst. cbn [locals trace].
  split; [reflexivity|]. split; [|reflexivity].
  exists dump. rewrite <- !app_assoc. reflexivity.
Qed.

End AccountRuns.

Lemma missing_cookies_status_one_witness :
  (exists s',
      main (cmd_add_to_playlist no_cookies_account (lit "cookies.json") (lit "p")
              (Some (lit "4uLU6hMCjMI75M1A2tKUQC")) None) (State [] 0 [])
      = (Return 1%Z, s')
      /\ locals s' = [] ++ [CallExists (lit "cookies.json")]
      /\ trace s'
         = [] ++ [EvPrint true (lit "Error: Cookies file not found: "
                                  ++ lit "cookies.json")])
  /\ (exists s',
        main (cmd_create_playlist no_cookies_account (lit "cookies.json") (lit "mix"))
          (State [] 0 [])
        = (Return 1%Z, s')
        /\ locals s' = [] ++ [CallExists (lit "cookies.json")]
        /\ trace s'
           = [] ++ [EvPrint true (lit "Error: Cookies file not found: "
                                    ++ lit "cookies.json")]).
Proof.
  apply (@missing_cookies_status_one nat unit unit unit unit no_cookies_account
           (lit "cookies.json") (lit "p") (lit "mix")
           (Some (lit "4uLU6hMCjMI75M1A2tKUQC")) None (State [] 0 [])).
  reflexivity.
Defined.

Lemma status_two_adds_nothing_witness :
  exists j,
    locals (snd (cmd_add_to_playlist plain_account (lit "cookies.json") (lit "p")
                   None (Some (lit "a song")) (State [] 0 [])))
    = [] ++ j
    /\ forall id, ~ In (CallAddSong id) j.
Proof.
  apply (@status_two_adds_nothing nat unit unit unit unit plain_account
           (lit "cookies.json") (lit "p") None (Some (lit "a song"))
           (State [] 0 [])
           (snd (cmd_add_to_playlist plain_account (lit "cookies.json") (lit "p")
                   None (Some (lit "a song")) (State [] 0 [])))).
  vm_compute. reflexivity.
Defined.

Lemma song_id_is_normalised_witness :
  0%Z = 0%Z
  /\ (exists dump,
        locals (snd (cmd_add_to_playlist plain_account (lit "cookies.json") (lit "p")
                       (Some (lit "spotify:track:4uLU6hMCjMI75M1A2tKUQC"))
                       (Some (lit "a song")) (State [] 0 [])))
        = [] ++ [ CallExists (lit "cookies.json"); CallReadJson (lit "cookies.json");
                  CallConfig; CallLogin dump; CallPrivatePlaylist (Some (lit "p"));
                  CallSong true;
                  CallAddSong (parse_track_id
                                 (lit "spotify:track:4uLU6hMCjMI75M1A2tKUQC")) ])
  /\ trace (snd (cmd_add_to_playlist plain_account (lit "cookies.json") (lit "p")
                   (Some (lit "spotify:track:4uLU6hMCjMI75M1A2tKUQC"))
                   (Some (lit "a song")) (State [] 0 [])))
     = [] ++ [EvPrint false (lit "Added.")].
Proof.
  apply (@song_id_is_normalised nat unit unit unit unit plain_account
           (lit "cookies.json") (lit "p")
           (lit "spotify:track:4uLU6hMCjMI75M1A2tKUQC")
           (Some (lit "a song")) (State [] 0 [])
           (snd (cmd_add_to_playlist plain_account (lit "cookies.json") (lit "p")
                   (Some (lit "spotify:track:4uLU6hMCjMI75M1A2tKUQC"))
                   (Some (lit "a song")) (State [] 0 []))) 0%Z).
  - discriminate.
  - vm_compute. reflexivity.
Defined.

(** ** The metadata comes first *)

Lemma setup_is_prelude (ev : event) : setup_event ev -> prelude_event ev.
Proof. destruct ev; cbn; intros H; try contradiction; split; reflexivity. Qed.

Section MetadataFirst.

Variable World : Type.
Variable Obj : Type.
Variable E : Env World Obj.

Lemma export_tracks_starts (args : Args) (tracks : list value)
    (s : state World (list failure)) :
  (exists e,
      fst (export_tracks E args tracks s) = Throw e
      /\ trace (snd (export_tracks E args tracks s))
         = trace s ++ [EvMakedirs (output args)])
  \/ exists post,
       trace (snd (export_tracks E args tracks s))
       = trace s ++ EvMakedirs (output args)
           :: EvWriteJson (meta_file_of args) (VList tracks) :: post.
Proof.
  destruct s as [l w tr]. unfold export_tracks, meta_file_of.
  destruct (os_makedirs E (output args) w) as [[[]|e] w1] eqn:H1.
  2:{ left. exists e.
      erewrite run_bind_throw by (apply run_ext_raise; exact H1).
      split; reflexivity. }
  right. erewrite run_bind by (apply run_ext_ok; exact H1).
  cbn [locals world trace].
  match goal with
  | |- context [bind (ext ?ev ?f) ?k ?s0] =>
    assert (Hk : forall a, emits (fun _ => True) (k a));
      [|destruct (@trace_after_ext World _ _ _ ev f k s0 Hk) as (rest & Hr)]
  end.
  { intros a. unfold print.
    repeat match goal with
           | |- emits _ (download_track _ _ _ _ _ _) =>
             eapply emits_weaken; [|apply emits_download_track]; intros; exact I
           | _ => emits_step
           end; try exact I. }
  rewrite Hr. cbn [trace]. rewrite <- app_assoc. cbn [app].
  exists rest. reflexivity.
Qed.

(** C6.  In every run of the command that has collected a list of tracks
    that is not empty, from the playlist it opened and in the world it
    had reached, the first thing done after the collection is the
    creation of the output directory, and unless that raises, the next is
    the write of the metadata file with the full list this run
    collected: nothing is downloaded and nothing is written before it,
    and nothing that happens to a track can prevent it.  A download is
    attempted only in such a run and only after that write.  When the
    run returns, a failure report has been written if and only if the
    list of failures is not empty, and it holds the records of these
    failures. *)
Theorem metadata_first_report_last (fuel : nat) (args : Args) (w : World)
    (tr : list event) (r : outcome Z) (s' : state World (list failure)) :
  cmd_export_playlist_with_audio E fuel args (State [] w tr) = (r, s') ->
  exists evs,
    trace s' = tr ++ evs
    /\ (forall tracks c',
          run_collects E fuel args w tr tracks c' -> tracks <> [] ->
          exists pre,
            Forall prelude_event pre
            /\ ((exists e, r = Throw e /\ evs = pre ++ [EvMakedirs (output args)])
                \/ exists post,
                     evs = pre ++ EvMakedirs (output args)
                             :: EvWriteJson (meta_file_of args) (VList tracks)
                             :: post))
    /\ (forall pre ev post,
          evs = pre ++ ev :: post -> is_download ev = true ->
          exists tracks c',
            run_collects E fuel args w tr tracks c'
            /\ In (EvWriteJson (meta_file_of args) (VList tracks)) pre)
    /\ (forall z, r = Return z ->
          ((exists content, In (EvWriteJson (fail_file_of args) content) evs)
           <-> locals s' <> [])
          /\ (forall content,
                In (EvWriteJson (fail_file_of args) content) evs ->
                content = VList (map failure_record (locals s')))).
Proof.
  intros Hrun.
  destruct (cmd_run_cases E _ _ _ Hrun) as [Hq|Hx]; cbn [locals world trace] in *.
  - destruct Hq as (_ & _ & Hl & Hnone & evs & Ht & Hq).
    assert (Hp : Forall prelude_event evs).
    { eapply Forall_impl; [|exact Hq]. apply setup_is_prelude. }
    destruct (quiet_run_shown args r Hp) as [Ha Hb].
    exists evs. split; [exact Ht|]. split; [|split].
    + intros tracks c' Hrc Hne. destruct Hne. eapply Hnone; exact Hrc.
    + intros pre ev post H Hev. destruct (Ha _ _ _ H Hev).
    + intros z _. rewrite Hl. split; [split|].
      * intros (c & Hc). destruct (Hb _ Hc).
      * congruence.
      * intros c Hc. destruct (Hb _ Hc).
  - destruct Hx as (tracks & c' & Hrc & _ & Hne & (pevs & Hpt & Hpq) & Hx).
    assert (Hp : Forall prelude_event pevs).
    { eapply Forall_impl; [|exact Hpq]. apply setup_is_prelude. }
    destruct (export_tracks_shown E args tracks (State [] (world c') (trace c')))
      as (xevs & Hxt & Hxs).
    rewrite Hx in Hxt, Hxs. cbn [fst snd] in Hxt, Hxs. destruct Hxs as [Hxa Hxb].
    destruct (export_tracks_starts args tracks (State [] (world c') (trace c')))
      as [(e & Hthrow & Hst)|(post & Hst)];
      rewrite Hx in Hst; try rewrite Hx in Hthrow;
      cbn [fst snd trace] in *;
      rewrite Hxt in Hst; apply app_inv_head in Hst; subst xevs.
    + exists (pevs ++ [EvMakedirs (output args)]).
      split; [rewrite Hxt, Hpt, <- app_assoc; reflexivity|]. split; [|split].
      * intros tracks0 c0 Hrc0 _.
        destruct (run_collects_unique Hrc0 Hrc) as [-> _].
        exists pevs. split; [exact Hp|]. left. exists e. split; [exact Hthrow|reflexivity].
      * intros pre ev post H Hev.
        apply split_after_quiet in H as (pre' & -> & Hsplit); auto.
        2:{ eapply Forall_impl; [|exact Hp]. intros a [_ Ha]. exact Ha. }
        exists tracks, c'. split; [exact Hrc|].
        apply in_or_app. right. eapply Hxa; eauto.
      * intros z Hz. rewrite Hz in Hthrow. discriminate.
    + exists (pevs ++ EvMakedirs (output args)
                :: EvWriteJson (meta_file_of args) (VList tracks) :: post).
      split; [rewrite Hxt, Hpt, <- app_assoc; reflexivity|]. split; [|split].
      * intros tracks0 c0 Hrc0 _.
        destruct (run_collects_unique Hrc0 Hrc) as [-> _].
        exists pevs. split; [exact Hp|]. right. exists post. reflexivity.
      * intros pre ev post0 H Hev.
        apply split_after_quiet in H as (pre' & -> & Hsplit); auto.
        2:{ eapply Forall_impl; [|exact Hp]. intros a [_ Ha]. exact Ha. }
        exists tracks, c'. split; [exact Hrc|].
        apply in_or_app. right. eapply Hxa; eauto.
      * intros z Hz. destruct (Hxb z Hz) as [Hiff Hcontent].
        assert (Hin : forall content,
                   In (EvWriteJson (fail_file_of args) content)
                      (pevs ++ EvMakedirs (output args)
                         :: EvWriteJson (meta_file_of args) (VList tracks) :: post)
                   <-> In (EvWriteJson (fail_file_of args) content)
                          (EvMakedirs (output args)
                             :: EvWriteJson (meta_file_of args) (VList tracks)
                             :: post)).
        { intros content. rewrite in_app_iff. split; [|auto].
          intros [H|H]; [|exact H].
          rewrite Forall_forall in Hp. destruct (Hp _ H) as [Hj _]. discriminate. }
        split.
        -- rewrite <- Hiff. split; intros (content & Hc); exists content;
             apply Hin; exact Hc.
        -- intros content Hc. apply Hcontent, Hin. exact Hc.
Qed.

End MetadataFirst.

Lemma metadata_first_report_last_witness :
  exists evs,
    trace (snd (cmd_export_playlist_with_audio five_env 1 five_args (State [] tt [])))
    = [] ++ evs
    /\ (forall tracks c',
          run_collects five_env 1 five_args tt [] tracks c' -> tracks <> [] ->
          exists pre,
            Forall prelude_event pre
            /\ ((exists e,
                    fst (cmd_export_playlist_with_audio five_env 1 five_args
                           (State [] tt []))
                    = Throw e
                    /\ evs = pre ++ [EvMakedirs (output five_args)])
                \/ exists post,
                     evs = pre ++ EvMakedirs (output five_args)
                             :: EvWriteJson (meta_file_of five_args) (VList tracks)
                             :: post))
    /\ (forall pre ev post,
          evs = pre ++ ev :: post -> is_download ev = true ->
          exists tracks c',
            run_collects five_env 1 five_args tt [] tracks c'
            /\ In (EvWriteJson (meta_file_of five_args) (VList tracks)) pre)
    /\ (forall z,
          fst (cmd_export_playlist_with_audio five_env 1 five_args (State [] tt []))
          = Return z ->
          ((exists content, In (EvWriteJson (fail_file_of five_args) content) evs)
           <-> locals (snd (cmd_export_playlist_with_audio five_env 1 five_args
                              (State [] tt []))) <> [])
          /\ (forall content,
                In (EvWriteJson (fail_file_of five_args) content) evs ->
                content
                = VList (map failure_record
                           (locals (snd (cmd_export_playlist_with_audio five_env 1
                                           five_args (State [] tt []))))))).
Proof.
  exact (@metadata_first_report_last unit unit five_env 1 five_args tt []
           _ _
           (surjective_pairing
              (cmd_export_playlist_with_audio five_env 1 five_args (State [] tt [])))).
Defined.
